(** * Quark-Web: the transfer protocol, the duplicate index and the batch loop

    A shallow embedding of
      - [utils/urlUtils.js]              ([getIdFromUrl], [isValidQuarkUrl]),
      - [js/services/QuarkWebService.js] ([request], the step helpers, [task], [store]),
      - [js/services/IndexedDBService.js] ([fileExists], [fileExistsByShareLink],
        [checkDuplicate]),
      - [js/components/TransferPanel.js] ([extractFileName], [handleBatchTransfer]),
    followed by the properties of the specification that concern them.

    Conventions.  A JavaScript string is a [string] (a sequence of code
    units; the patterns of the code only tell ASCII characters apart).  A
    JSON number is an integer [Z]; where a Number is written as text it is
    first rounded to the nearest double, and printed as Number::toString
    prints it.  ToString and ToPrimitive throw on an object that hides
    [toString].  An [async] method is a state-passing
    function that either returns a value or throws; [await] is sequencing,
    a rejected promise is a thrown value.  Timers are recorded in the trace
    and take no part in the result. *)

From Stdlib Require Import String Ascii List ZArith Bool Lia Arith DecimalString.
Import ListNotations.
Open Scope string_scope.

(* ===================================================================== *)
(** ** JavaScript values *)
(* ===================================================================== *)

Module JS.

(** What [response.json()] can produce, plus [undefined]. An object is the
    list of its own properties, first binding wins. *)
#[local] Unset Elimination Schemes.
Inductive json : Type :=
| JUndefined
| JNull
| JBool (b : bool)
| JNum (n : Z)
| JStr (s : string)
| JArr (items : list json)
| JObj (props : list (string * json)).
#[local] Set Elimination Schemes.

(** ToBoolean. *)
Definition truthy (v : json) : bool :=
  match v with
  | JUndefined | JNull => false
  | JBool b => b
  | JNum n => negb (n =? 0)%Z
  | JStr s => negb (s =? "")
  | JArr _ | JObj _ => true
  end.

(** [a || b]. *)
Definition or_else (a b : json) : json := if truthy a then a else b.

Fixpoint assoc (k : string) (props : list (string * json)) : json :=
  match props with
  | [] => JUndefined
  | (k', v) :: rest => if k' =? k then v else assoc k rest
  end.

Definition show_nat (n : nat) : string := NilZero.string_of_uint (Nat.to_uint n).
Definition show_Z (n : Z) : string := NilZero.string_of_int (Z.to_int n).

(** [String.prototype.at]-style one character string, [undefined] out of range. *)
Definition char_at (s : string) (i : nat) : json :=
  match String.get i s with
  | Some c => JStr (String c "")
  | None => JUndefined
  end.

(** [v?.k] for a property name that is not an array index. *)
Definition get (v : json) (k : string) : json :=
  match v with
  | JObj props => assoc k props
  | JArr items => if k =? "length" then JNum (Z.of_nat (List.length items)) else JUndefined
  | JStr s => if k =? "length" then JNum (Z.of_nat (String.length s)) else JUndefined
  | _ => JUndefined
  end.

(** [v[i]] on a value that is neither [null] nor [undefined]. *)
Definition at_index (v : json) (i : nat) : json :=
  match v with
  | JArr items => nth i items JUndefined
  | JStr s => char_at s i
  | JObj props => assoc (show_nat i) props
  | _ => JUndefined
  end.

Definition join_with (sep : string) (parts : list string) : string :=
  match parts with
  | [] => ""
  | p :: rest => fold_left (fun acc q => acc ++ sep ++ q) rest p
  end.

(** A thrown value. Everything this code base throws or receives from the
    platform is an [Error] (or [DOMException]) object with a [name] and a
    [message]; the one exception is [throw lastError] in [request] when its
    loop never ran, which throws [undefined]. *)
Inductive thrown : Type :=
| ErrorObj (name message : string)
| ThrownUndefined.

(** [new Error(message)]. *)
Definition Error (message : string) : thrown := ErrorObj "Error" message.
Definition TypeError (message : string) : thrown := ErrorObj "TypeError" message.

Inductive res (A : Type) : Type :=
| Ok (a : A)
| Throw (e : thrown).
Arguments Ok {A} a.
Arguments Throw {A} e.

Definition is_ok {A} (r : res A) : bool :=
  match r with Ok _ => true | Throw _ => false end.

Definition map_res {A B} (f : A -> B) (r : res A) : res B :=
  match r with
  | Ok a => Ok (f a)
  | Throw e => Throw e
  end.

(** The Number value for a positive integer [m]: the nearest integer with
    53 significant bits, ties to even; [None] is [Infinity]. *)
Definition number_value (m : Z) : option Z :=
  let e := Z.log2 m in
  if (e <=? 52)%Z then Some m
  else
    let shift := (e - 52)%Z in
    let q := Z.shiftr m shift in
    let r := (m - Z.shiftl q shift)%Z in
    let half := Z.shiftl 1 (shift - 1) in
    let q' := if (half <? r)%Z || ((r =? half)%Z && Z.odd q) then (q + 1)%Z else q in
    let x := Z.shiftl q' shift in
    if (x <? 2 ^ 1024)%Z then Some x else None.

(** The integers [s] and [n] of Number::toString for the Number [x > 0] of
    [d] decimal digits: the fewest digits [k] such that [s * 10 ^ (n - k)]
    has the Number value [x], and among the two neighbours of [x] with [k]
    digits the closer one, the even one when they are as close. *)
Fixpoint shortest_digits (x : Z) (d k fuel : nat) : Z * nat :=
  match fuel with
  | O => (x, d)
  | S fuel' =>
      let unit := (10 ^ Z.of_nat (d - k))%Z in
      let lo := (x / unit)%Z in
      let hi := (lo + 1)%Z in
      let is_x (s : Z) :=
        match number_value (s * unit) with
        | Some y => (y =? x)%Z
        | None => false
        end in
      let found (s : Z) : Z * nat :=
        if (s =? 10 ^ Z.of_nat k)%Z then (1%Z, S d) else (s, d) in
      match is_x lo, is_x hi with
      | true, true =>
          let below := (x - lo * unit)%Z in
          let above := (hi * unit - x)%Z in
          if (below <? above)%Z then found lo
          else if (above <? below)%Z then found hi
               else if Z.even lo then found lo else found hi
      | true, false => found lo
      | false, true => found hi
      | false, false => shortest_digits x d (S k) fuel'
      end
  end.

Fixpoint zeros (n : nat) : string :=
  match n with
  | O => ""
  | S n' => String "0" (zeros n')
  end.

(** Number::toString in radix 10 for the Number that the integer literal
    [n] denotes: every digit the Number needs, followed by zeros, up to 21
    digits, and an exponent from there on. *)
Definition number_to_string (n : Z) : string :=
  if (n =? 0)%Z then "0"
  else
    let sign := if (n <? 0)%Z then "-" else "" in
    match number_value (Z.abs n) with
    | None => sign ++ "Infinity"
    | Some x =>
        let d := String.length (show_Z x) in
        let (s, n10) := shortest_digits x d 1 d in
        let digits := show_Z s in
        let k := String.length digits in
        if (n10 <=? 21)%nat then sign ++ digits ++ zeros (n10 - k)
        else
          sign ++ String.substring 0 1 digits
          ++ (if (1 <? k)%nat then "." ++ String.substring 1 (k - 1) digits else "")
          ++ "e+" ++ show_nat (n10 - 1)
    end.

(** An object has an own property of this name. *)
Definition has_own (k : string) (props : list (string * json)) : bool :=
  existsb (fun p => fst p =? k) props.

(** What ToPrimitive throws when neither [toString] nor [valueOf] gives a
    primitive value. *)
Definition not_primitive : thrown :=
  TypeError "Cannot convert object to primitive value".

(** ToString, as a template literal applies it. An array is joined by
    [Array.prototype.join]. An object parsed from JSON has no method of its
    own: it prints as [[object Object]] through [Object.prototype.toString],
    unless an own property [toString] hides that method, and then nothing
    converts it ([Object.prototype.valueOf] returns the object itself). *)
Fixpoint to_string (v : json) : res string :=
  match v with
  | JUndefined => Ok "undefined"
  | JNull => Ok "null"
  | JBool true => Ok "true"
  | JBool false => Ok "false"
  | JNum n => Ok (number_to_string n)
  | JStr s => Ok s
  | JArr items =>
      map_res (join_with ",")
        ((fix each (items : list json) : res (list string) :=
            match items with
            | [] => Ok []
            | x :: rest =>
                match (match x with
                       | JUndefined | JNull => Ok ""
                       | _ => to_string x
                       end) with
                | Ok s => map_res (cons s) (each rest)
                | Throw e => Throw e
                end
            end) items)
  | JObj props =>
      if has_own "toString" props then Throw not_primitive
      else Ok "[object Object]"
  end.

(** What reading the property [k] of [undefined] or of [null] throws. *)
Definition cannot_read (v : json) (k : string) : thrown :=
  TypeError ("Cannot read properties of "
             ++ (match v with JNull => "null" | _ => "undefined" end)
             ++ " (reading '" ++ k ++ "')").

(** [v.k] without [?.]: reading a property of [null] or [undefined] throws. *)
Definition member (v : json) (k : string) : res json :=
  match v with
  | JUndefined | JNull => Throw (cannot_read v k)
  | _ => Ok (get v k)
  end.

(** [error.message] where [error] is whatever was caught. *)
Definition message_of (e : thrown) : res string :=
  match e with
  | ErrorObj _ message => Ok message
  | ThrownUndefined => Throw (cannot_read JUndefined "message")
  end.

(** [v === s] for a string [s]. *)
Definition str_is (v : json) (s : string) : bool :=
  match v with
  | JStr x => x =? s
  | _ => false
  end.

(** [s.includes(sub)]. *)
Definition includes (s sub : string) : bool :=
  match String.index 0 sub s with
  | Some _ => true
  | None => false
  end.

(** [v > 0]: ToPrimitive, then ToNumber. How text converts to a number (the
    StringToNumber grammar) is the platform's business and stays a
    parameter; the text [[object Object]] is not a number. *)
Definition gt_zero (text_gt_zero : string -> bool) (v : json) : res bool :=
  match v with
  | JUndefined | JNull => Ok false
  | JBool b => Ok b
  | JNum n => Ok (0 <? n)%Z
  | JStr s => Ok (text_gt_zero s)
  | JArr _ => map_res text_gt_zero (to_string v)
  | JObj _ => map_res (fun _ => false) (to_string v)
  end.

End JS.

Import JS.

(* ===================================================================== *)
(** ** utils/urlUtils.js *)
(* ===================================================================== *)

Module UrlUtils.

(** The class [\w] of a pattern without the [u] flag: [A-Za-z0-9_]. *)
Definition is_word_char (c : ascii) : bool :=
  let n := N_of_ascii c in
  ((48 <=? n) && (n <=? 57) || (65 <=? n) && (n <=? 90)
   || (97 <=? n) && (n <=? 122) || (n =? 95))%N.

(** The greedy [\w*] at the head of [s]. *)
Fixpoint take_word (s : string) : string :=
  match s with
  | String c rest => if is_word_char c then String c (take_word rest) else ""
  | EmptyString => ""
  end.

(** A literal text [p] of a pattern at the head of [s]: what follows it. *)
Fixpoint strip_prefix (p s : string) : option string :=
  match p with
  | EmptyString => Some s
  | String a p' =>
      match s with
      | String b s' => if Ascii.eqb a b then strip_prefix p' s' else None
      | EmptyString => None
      end
  end.

(** [/\/s\/(\w+)/] tried at the first position of [s]: the capture group. *)
Definition match_here (s : string) : option string :=
  match strip_prefix "/s/" s with
  | Some rest =>
      match take_word rest with
      | EmptyString => None
      | w => Some w
      end
  | None => None
  end.

(** [url.match(/\/s\/(\w+)/)]: leftmost position where the pattern matches;
    [None] is JavaScript's [null]. *)
Fixpoint match_pattern (url : string) : option string :=
  match match_here url with
  | Some w => Some w
  | None =>
      match url with
      | EmptyString => None
      | String _ rest => match_pattern rest
      end
  end.

(** [getIdFromUrl(url)]. The [catch] branch needs a [url] that is not a
    string and returns [''] as well. *)
Definition getIdFromUrl (url : string) : string :=
  match match_pattern url with
  | Some m1 => if negb (m1 =? "") then m1 else ""
  | None => ""
  end.

Definition share_prefix : string := "https://pan.quark.cn/s/".

(** [/^https:\/\/pan\.quark\.cn\/s\/\w+/.test(url)]. *)
Definition isValidQuarkUrl (url : string) : bool :=
  match strip_prefix share_prefix url with
  | Some (String c _) => is_word_char c
  | _ => false
  end.

(** Every character of [s] is a word character. *)
Fixpoint all_word (s : string) : bool :=
  match s with
  | EmptyString => true
  | String c rest => is_word_char c && all_word rest
  end.

(** The canonical shape: scheme, host, [/s/] and a non-empty identifier,
    nothing else. *)
Definition canonical_share_url (url id : string) : Prop :=
  url = share_prefix ++ id /\ id <> "" /\ all_word id = true.


End UrlUtils.

(* ===================================================================== *)
(** ** Asynchronous code: state passing with exceptions *)
(* ===================================================================== *)

Module Async.

(** An [async] computation over a store [St]: it ends with a value or a
    thrown value, and a new store. *)
Definition M (St A : Type) : Type := St -> res A * St.

Definition ret {St A} (a : A) : M St A := fun st => (Ok a, st).

Definition throw {St A} (e : thrown) : M St A := fun st => (Throw e, st).

Definition bind {St A B} (m : M St A) (k : A -> M St B) : M St B :=
  fun st =>
    match m st with
    | (Ok a, st') => k a st'
    | (Throw e, st') => (Throw e, st')
    end.

(** [try { body } catch (error) { handler }]. *)
Definition try_catch {St A} (body : M St A) (handler : thrown -> M St A) : M St A :=
  fun st =>
    match body st with
    | (Ok a, st') => (Ok a, st')
    | (Throw e, st') => handler e st'
    end.

(** A synchronous expression that may throw, inside [async] code. *)
Definition lift_res {St A} (r : res A) : M St A := fun st => (r, st).

(** How the body of a loop leaves one iteration. *)
Inductive flow (A B : Type) : Type :=
| Return (a : A)
| Next (b : B).
Arguments Return {A B} a.
Arguments Next {A B} b.

(** A computation that always returns. *)
Definition total {St A} (m : M St A) : Prop :=
  forall st, exists a st', m st = (Ok a, st').

(** A computation that throws nothing but [Error] objects. *)
Definition throws_errors {St A} (m : M St A) : Prop :=
  forall st e st', m st = (Throw e, st') -> e <> ThrownUndefined.

(** Whatever a computation returns satisfies [P]. *)
Definition ensures {St A} (m : M St A) (P : A -> Prop) : Prop :=
  forall st a st', m st = (Ok a, st') -> P a.

End Async.

Import Async.

Declare Scope async_scope.
Delimit Scope async_scope with async.
Notation "x <- c ;; k" := (bind c (fun x => k))
  (at level 61, c at next level, right associativity) : async_scope.
Notation "c ;;; k" := (bind c (fun _ => k))
  (at level 61, right associativity) : async_scope.
Open Scope async_scope.

(* ===================================================================== *)
(** ** js/services/QuarkWebService.js *)
(* ===================================================================== *)

Module QuarkWebService.

(** The request a method hands to [request]: the endpoint and the values the
    method puts in the query string, which are text, or in the JSON body,
    which are values. The [__t] time stamp and the random [__dt] are left
    to the upstream's own state, and so is the address that [buildUrl] puts
    before the path, which is text for a service built without a
    [proxyUrl] option. *)
Inductive api_call : Type :=
| CallToken (pwd_id : string)
| CallDetail (pwd_id stoken : string)
| CallSave (pwd_id : string) (stoken fid share_fid_token : json) (to_pdir_fid : string)
| CallTask (task_id : string) (retry_index : nat)
| CallShare (fid title : json)
| CallSharePassword (share_id : json).

(** What [response.json()] settles to. *)
Inductive parsed : Type :=
| Parsed (v : json)
| ParseError (name message : string).

(** The [Response] object [fetch] resolves with. [text = None] is a
    [response.text()] that rejects. *)
Record response : Type := mkResponse {
  ok : bool;
  status : Z;
  statusText : string;
  text : option string;
  body : parsed
}.

(** One [fetch]: rejected (an [AbortError] when the timeout fired, a
    [TypeError] when the connection failed) or resolved with a response of
    any status. *)
Inductive fetch_outcome : Type :=
| Rejected (name message : string)
| Responded (r : response).

Inductive log_level : Type := LError | LWarn | LInfo.

Inductive event : Type :=
| EFetch (c : api_call)
| ESleep (ms : nat)
| ELog (level : log_level) (label : string)
| EProgress (step : Z) (message : string) (percent : Z).

Definition is_fetch (e : event) : bool :=
  match e with
  | EFetch _ => true
  | _ => false
  end.

(** How many times [fetch] was called along a trace. *)
Definition fetches (tr : list event) : nat := List.length (filter is_fetch tr).

(** [progressCallback], by what a call with the given step, message and
    percentage does: [None] when it returns, the thrown value otherwise. *)
Definition callback : Type := Z -> string -> Z -> option thrown.

Record outcome_data : Type := mkData {
  fileId : json;
  fileName : json;
  fileType : json;
  shareLink : json
}.

(** What [store] resolves with; [data = None] is an object without [data]. *)
Record outcome : Type := mkOutcome {
  success : bool;
  message : string;
  data : option outcome_data
}.

(** What [detail] returns when it does not return [null]. *)
Record file_detail : Type := mkDetail {
  title : json;
  file_type : json;
  fid : json;
  pdir_fid : json;
  share_fid_token : json
}.

(** What [getFileInfo] returns when it does not return [null]. *)
Record file_info : Type := mkInfo {
  info_fileName : json;
  info_fileType : json;
  info_fileSize : json;
  info_fid : json;
  info_shareFidToken : json
}.

Section Service.

(** The upstream and the network between: a state [W] and what a [fetch]
    does in it. *)
Variable W : Type.
Variable fetch : api_call -> W -> fetch_outcome * W.
Variable text_gt_zero : string -> bool.

Record net : Type := mkNet {
  world : W;
  trace : list event
}.

Definition emit (e : event) : M net unit :=
  fun st => (Ok tt, mkNet (world st) (trace st ++ [e])).

Definition log (level : log_level) (label : string) : M net unit :=
  emit (ELog level label).

(** [await new Promise(resolve => setTimeout(resolve, ms))]. *)
Definition sleep (ms : nat) : M net unit := emit (ESleep ms).

Definition do_fetch (c : api_call) : M net fetch_outcome :=
  fun st =>
    let (o, w') := fetch c (world st) in
    (Ok o, mkNet w' (trace st ++ [EFetch c])).

(** [progressCallback?.(step, message, percent)]. *)
Definition progress (cb : option callback) (step : Z) (msg : string) (pct : Z)
  : M net unit :=
  match cb with
  | None => ret tt
  | Some f =>
      emit (EProgress step msg pct) ;;;
      match f step msg pct with
      | None => ret tt
      | Some e => throw e
      end
  end.

(** [Math.min(1000 * Math.pow(2, attempt - 1), 5000)]. *)
Definition backoff (attempt : nat) : nat := Nat.min (1000 * 2 ^ (attempt - 1)) 5000.

(** What the [try] of [request] does with a settled [fetch]: the [throw]
    on a status that is not 2xx, else [response.json()]. *)
Definition read_response (o : fetch_outcome) : res json :=
  match o with
  | Rejected name msg => Throw (ErrorObj name msg)
  | Responded r =>
      if negb (ok r) then
        let errorText := match text r with
                         | Some t => t
                         | None => statusText r
                         end in
        Throw (Error ("HTTP " ++ show_Z (status r) ++ ": " ++ errorText))
      else
        match body r with
        | Parsed v => Ok v
        | ParseError name msg => Throw (ErrorObj name msg)
        end
  end.

(** The body of the [try] in [request]: one [fetch] and the reading of its
    response. *)
Definition attempt_once (c : api_call) : M net json :=
  o <- do_fetch c ;;
  lift_res (read_response o).

(** The [catch] of [request]: which line is logged, then the back-off. *)
Definition on_attempt_error (retries attempt : nat) (error : thrown) : M net unit :=
  match error with
  | ErrorObj name msg =>
      (if name =? "AbortError" then log LWarn "请求超时"
       else if includes msg "ECONNRESET" || includes msg "network"
            then log LWarn "网络错误"
            else log LError "请求失败") ;;;
      if (attempt <? retries)%nat then sleep (backoff attempt) else ret tt
  | ThrownUndefined => throw (cannot_read JUndefined "name")
  end.

(** [for (let attempt = 1; attempt <= retries; attempt++)], with [left]
    iterations to go, then [throw lastError]. *)
Fixpoint request_loop (c : api_call) (retries attempt left : nat) (lastError : thrown)
  : M net json :=
  match left with
  | O =>
      log LError "请求最终失败" ;;;
      throw lastError
  | S left' =>
      r <- try_catch
             (v <- attempt_once c ;; ret (Return v))
             (fun error =>
                on_attempt_error retries attempt error ;;;
                ret (Next error)) ;;
      match r with
      | Return v => ret v
      | Next error => request_loop c retries (S attempt) left' error
      end
  end.

(** [request(path, options, retries = 3)]. *)
Definition request (c : api_call) (retries : nat) : M net json :=
  request_loop c retries 1 retries ThrownUndefined.

Definition default_retries : nat := 3.

(** The [catch] shared by the helpers: [this.logger.error(label, error.message)]
    and the fallback value. *)
Definition log_and_return {A} (label : string) (fallback : A) (error : thrown)
  : M net A :=
  _ <- lift_res (message_of error) ;;
  log LError label ;;;
  ret fallback.

Definition getStoken (pwdId : string) : M net json :=
  try_catch
    (response <- request (CallToken pwdId) default_retries ;;
     ret (or_else (get (get response "data") "stoken") (JStr "")))
    (log_and_return "获取stoken失败:" (JStr "")).

(** [detail(pwdId, stoken)]: [new URLSearchParams({...})] converts [stoken]
    to text before anything is requested. *)
Definition detail (pwdId : string) (stoken : json) : M net (option file_detail) :=
  try_catch
    (params_stoken <- lift_res (to_string stoken) ;;
     response <- request (CallDetail pwdId params_stoken) default_retries ;;
     positive <- lift_res (gt_zero text_gt_zero
                             (get (get (get response "data") "list") "length")) ;;
     if positive then
       let idList := at_index (get (get response "data") "list") 0 in
       file_name <- lift_res (member idList "file_name") ;;
       file_type <- lift_res (member idList "file_type") ;;
       fid <- lift_res (member idList "fid") ;;
       pdir_fid <- lift_res (member idList "pdir_fid") ;;
       share_fid_token <- lift_res (member idList "share_fid_token") ;;
       ret (Some (mkDetail file_name file_type fid pdir_fid share_fid_token))
     else ret None)
    (log_and_return "获取文件详情失败:" None).

Definition saveTaskId (pwdId : string) (stoken firstId shareFidToken : json)
  : M net json :=
  try_catch
    (response <- request (CallSave pwdId stoken firstId shareFidToken "0")
                   default_retries ;;
     ret (or_else (get (get response "data") "task_id") (JStr "")))
    (log_and_return "获取保存任务ID失败:" (JStr "")).

(** [for (let i = 0; i < maxTries; i++)] of [task], with [left] iterations
    to go, then [return null]. Every iteration writes [taskId] into the
    path of its request. *)
Fixpoint task_loop (taskId : json) (i left : nat) : M net (option json) :=
  match left with
  | O => ret None
  | S left' =>
      task_id <- lift_res (to_string taskId) ;;
      response <- request (CallTask task_id i) default_retries ;;
      if truthy (get (get response "data") "status") then ret (Some response)
      else sleep 1000 ;;; task_loop taskId (S i) left'
  end.

(** [task(taskId, maxTries = 10)]; [None] is [null]. *)
Definition task (taskId : json) (maxTries : nat) : M net (option json) :=
  try_catch (task_loop taskId 0 maxTries)
    (log_and_return "执行任务失败:" None).

Definition default_maxTries : nat := 10.

Definition shareTaskId (fileId fileName : json) : M net json :=
  try_catch
    (response <- request (CallShare fileId fileName) default_retries ;;
     ret (or_else (get (get response "data") "task_id") (JStr "")))
    (log_and_return "创建分享任务失败:" (JStr "")).

Definition getShareLink (shareId : json) : M net json :=
  try_catch
    (response <- request (CallSharePassword shareId) default_retries ;;
     ret (or_else (get (get response "data") "share_url") (JStr "")))
    (log_and_return "获取分享链接失败:" (JStr "")).

(** [x] where [x] is an object or [null]. *)
Definition or_null (x : option json) : json :=
  match x with
  | Some v => v
  | None => JNull
  end.

(** [if (!cond) throw new Error(msg)]. *)
Definition require (cond : bool) (msg : string) : M net unit :=
  if cond then ret tt else throw (Error msg).

(** The methods that [store] calls on [this]. *)
Record helpers : Type := mkHelpers {
  this_getStoken : string -> M net json;
  this_detail : string -> json -> M net (option file_detail);
  this_saveTaskId : string -> json -> json -> json -> M net json;
  this_task : json -> nat -> M net (option json);
  this_shareTaskId : json -> json -> M net json;
  this_getShareLink : json -> M net json
}.

(** The body of [store], with [this] explicit. *)
Definition store_on (this : helpers) (url : string) (progressCallback : option callback)
  : M net outcome :=
  try_catch
    (log LInfo "开始转存文件" ;;;
     progress progressCallback 1 "解析链接" 10 ;;;
     let pwdId := UrlUtils.getIdFromUrl url in
     require (negb (pwdId =? "")) "无法从链接中提取文件ID" ;;;

     progress progressCallback 2 "获取分享令牌" 20 ;;;
     stoken <- this_getStoken this pwdId ;;
     require (truthy stoken) "获取分享令牌失败" ;;;

     progress progressCallback 3 "获取文件详情" 40 ;;;
     detail_opt <- this_detail this pwdId stoken ;;
     match detail_opt with
     | None => throw (Error "获取文件详情失败")
     | Some d =>
         let fileName := title d in

         progress progressCallback 4 "执行转存任务" 60 ;;;
         saveTask <- this_saveTaskId this pwdId stoken (fid d) (share_fid_token d) ;;
         require (truthy saveTask) "获取保存任务ID失败" ;;;

         taskResponse <- this_task this saveTask default_maxTries ;;
         let top_fids :=
           get (get (get (or_null taskResponse) "data") "save_as") "save_as_top_fids" in
         require (truthy (get top_fids "length")) "执行保存任务失败" ;;;

         let fileId := at_index top_fids 0 in

         progress progressCallback 5 "生成分享链接" 80 ;;;
         shareTask <- this_shareTaskId this fileId fileName ;;
         require (truthy shareTask) "创建分享任务失败" ;;;

         shareTaskResponse <- this_task this shareTask default_maxTries ;;
         let shareId := get (get (or_null shareTaskResponse) "data") "share_id" in
         require (truthy shareId) "执行分享任务失败" ;;;

         shareLink <- this_getShareLink this shareId ;;
         require (truthy shareLink) "获取分享链接失败" ;;;

         progress progressCallback 5 "转存完成" 100 ;;;

         name <- lift_res (to_string fileName) ;;
         log LInfo "文件转存成功" ;;;
         ret (mkOutcome true ("文件转存成功: " ++ name)
                (Some (mkData fileId fileName (file_type d) shareLink)))
     end)
    (fun error =>
       msg <- lift_res (message_of error) ;;
       log LError "转存失败:" ;;;
       progress progressCallback (-1) ("转存失败: " ++ msg) 0 ;;;
       ret (mkOutcome false ("转存失败: " ++ msg) None)).

(** The methods of the class itself. *)
Definition self : helpers :=
  mkHelpers getStoken detail saveTaskId task shareTaskId getShareLink.

(** [store(url, progressCallback)] of a [QuarkWebService]. *)
Definition store (url : string) (progressCallback : option callback) : M net outcome :=
  store_on self url progressCallback.

(** Helpers that throw nothing but [Error] objects, when they throw. *)
Definition helpers_throw_errors (this : helpers) : Prop :=
  (forall pwdId, throws_errors (this_getStoken this pwdId)) /\
  (forall pwdId stoken, throws_errors (this_detail this pwdId stoken)) /\
  (forall pwdId stoken firstId token,
      throws_errors (this_saveTaskId this pwdId stoken firstId token)) /\
  (forall taskId maxTries, throws_errors (this_task this taskId maxTries)) /\
  (forall fileId fileName, throws_errors (this_shareTaskId this fileId fileName)) /\
  (forall shareId, throws_errors (this_getShareLink this shareId)).

Definition getFileInfo (url : string) : M net (option file_info) :=
  try_catch
    (let pwdId := UrlUtils.getIdFromUrl url in
     require (negb (pwdId =? "")) "无法从链接中提取文件ID" ;;;
     stoken <- getStoken pwdId ;;
     require (truthy stoken) "获取分享令牌失败" ;;;
     detail_opt <- detail pwdId stoken ;;
     match detail_opt with
     | None => throw (Error "获取文件详情失败")
     | Some d =>
         ret (Some (mkInfo (title d) (file_type d) (or_else JUndefined (JNum 0))
                      (fid d) (share_fid_token d)))
     end)
    (log_and_return "获取文件信息失败:" None).

End Service.

Arguments mkNet {W} world trace.
Arguments world {W} n.
Arguments trace {W} n.

(** The upstream answers the call [c] with a 2xx response of body [v],
    whatever its state. *)
Definition answers {W} (fetch : api_call -> W -> fetch_outcome * W)
  (c : api_call) (v : json) : Prop :=
  forall w, exists r, fst (fetch c w) = Responded r /\ ok r = true /\ body r = Parsed v.

(** The polls of the job [taskId] are the requests that carry its text
    [task_id]. The job resolves with [v] at the poll number [k] of a caller
    that polls at most [cap] times: no status before, a status then. *)
Definition resolves_at {W} (fetch : api_call -> W -> fetch_outcome * W)
  (taskId : json) (cap k : nat) (v : json) : Prop :=
  exists task_id,
    to_string taskId = Ok task_id /\
    k < cap /\
    (forall i, i < k ->
       exists vi, answers fetch (CallTask task_id i) vi /\
                  truthy (get (get vi "data") "status") = false) /\
    answers fetch (CallTask task_id k) v /\
    truthy (get (get v "data") "status") = true.

(** No 2xx answer to one of the first [cap] polls of [taskId] carries a
    status. *)
Definition never_resolves {W} (fetch : api_call -> W -> fetch_outcome * W)
  (taskId : json) (cap : nat) : Prop :=
  forall task_id i w r v,
    to_string taskId = Ok task_id ->
    i < cap -> fst (fetch (CallTask task_id i) w) = Responded r ->
    ok r = true -> body r = Parsed v ->
    truthy (get (get v "data") "status") = false.


(** A failure carries no [data], a success carries it. *)
Definition well_formed (o : outcome) : Prop :=
  if success o then exists d, data o = Some d else data o = None.

(** The progress callback, if there is one, returns whenever it is called. *)
Definition returns (cb : option callback) : Prop :=
  match cb with
  | Some f => forall step msg pct, f step msg pct = None
  | None => True
  end.

End QuarkWebService.

(* ===================================================================== *)
(** ** js/services/IndexedDBService.js *)
(* ===================================================================== *)

Module IndexedDBService.

(** A stored object: its own properties. *)
Definition file_record : Type := list (string * json).

(** The requests the duplicate check places on the object store. *)
Inductive idb_request : Type :=
| IndexGet (indexName key : string)
| GetAll.

(** The object store ['files'] as the check sees it. [transaction_error] is
    what [this.db.transaction(...)] throws, if it throws ([this.db] is
    [null], the connection is closing); [request_fails] tells which
    requests end in [onerror]. *)
Record database : Type := mkDb {
  transaction_error : option thrown;
  indexNames : list string;
  files : list file_record;
  request_fails : idb_request -> bool
}.

Record verdict : Type := mkVerdict {
  exists_ : bool;
  duplicateType : string;
  nameExists : bool;
  linkExists : bool
}.

(** [file[field] === value] for a string [value]. *)
Definition field_is (field value : string) (file : file_record) : bool :=
  str_is (assoc field file) value.

(** [!!request.result] after [index.get(key)] succeeded. *)
Definition index_has (db : database) (indexName key : string) : bool :=
  existsb (field_is indexName key) (files db).

Definition contains (names : list string) (name : string) : bool :=
  existsb (String.eqb name) names.

(** [fileExists(fileName)]: the executor of the promise either throws,
    which rejects it, or places one request. *)
Definition fileExists (db : database) (fileName : string) : res bool :=
  match transaction_error db with
  | Some e => Throw e
  | None =>
      if contains (indexNames db) "fileName" then
        if request_fails db (IndexGet "fileName" fileName)
        then Throw (Error "检查文件存在性失败")
        else Ok (index_has db "fileName" fileName)
      else Throw (ErrorObj "NotFoundError" "The specified index was not found.")
  end.

(** [checkWithIndex(indexName)] inside [fileExistsByShareLink]. *)
Definition checkWithIndex (db : database) (shareLink indexName : string) : bool :=
  if contains (indexNames db) indexName then
    if request_fails db (IndexGet indexName shareLink) then false
    else index_has db indexName shareLink
  else false.

(** [fileExistsByShareLink(shareLink)]: every failure resolves to [false]. *)
Definition fileExistsByShareLink (db : database) (shareLink : string) : res bool :=
  match transaction_error db with
  | Some _ => Ok false
  | None =>
      let results := map (checkWithIndex db shareLink)
                         ["shareLink"; "shareUrl"; "originalUrl"] in
      let foundInIndex := existsb (fun result => result) results in
      if foundInIndex then Ok true
      else if request_fails db GetAll then Ok false
      else Ok (existsb (fun file =>
                          field_is "shareLink" shareLink file
                          || field_is "shareUrl" shareLink file
                          || field_is "originalUrl" shareLink file)
                       (files db))
  end.

(** [await Promise.all([p, q])]: the first rejection, or both values. *)
Definition promise_all2 {A B} (p : res A) (q : res B) : res (A * B) :=
  match p, q with
  | Throw e, _ => Throw e
  | Ok _, Throw e => Throw e
  | Ok a, Ok b => Ok (a, b)
  end.

Definition checkDuplicate (db : database) (fileName shareLink : string) : res verdict :=
  match promise_all2 (fileExists db fileName) (fileExistsByShareLink db shareLink) with
  | Ok (nameExists, linkExists) =>
      Ok (mkVerdict (nameExists || linkExists)
            (if nameExists then (if linkExists then "both" else "name")
             else (if linkExists then "link" else "none"))
            nameExists linkExists)
  | Throw error =>
      match message_of error with
      | Ok msg => Throw (Error ("检查重复文件失败: " ++ msg))
      | Throw e => Throw e
      end
  end.

End IndexedDBService.

(* ===================================================================== *)
(** ** js/components/TransferPanel.js *)
(* ===================================================================== *)

Module TransferPanel.

Import QuarkWebService IndexedDBService.

(** One element of [this.batchResults]: the three object shapes the loop
    pushes. *)
Inductive batch_entry : Type :=
| EntrySkipped (link message duplicateTypeText : string) (fileName : json)
| EntrySuccess (link : string) (data : outcome_data)
| EntryFailure (link message : string).

Definition entry_link (e : batch_entry) : string :=
  match e with
  | EntrySkipped link _ _ _ => link
  | EntrySuccess link _ => link
  | EntryFailure link _ => link
  end.

Definition entry_success (e : batch_entry) : bool :=
  match e with
  | EntrySuccess _ _ => true
  | _ => false
  end.

Definition entry_skipped (e : batch_entry) : bool :=
  match e with
  | EntrySkipped _ _ _ _ => true
  | _ => false
  end.

(** What the panel does to the page, in order. The percentage that
    [updateProgress] receives in the loop is a rounded quotient and is left
    out. *)
Inductive ui_event : Type :=
| Notify (kind title message : string)
| UpdateProgress (step : Z) (message : string)
| ShowProgress (show : bool)
| UpdateTransferButton (busy : bool)
| ShowResult (ok : bool) (message : string)
| ShowBatchResult (successCount failCount skipCount totalCount : nat)
| LogError (label : string)
| Pause (ms : nat).

Definition dquote : string := String (ascii_of_nat 34) EmptyString.

Section Panel.

(** Whatever the injected services act on: the network, the upstream, the
    local database. *)
Variable St : Type.

(** [quarkService], as the panel uses it. *)
Record quark_service : Type := mkQuark {
  qs_getFileInfo : string -> M St (option file_info);
  qs_store : string -> option callback -> M St outcome
}.

(** [this.dbService], as the panel uses it. *)
Record db_service : Type := mkDbService {
  ds_checkDuplicate : json -> string -> M St verdict;
  ds_insertFile : json -> json -> json -> json -> M St unit
}.

(** The panel and the locals of [handleBatchTransfer] that its [try] and
    [catch] blocks both write. [defaultCookie] is [settings.defaultCookie || '']
    of the local storage. *)
Record panel : Type := mkPanel {
  env : St;
  defaultCookie : string;
  detectedLinks : list string;
  isTransferring : bool;
  batchResults : list batch_entry;
  successCount : nat;
  failCount : nat;
  skipCount : nat;
  ui : list ui_event
}.

Variable dbService : db_service.
Variable onQuarkServiceNeeded : string -> res quark_service.

Definition set_env (p : panel) (e : St) : panel :=
  mkPanel e (defaultCookie p) (detectedLinks p) (isTransferring p) (batchResults p)
    (successCount p) (failCount p) (skipCount p) (ui p).

(** A call of a service method, awaited. *)
Definition call {A} (m : M St A) : M panel A :=
  fun p => let (r, e) := m (env p) in (r, set_env p e).

Definition show (e : ui_event) : M panel unit :=
  fun p => (Ok tt,
            mkPanel (env p) (defaultCookie p) (detectedLinks p) (isTransferring p)
              (batchResults p) (successCount p) (failCount p) (skipCount p)
              (ui p ++ [e])).

Definition set_isTransferring (b : bool) : M panel unit :=
  fun p => (Ok tt,
            mkPanel (env p) (defaultCookie p) (detectedLinks p) b
              (batchResults p) (successCount p) (failCount p) (skipCount p) (ui p)).

(** [this.batchResults = []] together with the three [let ... = 0]. *)
Definition reset_batch : M panel unit :=
  fun p => (Ok tt,
            mkPanel (env p) (defaultCookie p) (detectedLinks p) (isTransferring p)
              [] 0 0 0 (ui p)).

(** [this.batchResults.push(entry)] followed by the increment of the
    counter of its kind. *)
Definition push (entry : batch_entry) : M panel unit :=
  fun p =>
    let results := (batchResults p ++ [entry])%list in
    (Ok tt,
     match entry with
     | EntrySuccess _ _ =>
         mkPanel (env p) (defaultCookie p) (detectedLinks p) (isTransferring p) results
           (S (successCount p)) (failCount p) (skipCount p) (ui p)
     | EntryFailure _ _ =>
         mkPanel (env p) (defaultCookie p) (detectedLinks p) (isTransferring p) results
           (successCount p) (S (failCount p)) (skipCount p) (ui p)
     | EntrySkipped _ _ _ _ =>
         mkPanel (env p) (defaultCookie p) (detectedLinks p) (isTransferring p) results
           (successCount p) (failCount p) (S (skipCount p)) (ui p)
     end).

Definition read {A} (f : panel -> A) : M panel A := fun p => (Ok (f p), p).

(** [try { body } finally { fin }]. *)
Definition try_finally {A} (body : M panel A) (fin : M panel unit) : M panel A :=
  fun p =>
    let (r, p') := body p in
    match fin p' with
    | (Ok _, p'') => (r, p'')
    | (Throw e, p'') => (Throw e, p'')
    end.

(** [extractFileName(url, quarkService)]: [fileInfo?.fileName || null]. *)
Definition extractFileName (url : string) (quarkService : quark_service) : M panel json :=
  try_catch
    (fileInfo <- call (qs_getFileInfo quarkService url) ;;
     ret (or_else (match fileInfo with
                   | Some info => info_fileName info
                   | None => JUndefined
                   end) JNull))
    (fun _ => ret JNull).

Definition duplicateTypeText (duplicateType : string) : string :=
  if duplicateType =? "both" then "文件名和链接都"
  else if duplicateType =? "name" then "文件名" else "链接".

Definition resetTransferState : M panel unit :=
  set_isTransferring false ;;;
  show (UpdateTransferButton false) ;;;
  show (ShowProgress false).

(** The [try] block of one iteration. [Return tt] is its [continue], which
    also skips the pause that ends the iteration. *)
Definition transfer_one (quarkService : quark_service) (link : string)
  : M panel (flow unit unit) :=
  fileName <- extractFileName link quarkService ;;
  duplicateCheck <-
    (if truthy fileName
     then v <- call (ds_checkDuplicate dbService fileName link) ;; ret (Some v)
     else ret None) ;;
  match duplicateCheck with
  | Some v =>
      if exists_ v then
        let kind := duplicateTypeText (duplicateType v) in
        name <- lift_res (to_string fileName) ;;
        push (EntrySkipped link
                ("文件 " ++ dquote ++ name ++ dquote
                 ++ " 已存在（" ++ kind ++ "重复），跳过转存")
                kind fileName) ;;;
        ret (Return tt)
      else ret (Next tt)
  | None => ret (Next tt)
  end.

(** What follows the duplicate check in the [try] block. A result that
    claims success without [data] makes [result.data.fileId] throw. *)
Definition transfer_rest (quarkService : quark_service) (link : string) : M panel unit :=
  result <- call (qs_store quarkService link None) ;;
  if success result then
    match data result with
    | Some d =>
        call (ds_insertFile dbService (fileId d) (fileName d) (fileType d) (shareLink d)) ;;;
        push (EntrySuccess link d)
    | None => throw (cannot_read JUndefined "fileId")
    end
  else push (EntryFailure link (message result)).

(** One iteration of the [for] loop, the pause excepted. *)
Definition batch_step (quarkService : quark_service) (totalLinks i : nat) (link : string)
  : M panel (flow unit unit) :=
  show (UpdateProgress 1
          ("正在转存第 " ++ show_nat (i + 1) ++ "/" ++ show_nat totalLinks
           ++ " 个文件...")) ;;;
  try_catch
    (r <- transfer_one quarkService link ;;
     match r with
     | Return _ => ret (Return tt)
     | Next _ => transfer_rest quarkService link ;;; ret (Next tt)
     end)
    (fun error =>
       msg <- lift_res (message_of error) ;;
       push (EntryFailure link msg) ;;;
       ret (Next tt)).

(** [for (let i = 0; i < totalLinks; i++)] over [this.detectedLinks]. *)
Fixpoint batch_loop (quarkService : quark_service) (totalLinks i : nat)
  (links : list string) : M panel unit :=
  match links with
  | [] => ret tt
  | link :: rest =>
      r <- batch_step quarkService totalLinks i link ;;
      (match r with
       | Return _ => ret tt
       | Next _ => if (i <? totalLinks - 1)%nat then show (Pause 1000) else ret tt
       end) ;;;
      batch_loop quarkService totalLinks (S i) rest
  end.

(** The notification that ends a batch. *)
Definition batch_summary : M panel unit :=
  s <- read successCount ;;
  f <- read failCount ;;
  k <- read skipCount ;;
  let resultMessage :=
    ("成功转存 " ++ show_nat s ++ " 个文件")
    ++ (if (0 <? f)%nat then "，失败 " ++ show_nat f ++ " 个" else "")
    ++ (if (0 <? k)%nat then "，跳过重复文件 " ++ show_nat k ++ " 个" else "") in
  if (0 <? s)%nat then show (Notify "success" "批量转存完成" resultMessage)
  else if (0 <? k)%nat && (f =? 0)%nat
       then show (Notify "info" "批量转存完成"
                    ("所有文件都是重复文件，已跳过 " ++ show_nat k ++ " 个"))
       else show (Notify "error" "批量转存失败" "所有文件转存都失败了").

Definition handleBatchTransfer : M panel unit :=
  links <- read detectedLinks ;;
  if (List.length links =? 0)%nat then
    show (Notify "warning" "输入错误" "未检测到有效的夸克网盘链接")
  else
    try_finally
      (try_catch
         (set_isTransferring true ;;;
          reset_batch ;;;
          show (ShowProgress true) ;;;
          show (UpdateTransferButton true) ;;;
          cookie <- read defaultCookie ;;
          (if cookie =? "" then throw (Error "请先在设置中配置Cookie") else ret tt) ;;;
          quarkService <- lift_res (onQuarkServiceNeeded cookie) ;;
          let totalLinks := List.length links in
          batch_loop quarkService totalLinks 0 links ;;;
          s <- read successCount ;;
          f <- read failCount ;;
          k <- read skipCount ;;
          show (ShowBatchResult s f k totalLinks) ;;;
          batch_summary)
         (fun error =>
            msg <- lift_res (message_of error) ;;
            show (ShowResult false msg) ;;;
            show (Notify "error" "批量转存失败" msg) ;;;
            show (LogError "批量转存过程出错:")))
      resetTransferState.

End Panel.

Arguments mkQuark {St} _ _.
Arguments qs_getFileInfo {St} _ _.
Arguments qs_store {St} _ _ _.
Arguments ds_checkDuplicate {St} _ _ _.
Arguments ds_insertFile {St} _ _ _ _ _.
Arguments mkDbService {St} _ _.
Arguments mkPanel {St} _ _ _ _ _ _ _ _ _.
Arguments env {St} p.
Arguments batchResults {St} p.
Arguments successCount {St} p.
Arguments failCount {St} p.
Arguments skipCount {St} p.
Arguments detectedLinks {St} p.
Arguments defaultCookie {St} p.
Arguments ui {St} p.

Definition entry_failed (e : batch_entry) : bool :=
  negb (entry_success e) && negb (entry_skipped e).


(** What a batch accumulates: the entries and the three counters. *)
Definition ledger : Type := (list batch_entry * (nat * nat * nat))%type.

Definition ledger_of {St} (p : panel St) : ledger :=
  (batchResults p, (successCount p, failCount p, skipCount p)).

(** One more entry, counted under its kind. *)
Definition record_entry (entry : batch_entry) (b : ledger) : ledger :=
  let '(results, (s, f, k)) := b in
  ((results ++ [entry])%list,
   match entry with
   | EntrySuccess _ _ => (S s, f, k)
   | EntryFailure _ _ => (s, S f, k)
   | EntrySkipped _ _ _ _ => (s, f, S k)
   end).

(** A computation that leaves the ledger alone and throws [Error] objects
    only. *)
Definition quiet {St A} (m : M (panel St) A) : Prop :=
  forall p r p',
    m p = (r, p') ->
    ledger_of p' = ledger_of p /\
    match r with
    | Ok _ => True
    | Throw e => e <> ThrownUndefined
    end.

(** A computation that records exactly one entry, for [link], when it
    returns, and none when it throws. *)
Definition pushing {St A} (link : string) (m : M (panel St) A) : Prop :=
  forall p r p',
    m p = (r, p') ->
    match r with
    | Ok _ => exists entry, entry_link entry = link /\
                            ledger_of p' = record_entry entry (ledger_of p)
    | Throw e => e <> ThrownUndefined /\ ledger_of p' = ledger_of p
    end.

(** A computation that records one entry for [link] exactly when it leaves
    the iteration. *)
Definition gating {St} (link : string) (m : M (panel St) (flow unit unit)) : Prop :=
  forall p r p',
    m p = (r, p') ->
    match r with
    | Ok (Return _) => exists entry, entry_link entry = link /\
                                     ledger_of p' = record_entry entry (ledger_of p)
    | Ok (Next _) => ledger_of p' = ledger_of p
    | Throw e => e <> ThrownUndefined /\ ledger_of p' = ledger_of p
    end.

(** What the services throw, when they throw, is an [Error] object. *)
Definition services_throw_errors {St} (quarkService : quark_service St)
  (dbService : db_service St) : Prop :=
  (forall link cb, throws_errors (qs_store quarkService link cb)) /\
  (forall fileName link, throws_errors (ds_checkDuplicate dbService fileName link)) /\
  (forall a b c d, throws_errors (ds_insertFile dbService a b c d)).





(** The entry the loop records for a transfer that resolved with [o]. *)
Definition entry_for (link : string) (o : outcome) : batch_entry :=
  if success o then
    match data o with
    | Some d => EntrySuccess link d
    | None => EntryFailure link "Cannot read properties of undefined (reading 'fileId')"
    end
  else EntryFailure link (message o).



End TransferPanel.


(* ===================================================================== *)
(** ** Fake upstreams and stores for the scenarios of the specification *)
(* ===================================================================== *)

Module Scenario.

Import QuarkWebService IndexedDBService.

(** A 2xx response whose body parses to [v]. *)
Definition json_response (v : json) : fetch_outcome :=
  Responded (mkResponse true 200 "OK" None (Parsed v)).

(** A response with a status outside 2xx. *)
Definition error_response (code : Z) (reason body_text : string) : fetch_outcome :=
  Responded (mkResponse false code reason (Some body_text)
               (ParseError "SyntaxError" "Unexpected token")).

Definition data_of (props : list (string * json)) : json :=
  JObj [("data", JObj props)].

(** An upstream that answers every call with 500. *)
Definition always_500 (c : api_call) (w : unit) : fetch_outcome * unit :=
  (error_response 500 "Internal Server Error" "upstream down", w).

(** An upstream that answers its first call with 503 and every later one
    with a token; its state counts the calls. *)
Definition once_503 (c : api_call) (calls : nat) : fetch_outcome * nat :=
  (if (calls =? 0)%nat then error_response 503 "Service Unavailable" "busy"
   else json_response (data_of [("stoken", JStr "tok1")]),
   S calls).

(** A task endpoint without a status for the polls 0 to 8 and with one for
    every later poll. *)
Definition slow_task (c : api_call) (w : unit) : fetch_outcome * unit :=
  (match c with
   | CallTask _ i =>
       if (i <? 9)%nat then json_response (data_of [])
       else json_response (data_of [("status", JNum 2)])
   | _ => Rejected "TypeError" "Failed to fetch"
   end, w).

(** A task endpoint that never reports a status. *)
Definition stuck_task (c : api_call) (w : unit) : fetch_outcome * unit :=
  (json_response (data_of [("status", JNum 0)]), w).

Definition movie : json :=
  JObj [("file_name", JStr "movie.mp4"); ("fid", JStr "f1");
        ("share_fid_token", JStr "sft1")].

(** The mocked upstream of the end-to-end scenario. *)
Definition mock_upstream (c : api_call) (w : unit) : fetch_outcome * unit :=
  (match c with
   | CallToken pwd_id =>
       if pwd_id =? "abc123" then json_response (data_of [("stoken", JStr "tok1")])
       else json_response (data_of [])
   | CallDetail pwd_id stoken =>
       if (pwd_id =? "abc123") && (stoken =? "tok1")
       then json_response (data_of [("list", JArr [movie])])
       else json_response (data_of [("list", JArr [])])
   | CallSave pwd_id stoken fid token to_pdir_fid =>
       if (pwd_id =? "abc123") && str_is stoken "tok1" && str_is fid "f1"
          && str_is token "sft1" && (to_pdir_fid =? "0")
       then json_response (data_of [("task_id", JStr "save-job")])
       else json_response (data_of [])
   | CallTask task_id _ =>
       if task_id =? "save-job" then
         json_response
           (data_of [("status", JNum 2);
                     ("save_as", JObj [("save_as_top_fids", JArr [JStr "newid1"])])])
       else if task_id =? "share-job" then
         json_response (data_of [("status", JNum 2); ("share_id", JStr "sh1")])
       else json_response (data_of [])
   | CallShare fid title =>
       if str_is fid "newid1" && str_is title "movie.mp4"
       then json_response (data_of [("task_id", JStr "share-job")])
       else json_response (data_of [])
   | CallSharePassword share_id =>
       if str_is share_id "sh1"
       then json_response (data_of [("share_url", JStr "https://pan.quark.cn/s/newlink")])
       else json_response (data_of [])
   end, w).

(** The upstream of the end-to-end scenario, by what it answers: the token
    [tok1] for the share [abc123], a listing with the one file, a save job
    that resolves with [newid1], a share job that resolves with [sh1], and
    the new link. *)
Definition serves_scenario {W} (fetch : api_call -> W -> fetch_outcome * W) : Prop :=
  exists (tokenBody listing : json) (entry : list (string * json))
         (saveBody saveResult shareBody shareResult linkBody : json) (k1 k2 : nat),
    answers fetch (CallToken "abc123") tokenBody /\
    get (get tokenBody "data") "stoken" = JStr "tok1" /\
    answers fetch (CallDetail "abc123" "tok1") listing /\
    get (get listing "data") "list" = JArr [JObj entry] /\
    assoc "file_name" entry = JStr "movie.mp4" /\
    assoc "fid" entry = JStr "f1" /\
    assoc "share_fid_token" entry = JStr "sft1" /\
    answers fetch (CallSave "abc123" (JStr "tok1") (JStr "f1") (JStr "sft1") "0")
      saveBody /\
    truthy (get (get saveBody "data") "task_id") = true /\
    resolves_at fetch (get (get saveBody "data") "task_id") default_maxTries k1
      saveResult /\
    get (get (get saveResult "data") "save_as") "save_as_top_fids"
    = JArr [JStr "newid1"] /\
    answers fetch (CallShare (JStr "newid1") (JStr "movie.mp4")) shareBody /\
    truthy (get (get shareBody "data") "task_id") = true /\
    resolves_at fetch (get (get shareBody "data") "task_id") default_maxTries k2
      shareResult /\
    get (get shareResult "data") "share_id" = JStr "sh1" /\
    answers fetch (CallSharePassword (JStr "sh1")) linkBody /\
    get (get linkBody "data") "share_url" = JStr "https://pan.quark.cn/s/newlink".

Definition no_text_gt_zero (s : string) : bool := false.

(** The services of the batch scenario: metadata is never found, no record
    is a duplicate, and the transfer of [linkB] throws. *)
Definition linkA : string := "https://pan.quark.cn/s/linkA".
Definition linkB : string := "https://pan.quark.cn/s/linkB".
Definition linkC : string := "https://pan.quark.cn/s/linkC".

Definition saved (link : string) : outcome :=
  mkOutcome true "文件转存成功: file"
    (Some (mkData (JStr "newid") (JStr "file") (JStr "video") (JStr link))).

Definition throwing_service : TransferPanel.quark_service unit :=
  TransferPanel.mkQuark
    (fun url => ret None)
    (fun link cb => if link =? linkB then throw (Error "boom") else ret (saved link)).

(** The same services when what the transfer of [linkB] throws is
    [undefined]. *)
Definition undefined_service : TransferPanel.quark_service unit :=
  TransferPanel.mkQuark
    (fun url => ret None)
    (fun link cb => if link =? linkB then throw ThrownUndefined else ret (saved link)).

Definition accepting_db : TransferPanel.db_service unit :=
  TransferPanel.mkDbService
    (fun fileName link => ret (mkVerdict false "none" false false))
    (fun _ _ _ _ => ret tt).

Definition three_links : TransferPanel.panel unit :=
  TransferPanel.mkPanel tt "cookie" [linkA; linkB; linkC] false [] 0 0 0 [].

(** The record of the duplicate-check scenario and a store that holds it,
    with the indexes of a version 2 database. *)
Definition one_record : file_record :=
  [("fileName", JStr "A.mp4"); ("shareLink", JStr "L1")].

Definition all_indexes : list string :=
  ["fileName"; "fileType"; "createTime"; "shareLink"; "shareUrl"; "originalUrl"].

Definition healthy_store : database :=
  mkDb None all_indexes [one_record] (fun _ => false).

(** The same store when the request on the [fileName] index ends in
    [onerror]. *)
Definition name_lookup_down : database :=
  mkDb None all_indexes [one_record]
    (fun q => match q with
              | IndexGet indexName _ => indexName =? "fileName"
              | GetAll => false
              end).


Definition start : net unit := mkNet tt [].

(** A progress callback that returns, and one that throws. *)
Definition quiet_callback : callback := fun _ _ _ => None.

End Scenario.

(* ===================================================================== *)
(** ** js/components/TransferPanel.js: the links of the batch input *)
(* ===================================================================== *)

Module BatchInput.

Import UrlUtils.

(** The class [[a-zA-Z0-9]]. *)
Definition is_alnum (c : ascii) : bool :=
  let n := N_of_ascii c in
  ((48 <=? n) && (n <=? 57) || (65 <=? n) && (n <=? 90)
   || (97 <=? n) && (n <=? 122))%N.

(** The greedy [[a-zA-Z0-9]*] at the head of [s]. *)
Fixpoint take_alnum (s : string) : string :=
  match s with
  | String c rest => if is_alnum c then String c (take_alnum rest) else ""
  | EmptyString => ""
  end.

Fixpoint all_alnum (s : string) : bool :=
  match s with
  | EmptyString => true
  | String c rest => is_alnum c && all_alnum rest
  end.

(** What [trim] removes, among the code units a [string] holds: tab, line
    feed, vertical tab, form feed, carriage return, space and U+00A0. *)
Definition is_space (c : ascii) : bool :=
  let n := N_of_ascii c in
  ((9 <=? n) && (n <=? 13) || (n =? 32) || (n =? 160))%N.

(** [text.trim() === '']. *)
Fixpoint blank (s : string) : bool :=
  match s with
  | EmptyString => true
  | String c rest => is_space c && blank rest
  end.

(** [/https:\/\/pan\.quark\.cn\/s\/[a-zA-Z0-9]+/] tried at the first
    position of [s]: the text it matches. *)
Definition link_here (s : string) : option string :=
  match strip_prefix share_prefix s with
  | Some rest =>
      match take_alnum rest with
      | EmptyString => None
      | id => Some (share_prefix ++ id)
      end
  | None => None
  end.

(** [text.match(regex)] with the [g] flag: every match from left to right,
    the search resuming where the last match ended. [skip] counts the
    characters of the last match still to pass. [[]] is JavaScript's
    [null]. *)
Fixpoint scan (skip : nat) (s : string) {struct s} : list string :=
  match s with
  | EmptyString => []
  | String _ rest =>
      match skip with
      | S k => scan k rest
      | O =>
          match link_here s with
          | Some m => m :: scan (String.length m - 1) rest
          | None => scan 0 rest
          end
      end
  end.

(** [set.add(x)] on the list of the elements of a [Set], in the order of
    their insertion. *)
Definition Set_add (x : string) (elements : list string) : list string :=
  if existsb (String.eqb x) elements then elements else elements ++ [x].

(** [[...new Set(matches)]]. *)
Definition spread_Set (matches : list string) : list string :=
  fold_left (fun elements x => Set_add x elements) matches [].

(** [extractQuarkLinks(text)]. *)
Definition extractQuarkLinks (text : string) : list string :=
  if (text =? "") || blank text then []
  else
    match scan 0 text with
    | [] => []
    | matches => spread_Set matches
    end.

End BatchInput.

(* ===================================================================== *)
(** ** js/services/QuarkWebService.js: the constructor and [buildUrl] *)
(* ===================================================================== *)

Module ServiceSetup.

(** [window.location], by the two properties the service reads. *)
Record location : Type := mkLocation {
  hostname : string;
  protocol : string
}.

(** [options] of the constructor; a property that is not given is
    [JUndefined]. *)
Record service_options : Type := mkOptions {
  opt_useProxy : json;
  opt_proxyUrl : json
}.

(** The fields the constructor sets, [logger] excepted. *)
Record service : Type := mkService {
  cookie : string;
  useProxy : json;
  proxyUrl : json;
  baseUrl : json;
  requestTimeout : Z;
  headers : list (string * string)
}.

Definition sec_ch_ua : string :=
  let dquote := TransferPanel.dquote in
  dquote ++ "Not_A Brand" ++ dquote ++ ";v=" ++ dquote ++ "8" ++ dquote ++ ", "
  ++ dquote ++ "Chromium" ++ dquote ++ ";v=" ++ dquote ++ "120" ++ dquote ++ ", "
  ++ dquote ++ "Google Chrome" ++ dquote ++ ";v=" ++ dquote ++ "120" ++ dquote.

Definition fixed_headers : list (string * string) :=
  [("sec-ch-ua", sec_ch_ua);
   ("accept", "application/json, text/plain, */*");
   ("content-type", "application/json");
   ("sec-ch-ua-mobile", "?0");
   ("user-agent",
    "Mozilla/5.0 (Windows NT 10.0; Win64; x64) AppleWebKit/537.36 (KHTML, like Gecko) Chrome/120.0.0.0 Safari/537.36");
   ("sec-ch-ua-platform", TransferPanel.dquote ++ "Windows" ++ TransferPanel.dquote);
   ("origin", "https://pan.quark.cn");
   ("sec-fetch-site", "same-site");
   ("sec-fetch-mode", "cors");
   ("sec-fetch-dest", "empty");
   ("referer", "https://pan.quark.cn/");
   ("accept-encoding", "gzip, deflate, br");
   ("accept-language", "zh-CN,zh;q=0.9")].

(** [object[key] = value] on the list of the own properties. *)
Fixpoint set_property (key value : string) (props : list (string * string))
  : list (string * string) :=
  match props with
  | [] => [(key, value)]
  | (k, v) :: rest =>
      if k =? key then (k, value) :: rest else (k, v) :: set_property key value rest
  end.

(** [object[key]]; [None] is [undefined]. *)
Fixpoint property (key : string) (props : list (string * string)) : option string :=
  match props with
  | [] => None
  | (k, v) :: rest => if k =? key then Some v else property key rest
  end.

Section Setup.

(** The page the service runs in: its address and [localStorage.getItem],
    where [None] is [null]. *)
Variable window_location : location.
Variable getItem : string -> option string.

Definition detectProxyMode : bool :=
  let isLocalhost :=
    existsb (String.eqb (hostname window_location)) ["localhost"; "127.0.0.1"]
    || (protocol window_location =? "file:") in
  let proxyEnabled :=
    match getItem "quark-gui-proxy-enabled" with
    | Some v => v =? "true"
    | None => false
    end in
  isLocalhost || proxyEnabled || negb isLocalhost.

Definition getDefaultProxyUrl : string :=
  let customProxyUrl := getItem "quark-gui-proxy-url" in
  let by_location :=
    let hostname := hostname window_location in
    let protocol := protocol window_location in
    if (hostname =? "localhost") || (hostname =? "127.0.0.1")
    then "http://localhost:8081"
    else if protocol =? "https:"
         then "http://" ++ hostname ++ ":8081"
         else "http://" ++ hostname ++ ":8081" in
  match customProxyUrl with
  | Some url => if negb (url =? "") then url else by_location
  | None => by_location
  end.

(** [new QuarkWebService(cookie, logger, options)]. *)
Definition construct (cookie : string) (options : service_options) : service :=
  let useProxy := or_else (opt_useProxy options) (JBool detectProxyMode) in
  let proxyUrl := or_else (opt_proxyUrl options) (JStr getDefaultProxyUrl) in
  let baseUrl := if truthy useProxy then proxyUrl else JStr "https://drive-pc.quark.cn" in
  mkService cookie useProxy proxyUrl baseUrl 30000%Z
    (if truthy useProxy
     then set_property "X-Quark-Cookie" cookie fixed_headers
     else set_property "cookie" cookie fixed_headers).

(** The line the constructor logs. *)
Definition construct_log (this : service) : string :=
  "QuarkWebService初始化 - 代理模式: "
  ++ (if truthy (useProxy this) then "启用" else "禁用").

End Setup.

(** [buildUrl(path)]: the template literal converts the base to text. *)
Definition buildUrl (this : service) (path : string) : res string :=
  if truthy (useProxy this)
  then map_res (fun base => base ++ path) (to_string (proxyUrl this))
  else map_res (fun base => base ++ path) (to_string (baseUrl this)).

(** [new QuarkWebService(cookie, logger)]: [options = {}]. *)
Definition no_options : service_options := mkOptions JUndefined JUndefined.

End ServiceSetup.

(* ===================================================================== *)
(** ** What a run of the service leaves in the trace *)
(* ===================================================================== *)

Module Timeline.

Import QuarkWebService.

(** The calls that went to [fetch], in order. *)
Definition calls (tr : list event) : list api_call :=
  flat_map (fun e => match e with
                     | EFetch c => [c]
                     | _ => []
                     end) tr.

(** The delays of the timers that were awaited, in order. *)
Definition sleeps (tr : list event) : list nat :=
  flat_map (fun e => match e with
                     | ESleep ms => [ms]
                     | _ => []
                     end) tr.

(** The fetches and the waits, in the order they were made. *)
Definition schedule (tr : list event) : list event :=
  filter (fun e => match e with
                   | EFetch _ | ESleep _ => true
                   | _ => false
                   end) tr.

(** The calls of the progress callback, in order. *)
Definition reports (tr : list event) : list (Z * string * Z) :=
  flat_map (fun e => match e with
                     | EProgress step msg pct => [(step, msg, pct)]
                     | _ => []
                     end) tr.

(** The computation [m], started in [st], ends with [r], in the upstream
    state [w'], after adding the events [evs] to the trace. *)
Definition yields {W A} (m : M (net W) A) (st : net W) (r : res A) (w' : W)
  (evs : list event) : Prop :=
  m st = (r, mkNet w' (trace st ++ evs)).

(** The upstream state after [n] fetches of the call [c]. *)
Fixpoint after_fetches {W} (fetch : api_call -> W -> fetch_outcome * W)
  (c : api_call) (n : nat) (w : W) : W :=
  match n with
  | O => w
  | S n' => after_fetches fetch c n' (snd (fetch c w))
  end.

(** The upstream fails the call [c] whatever its state: the [fetch] is
    rejected, or answered outside 2xx, or with a body that does not parse. *)
Definition fails {W} (fetch : api_call -> W -> fetch_outcome * W) (c : api_call) : Prop :=
  forall w, exists name msg, read_response (fst (fetch c w)) = Throw (ErrorObj name msg).

(** What a call of [progressCallback?.(step, message, percent)] that returns
    adds to the trace. *)
Definition reported (cb : option callback) (step : Z) (msg : string) (pct : Z)
  : list event :=
  match cb with
  | Some _ => [EProgress step msg pct]
  | None => []
  end.

(** The calls of the progress callback along a transfer that succeeds. *)
Definition store_steps : list (Z * string * Z) :=
  [(1%Z, "解析链接", 10%Z); (2%Z, "获取分享令牌", 20%Z); (3%Z, "获取文件详情", 40%Z);
   (4%Z, "执行转存任务", 60%Z); (5%Z, "生成分享链接", 80%Z); (5%Z, "转存完成", 100%Z)].

(** A computation that only adds to the trace, and no call of the progress
    callback. *)
Definition unreported {W A} (m : M (net W) A) : Prop :=
  forall st r st',
    m st = (r, st') ->
    exists evs, trace st' = (trace st ++ evs)%list /\ reports evs = [].

(** A computation that calls the progress callback with [todo], in this
    order, when it returns, and with the first of them when it throws: with
    all of them only when what it throws is the [TypeError] of a value that
    does not convert to text. *)
Definition reporting {W A} (todo : list (Z * string * Z)) (m : M (net W) A) : Prop :=
  forall st r st',
    m st = (r, st') ->
    exists evs,
      trace st' = (trace st ++ evs)%list /\
      match r with
      | Ok _ => reports evs = todo
      | Throw e =>
          e <> ThrownUndefined /\
          exists rest, todo = (reports evs ++ rest)%list /\
                       (rest = [] -> e = not_primitive)
      end.

(** Whatever the state it starts in, the computation [m] ends with [r]
    after exactly the fetches [cs], the waits [ws] and the progress reports
    [rs]. *)
Definition costs {W A} (m : M (net W) A) (r : res A) (cs : list api_call)
  (ws : list nat) (rs : list (Z * string * Z)) : Prop :=
  forall st, exists w' evs,
    yields m st r w' evs /\ calls evs = cs /\ sleeps evs = ws /\ reports evs = rs.

(** The upstream serves the transfer of the share [pwdId]: it gives the
    token [stoken], a listing whose first entry is the object [entry], the
    save job [saveTask], which resolves at the poll [k1] with the new file
    [fileId] first among its top files, the share job [shareTask], which
    resolves at the poll [k2] with [shareId], and the link [shareLink]. *)
Definition serves_transfer {W} (fetch : api_call -> W -> fetch_outcome * W)
  (pwdId : string) (stoken : json) (entry : list (string * json)) (saveTask : json)
  (k1 : nat) (fileId shareTask : json) (k2 : nat) (shareId shareLink : json) : Prop :=
  exists (tokenBody listing : json) (others : list json)
         (saveBody saveResult : json) (more : list json)
         (shareBody shareResult linkBody : json),
    answers fetch (CallToken pwdId) tokenBody /\
    get (get tokenBody "data") "stoken" = stoken /\
    truthy stoken = true /\
    (exists params_stoken,
        to_string stoken = Ok params_stoken /\
        answers fetch (CallDetail pwdId params_stoken) listing) /\
    get (get listing "data") "list" = JArr (JObj entry :: others) /\
    answers fetch
      (CallSave pwdId stoken (assoc "fid" entry) (assoc "share_fid_token" entry) "0")
      saveBody /\
    get (get saveBody "data") "task_id" = saveTask /\
    truthy saveTask = true /\
    resolves_at fetch saveTask default_maxTries k1 saveResult /\
    get (get (get saveResult "data") "save_as") "save_as_top_fids"
    = JArr (fileId :: more) /\
    answers fetch (CallShare fileId (assoc "file_name" entry)) shareBody /\
    get (get shareBody "data") "task_id" = shareTask /\
    truthy shareTask = true /\
    resolves_at fetch shareTask default_maxTries k2 shareResult /\
    get (get shareResult "data") "share_id" = shareId /\
    truthy shareId = true /\
    answers fetch (CallSharePassword shareId) linkBody /\
    get (get linkBody "data") "share_url" = shareLink /\
    truthy shareLink = true.

(** The messages of the errors that the [try] block of [store] throws
    itself, in the order of its steps. *)
Definition store_failures : list string :=
  ["无法从链接中提取文件ID"; "获取分享令牌失败"; "获取文件详情失败";
   "获取保存任务ID失败"; "执行保存任务失败"; "创建分享任务失败";
   "执行分享任务失败"; "获取分享链接失败"].

(** The message of a transfer that fails on a file name that does not
    convert to text. *)
Definition unwritable_name : string :=
  "转存失败: Cannot convert object to primitive value".

(** What the computation throws, if it throws, is [new Error(msg)] for one
    of the given messages, or the [TypeError] of a value that does not
    convert to text. *)
Definition raises {W A} (msgs : list string) (m : M (net W) A) : Prop :=
  forall st e st',
    m st = (Throw e, st') ->
    (exists msg, e = Error msg /\ In msg msgs) \/ e = not_primitive.

(** No 2xx answer to the token call for [pwdId] carries a token. *)
Definition token_refused {W} (fetch : api_call -> W -> fetch_outcome * W)
  (pwdId : string) : Prop :=
  forall w r v,
    fst (fetch (CallToken pwdId) w) = Responded r -> ok r = true ->
    body r = Parsed v ->
    truthy (get (get v "data") "stoken") = false.

End Timeline.

(* ===================================================================== *)
(** ** js/services/IndexedDBService.js: the methods that write *)
(* ===================================================================== *)

Module RecordStore.

Import IndexedDBService.

(** A value the database accepts as a key: a number, a string, or an array
    of keys. *)
Fixpoint valid_key (v : json) : bool :=
  match v with
  | JNum _ | JStr _ => true
  | JArr items => forallb valid_key items
  | _ => false
  end.

(** Two keys are equal. *)
Fixpoint same_key (a b : json) {struct a} : bool :=
  match a, b with
  | JNum m, JNum n => (m =? n)%Z
  | JStr s, JStr t => s =? t
  | JArr xs, JArr ys =>
      (fix all (xs ys : list json) {struct xs} : bool :=
         match xs, ys with
         | [], [] => true
         | x :: xs', y :: ys' => same_key x y && all xs' ys'
         | _, _ => false
         end) xs ys
  | _, _ => false
  end.

(** The requests of the methods that write, and of the reads that the
    duplicate check does not make. *)
Inductive store_request : Type :=
| Add (record : file_record)
| IndexGetKey (indexName : string) (key : json)
| OpenCursor (indexName key : string)
| Delete (key : json)
| Clear
| Count.

(** The object store ['files'] with what writing needs: the current number
    of its key generator, and which of these requests end in [onerror]. A
    request that fails aborts its transaction and leaves the store as it
    was. *)
Record object_store : Type := mkStore {
  db : database;
  keyGenerator : Z;
  fails : store_request -> bool
}.

Definition with_files (s : object_store) (records : list file_record) : object_store :=
  mkStore
    (mkDb (transaction_error (db s)) (indexNames (db s)) records (request_fails (db s)))
    (keyGenerator s) (fails s).

Definition not_found : thrown :=
  ErrorObj "NotFoundError" "The specified index was not found.".

Definition data_error : thrown :=
  ErrorObj "DataError" "The parameter is not a valid key.".

(** The executor of a promise that begins with [this.db.transaction(...)]:
    what it throws rejects the promise. *)
Definition transaction {A} (body : M object_store A) : M object_store A :=
  fun s =>
    match transaction_error (db s) with
    | Some e => (Throw e, s)
    | None => body s
    end.

(** [store.add(record)] for a record without [id]: the key generator gives
    the key, which is stored under [id] and is the result of the request. *)
Definition add (record : file_record) (message : string) : M object_store json :=
  fun s =>
    if fails s (Add record) then (Throw (Error message), s)
    else
      let key := keyGenerator s in
      (Ok (JNum key),
       mkStore
         (mkDb (transaction_error (db s)) (indexNames (db s))
            (files (db s) ++ [(record ++ [("id", JNum key)])%list])
            (request_fails (db s)))
         (key + 1)%Z (fails s)).

Section Clock.

(** [new Date().toISOString()]: the readings of the clock during one call,
    in the order the call makes them. *)
Variable now : nat -> string.

Definition insertFile (fileId fileName fileType shareLink : json) : M object_store json :=
  transaction
    (add [("fileId", fileId); ("fileName", fileName); ("fileType", fileType);
          ("shareLink", shareLink);
          ("createTime", JStr (now 0)); ("updateTime", JStr (now 1))]
       "插入文件记录失败").

Definition addFile (fileData : json) : M object_store json :=
  transaction
    (fileId <- lift_res (member fileData "fileId") ;;
     let link := or_else (or_else (get fileData "shareUrl") (get fileData "shareLink"))
                   (JStr "") in
     let transferTime := get fileData "transferTime" in
     let read := if truthy transferTime then 0 else 1 in
     add [("fileId", or_else fileId (JStr ""));
          ("fileName", or_else (get fileData "fileName") (JStr ""));
          ("fileType", or_else (get fileData "fileType") (JStr "unknown"));
          ("shareLink", link);
          ("shareUrl", link);
          ("originalUrl", or_else (get fileData "originalUrl") (JStr ""));
          ("transferTime", if truthy transferTime then transferTime else JStr (now 0));
          ("source", or_else (get fileData "source") (JStr "unknown"));
          ("status", or_else (get fileData "status") (JStr "completed"));
          ("createTime", JStr (now read));
          ("updateTime", JStr (now (S read)))]
       "添加文件记录失败").

Definition deleteFile (id : json) : M object_store unit :=
  transaction
    (fun s =>
       if valid_key id then
         if fails s (Delete id) then (Throw (Error "删除文件记录失败"), s)
         else (Ok tt,
               with_files s
                 (filter (fun record => negb (same_key id (assoc "id" record)))
                    (files (db s))))
       else (Throw data_error, s)).

(** [deleteFileByName(fileName)]: the cursor over the [fileName] index
    deletes every record under this name. *)
Definition deleteFileByName (fileName : string) : M object_store unit :=
  transaction
    (fun s =>
       if contains (indexNames (db s)) "fileName" then
         if fails s (OpenCursor "fileName" fileName)
         then (Throw (Error "删除文件记录失败"), s)
         else (Ok tt,
               with_files s
                 (filter (fun record => negb (field_is "fileName" fileName record))
                    (files (db s))))
       else (Throw not_found, s)).

(** [getAllFiles()], without options: no sorting and no paging. *)
Definition getAllFiles : M object_store (list file_record) :=
  transaction
    (fun s =>
       if request_fails (db s) GetAll then (Throw (Error "获取文件列表失败"), s)
       else (Ok (files (db s)), s)).

Definition getFileCount : M object_store nat :=
  transaction
    (fun s =>
       if fails s Count then (Throw (Error "获取文件数量失败"), s)
       else (Ok (List.length (files (db s))), s)).

Definition clearAllData : M object_store unit :=
  transaction
    (fun s =>
       if fails s Clear then (Throw (Error "清空数据失败"), s)
       else (Ok tt, with_files s [])).

(** [exportData()], for a service of the given [version]. *)
Definition exportData (version : Z) : M object_store json :=
  records <- getAllFiles ;;
  ret (JObj [("version", JNum version); ("exportTime", JStr (now 0));
             ("data", JArr (map JObj records))]).

End Clock.

(** [fileExists(fileName)] for whatever [fileData.fileName] is. *)
Definition fileExistsKey (fileName : json) : M object_store bool :=
  fun s =>
    (match fileName with
     | JStr name => fileExists (db s) name
     | _ =>
         match transaction_error (db s) with
         | Some e => Throw e
         | None =>
             if contains (indexNames (db s)) "fileName" then
               if valid_key fileName then
                 if fails s (IndexGetKey "fileName" fileName)
                 then Throw (Error "检查文件存在性失败")
                 else Ok (existsb (fun record => same_key fileName (assoc "fileName" record))
                            (files (db s)))
               else Throw data_error
             else Throw not_found
         end
     end, s).

Definition is_array (v : json) : bool :=
  match v with
  | JArr _ => true
  | _ => false
  end.

Definition elements (v : json) : list json :=
  match v with
  | JArr items => items
  | _ => []
  end.

(** [for (const fileData of importData.data)]. Every [insertFile] is a call
    of its own, at a time of its own: [clock i] gives the readings of the
    clock during the call for the element number [i]. *)
Fixpoint import_loop (clock : nat -> nat -> string) (data : list json)
  (i importCount : nat) : M object_store nat :=
  match data with
  | [] => ret importCount
  | fileData :: rest =>
      count <- try_catch
                 (fileName <- lift_res (member fileData "fileName") ;;
                  exists_ <- fileExistsKey fileName ;;
                  if negb exists_ then
                    insertFile (clock i) (get fileData "fileId") fileName
                      (get fileData "fileType") (get fileData "shareLink") ;;;
                    ret (S importCount)
                  else ret importCount)
                 (fun _ => ret importCount) ;;
      import_loop clock rest (S i) count
  end.

Definition importData (clock : nat -> nat -> string) (importData : json)
  : M object_store nat :=
  data <- lift_res (member importData "data") ;;
  if negb (truthy data) || negb (is_array data)
  then throw (Error "导入数据格式错误")
  else import_loop clock (elements data) 0 0.

(** [request.onupgradeneeded] of [init]: the indexes of the object store
    after the upgrade from [oldVersion]. [existing] is the list of the
    indexes of the store ['files'] when the database has one. *)
Definition onupgradeneeded (oldVersion : Z) (existing : option (list string))
  : list string :=
  let created :=
    match existing with
    | Some names => names
    | None => ["fileName"; "fileType"; "createTime"]
    end in
  if (oldVersion <? 2)%Z then
    fold_left (fun names indexName =>
                 if negb (contains names indexName) then (names ++ [indexName])%list
                 else names)
      ["shareLink"; "shareUrl"; "originalUrl"] created
  else created.

(** A record is found under one of the three link fields. *)
Definition carries (shareLink : string) (record : file_record) : bool :=
  field_is "shareLink" shareLink record
  || field_is "shareUrl" shareLink record
  || field_is "originalUrl" shareLink record.

(** Every request succeeds, and the [fileName] index is there. *)
Definition healthy (s : object_store) : Prop :=
  transaction_error (db s) = None /\
  contains (indexNames (db s)) "fileName" = true /\
  (forall q, request_fails (db s) q = false) /\
  (forall q, fails s q = false).

(** Some record is stored under the key [fileName] in the [fileName] index. *)
Definition named (fileName : json) (records : list file_record) : bool :=
  existsb (fun record => same_key fileName (assoc "fileName" record)) records.

(** Every name of [data] that can be a key is in the store. *)
Definition all_named (data : list json) (s : object_store) : Prop :=
  forall fileData fileName,
    In fileData data -> member fileData "fileName" = Ok fileName ->
    valid_key fileName = true -> named fileName (files (db s)) = true.

(** The names of the own properties of a record that [insertFile] wrote. *)
Definition inserted_fields : list string :=
  ["fileId"; "fileName"; "fileType"; "shareLink"; "createTime"; "updateTime"; "id"].

End RecordStore.

(* ===================================================================== *)
(** ** js/components/TransferPanel.js: what a batch shows *)
(* ===================================================================== *)

Module PanelView.

Import QuarkWebService IndexedDBService TransferPanel.

(** The pauses between two links, in order. *)
Definition pauses (shown : list ui_event) : list nat :=
  flat_map (fun e => match e with
                     | Pause ms => [ms]
                     | _ => []
                     end) shown.

(** The metadata of [link] is found, with a file name that converts to
    text, and the index knows the file, whatever the state. *)
Definition known_duplicate {St} (quarkService : quark_service St)
  (dbService : db_service St) (link : string) : Prop :=
  forall e, exists info e1 name v e2,
    qs_getFileInfo quarkService link e = (Ok (Some info), e1) /\
    truthy (info_fileName info) = true /\
    to_string (info_fileName info) = Ok name /\
    ds_checkDuplicate dbService (info_fileName info) link e1 = (Ok v, e2) /\
    exists_ v = true.

End PanelView.

(* ===================================================================== *)
(** ** More fake services *)
(* ===================================================================== *)

Module Fixtures.

Import QuarkWebService IndexedDBService TransferPanel.

Definition named_info : file_info :=
  mkInfo (JStr "a.mp4") (JStr "video") (JNum 0) (JStr "f1") (JStr "t1").

(** A service that finds the metadata of every link; its [store] throws. *)
Definition refusing_service : quark_service unit :=
  mkQuark (fun url => ret (Some named_info)) (fun link cb => throw (Error "boom")).

(** The same metadata; its [store] succeeds. *)
Definition saving_service : quark_service unit :=
  mkQuark (fun url => ret (Some named_info)) (fun link cb => ret (Scenario.saved link)).

(** An index that knows every link. *)
Definition knowing_db : db_service unit :=
  mkDbService
    (fun fileName link => ret (mkVerdict true "link" false true))
    (fun _ _ _ _ => ret tt).

(** The same index; its [insertFile] throws. *)
Definition readonly_db : db_service unit :=
  mkDbService
    (fun fileName link => ret (mkVerdict true "link" false true))
    (fun _ _ _ _ => throw (Error "插入文件记录失败")).

(** A value that no template literal can print: the JSON text
    [{"toString": 1}]. *)
Definition unwritable : json := JObj [("toString", JNum 1)].

(** The upstream of the end-to-end scenario when the listing gives the file
    this name. *)
Definition unwritable_upstream (c : api_call) (w : unit) : fetch_outcome * unit :=
  match c with
  | CallDetail _ _ =>
      (Scenario.json_response
         (Scenario.data_of
            [("list", JArr [JObj [("file_name", unwritable); ("fid", JStr "f1");
                                  ("share_fid_token", JStr "sft1")]])]), w)
  | CallShare _ _ =>
      (Scenario.json_response (Scenario.data_of [("task_id", JStr "share-job")]), w)
  | _ => Scenario.mock_upstream c w
  end.

End Fixtures.
(* ===================================================================== *)
(** * Properties *)
(* ===================================================================== *)

(** ** LinkParser: [getIdFromUrl] and [isValidQuarkUrl] *)

Module UrlFacts.

Import UrlUtils.

Lemma strip_prefix_app (p rest : string) : strip_prefix p (p ++ rest) = Some rest.
Proof.
  induction p as [|a p IH]; simpl; [reflexivity|].
  rewrite Ascii.eqb_refl. exact IH.
Qed.

Lemma strip_prefix_inv (p s rest : string) :
  strip_prefix p s = Some rest -> s = p ++ rest.
Proof.
  revert s. induction p as [|a p IH]; simpl; intros s H.
  - congruence.
  - destruct s as [|b s]; [discriminate|].
    destruct (Ascii.eqb a b) eqn:E; [|discriminate].
    apply Ascii.eqb_eq in E. subst b. f_equal. auto.
Qed.

Lemma take_word_all_word (id : string) : all_word id = true -> take_word id = id.
Proof.
  induction id as [|c id IH]; simpl; [reflexivity|].
  intros H. apply andb_true_iff in H as [Hc Hid].
  rewrite Hc, IH by assumption. reflexivity.
Qed.



Lemma match_here_app (rest : string) :
  match_here ("/s/" ++ rest) =
  match take_word rest with EmptyString => None | w => Some w end.
Proof. unfold match_here. rewrite strip_prefix_app. reflexivity. Qed.




Lemma match_pattern_skip (c : ascii) (s : string) :
  match_here (String c s) = None -> match_pattern (String c s) = match_pattern s.
Proof. intros H. cbn [match_pattern]. rewrite H. reflexivity. Qed.

Lemma match_pattern_hit (s w : string) :
  match_here s = Some w -> match_pattern s = Some w.
Proof. intros H. destruct s; cbn [match_pattern]; rewrite H; reflexivity. Qed.

(** After the canonical scheme and host, the identifier is the run of word
    characters that follows [/s/]: no earlier position of the prefix
    matches. *)
Lemma getIdFromUrl_share_prefix (rest : string) :
  take_word rest <> "" -> getIdFromUrl (share_prefix ++ rest) = take_word rest.
Proof.
  intros N. unfold getIdFromUrl, share_prefix. cbn [append].
  repeat (rewrite match_pattern_skip by reflexivity).
  rewrite (match_pattern_hit _ (take_word rest)).
  - apply String.eqb_neq in N. rewrite N. reflexivity.
  - change (match_here ("/s/" ++ rest) = Some (take_word rest)).
    rewrite match_here_app. destruct (take_word rest); congruence.
Qed.

Lemma isValidQuarkUrl_inv (url : string) :
  isValidQuarkUrl url = true ->
  exists c rest, url = share_prefix ++ String c rest /\ is_word_char c = true.
Proof.
  unfold isValidQuarkUrl.
  destruct (strip_prefix share_prefix url) as [[|c rest]|] eqn:E; try discriminate.
  intros Hc. apply strip_prefix_inv in E. eauto.
Qed.

Example getIdFromUrl_abc123 : getIdFromUrl "https://pan.quark.cn/s/abc123" = "abc123".
Proof. reflexivity. Qed.

Example getIdFromUrl_query :
  getIdFromUrl "https://pan.quark.cn/s/abc123?pwd=1#/list" = "abc123".
Proof. reflexivity. Qed.

Example getIdFromUrl_no_segment : getIdFromUrl "https://pan.quark.cn/" = "".
Proof. reflexivity. Qed.




(** C8: whenever [isValidQuarkUrl] accepts a string, [getIdFromUrl] returns
    a non-empty identifier for it, namely the run of word characters after
    the canonical prefix. *)
Theorem isValidQuarkUrl_getIdFromUrl (url : string) :
  isValidQuarkUrl url = true ->
  getIdFromUrl url <> "" /\
  exists rest, url = share_prefix ++ rest /\ getIdFromUrl url = take_word rest.
Proof.
  intros H. apply isValidQuarkUrl_inv in H as (c & rest & -> & Hc).
  assert (N : take_word (String c rest) <> "") by (simpl; rewrite Hc; discriminate).
  rewrite getIdFromUrl_share_prefix by exact N. split; [exact N|].
  exists (String c rest). split; reflexivity.
Qed.

Lemma isValidQuarkUrl_getIdFromUrl_witness :
  isValidQuarkUrl "https://pan.quark.cn/s/abc123" = true /\
  getIdFromUrl "https://pan.quark.cn/s/abc123" <> "".
Proof.
  split; [reflexivity |].
  exact (proj1 (isValidQuarkUrl_getIdFromUrl "https://pan.quark.cn/s/abc123" eq_refl)).
Defined.

End UrlFacts.

(** ** Running asynchronous code *)

Module AsyncFacts.

(** ToString throws nothing but the [TypeError] of ToPrimitive. *)
Lemma to_string_throws :
  forall (v : json) (e : thrown), to_string v = Throw e -> e = not_primitive.
Proof.
  fix IH 1. intros [| |b|n|s|items|props] e; cbn [to_string]; try discriminate.
  - destruct b; discriminate.
  - match goal with
    | |- map_res _ (?each items) = _ -> _ =>
        assert (H : forall e', each items = Throw e' -> e' = not_primitive)
    end.
    { induction items as [|x rest IHrest]; intros e'; [discriminate|].
      assert (Hx : forall e0,
                 match x with
                 | JUndefined | JNull => Ok ""
                 | _ => to_string x
                 end = Throw e0 -> e0 = not_primitive).
      { intros e0 Hx. apply (IH x). destruct x; try discriminate; exact Hx. }
      destruct (match x with
                | JUndefined | JNull => Ok ""
                | _ => to_string x
                end) as [t|e0].
      - destruct (_ rest) as [l|e1]; cbn [map_res]; [discriminate|].
        intros E. injection E as <-. apply IHrest. reflexivity.
      - intros E. injection E as <-. apply Hx. reflexivity. }
    destruct (_ items) as [l|e0]; cbn [map_res]; [discriminate|].
    intros E. injection E as <-. apply H. reflexivity.
  - destruct (has_own "toString" props); [|discriminate].
    intros E. injection E as <-. reflexivity.
Qed.

Lemma gt_zero_throws (text_gt_zero : string -> bool) (v : json) (e : thrown) :
  gt_zero text_gt_zero v = Throw e -> e = not_primitive.
Proof.
  destruct v; cbn [gt_zero]; try discriminate;
    destruct (to_string _) as [t|e0] eqn:T; cbn [map_res]; try discriminate;
    intros E; injection E as <-; exact (to_string_throws _ _ T).
Qed.

(** A string, a number, a boolean, [null] and [undefined] convert to text. *)
Example to_string_exponent : to_string (JNum (10 ^ 21)) = Ok "1e+21".
Proof. vm_compute. reflexivity. Qed.

Example to_string_rounded : to_string (JNum (2 ^ 60)) = Ok "1152921504606847000".
Proof. vm_compute. reflexivity. Qed.

Example to_string_array :
  to_string (JArr [JNum 1; JNull; JStr "a"; JArr [JNum 2; JBool true]; JObj []])
  = Ok "1,,a,2,true,[object Object]".
Proof. vm_compute. reflexivity. Qed.

Example to_string_hidden :
  to_string (JArr [JObj [("toString", JNum 1)]]) = Throw not_primitive.
Proof. vm_compute. reflexivity. Qed.

Lemma to_string_str (s : string) : to_string (JStr s) = Ok s.
Proof. reflexivity. Qed.

Section Run.

Context {St A B : Type}.

Lemma bind_ok (m : M St A) (k : A -> M St B) (st st' : St) (a : A) :
  m st = (Ok a, st') -> bind m k st = k a st'.
Proof. unfold bind. intros ->. reflexivity. Qed.

Lemma bind_throw (m : M St A) (k : A -> M St B) (st st' : St) (e : thrown) :
  m st = (Throw e, st') -> bind m k st = (Throw e, st').
Proof. unfold bind. intros ->. reflexivity. Qed.

Lemma try_catch_ok (m : M St A) (h : thrown -> M St A) (st st' : St) (a : A) :
  m st = (Ok a, st') -> try_catch m h st = (Ok a, st').
Proof. unfold try_catch. intros ->. reflexivity. Qed.


Lemma bind_inv (m : M St A) (k : A -> M St B) (st st'' : St) (r : res B) :
  bind m k st = (r, st'') ->
  (exists a st', m st = (Ok a, st') /\ k a st' = (r, st'')) \/
  (exists e, m st = (Throw e, st'') /\ r = Throw e).
Proof.
  unfold bind. destruct (m st) as [[a|e] st'].
  - intros H. left. eauto.
  - intros H. injection H as <- <-. right. eauto.
Qed.

End Run.

Section Safety.

Context {St : Type}.

Lemma total_throws_errors {A} (m : M St A) : total m -> throws_errors m.
Proof.
  intros T st e st' H. destruct (T st) as (a & st1 & E). congruence.
Qed.

Lemma total_ret {A} (a : A) : total (@ret St A a).
Proof. intros st. exists a, st. reflexivity. Qed.

Lemma total_bind {A B} (m : M St A) (k : A -> M St B) :
  total m -> (forall a, total (k a)) -> total (bind m k).
Proof.
  intros Tm Tk st. destruct (Tm st) as (a & st1 & E).
  rewrite (bind_ok _ _ _ _ _ E). apply Tk.
Qed.

Lemma throws_errors_ret {A} (a : A) : throws_errors (@ret St A a).
Proof. intros st e st' H. discriminate. Qed.

Lemma throws_errors_throw {A} (name msg : string) :
  throws_errors (@throw St A (ErrorObj name msg)).
Proof. intros st e st' H. injection H as <- _. discriminate. Qed.

Lemma throws_errors_bind {A B} (m : M St A) (k : A -> M St B) :
  throws_errors m -> (forall a, throws_errors (k a)) -> throws_errors (bind m k).
Proof.
  intros Sm Sk st e st' H. apply bind_inv in H as [(a & st1 & E1 & E2)|(e' & E1 & E2)].
  - exact (Sk a _ _ _ E2).
  - injection E2 as ->. exact (Sm _ _ _ E1).
Qed.

Lemma throws_errors_try_catch {A} (m : M St A) (h : thrown -> M St A) :
  (forall e, throws_errors (h e)) -> throws_errors (try_catch m h).
Proof.
  intros Sh st e st' H. unfold try_catch in H.
  destruct (m st) as [[a|e0] st1]; [discriminate|]. exact (Sh _ _ _ _ H).
Qed.

(** A [try] whose body throws [Error] objects only, with a [catch] that
    copes with every [Error] object, always returns. *)
Lemma total_try_catch {A} (m : M St A) (h : thrown -> M St A) :
  throws_errors m -> (forall name msg, total (h (ErrorObj name msg))) ->
  total (try_catch m h).
Proof.
  intros Sm Th st. unfold try_catch. destruct (m st) as [[a|e] st1] eqn:E.
  - eauto.
  - destruct e as [name msg|].
    + apply Th.
    + exfalso. exact (Sm _ _ _ E eq_refl).
Qed.

End Safety.

End AsyncFacts.

(** ** TransferProtocolClient: the transport helper [request] *)

Module RequestFacts.

Import QuarkWebService Timeline AsyncFacts.

Lemma fetches_app (tr1 tr2 : list event) :
  fetches (tr1 ++ tr2) = fetches tr1 + fetches tr2.
Proof. unfold fetches. rewrite filter_app, length_app. reflexivity. Qed.


Lemma read_response_throws (o : fetch_outcome) (e : thrown) :
  read_response o = Throw e -> exists name msg, e = ErrorObj name msg.
Proof.
  destruct o as [name msg|r]; simpl.
  - intros H. injection H as <-. eauto.
  - destruct (ok r); simpl.
    + destruct (body r); [discriminate|]. intros H. injection H as <-. eauto.
    + intros H. injection H as <-. unfold Error. eauto.
Qed.

Lemma read_response_ok (o : fetch_outcome) (v : json) :
  read_response o = Ok v ->
  exists r, o = Responded r /\ ok r = true /\ body r = Parsed v.
Proof.
  destruct o as [name msg|r]; simpl; [discriminate|].
  destruct (ok r) eqn:Hok; simpl; [|discriminate].
  destruct (body r) eqn:Hb; [|discriminate].
  intros H. injection H as <-. eauto.
Qed.

Section Transport.

Variable W : Type.
Variable fetch : api_call -> W -> fetch_outcome * W.

Local Abbreviation net := (net W).
Local Abbreviation attempt_once := (attempt_once W fetch).
Local Abbreviation on_attempt_error := (on_attempt_error W).
Local Abbreviation request_loop := (request_loop W fetch).
Local Abbreviation request := (request W fetch).

(** The state after one [fetch] of [c]. *)
Lemma attempt_once_run (c : api_call) (st : net) :
  attempt_once c st =
  (read_response (fst (fetch c (world st))),
   mkNet (snd (fetch c (world st))) (trace st ++ [EFetch c])).
Proof.
  unfold QuarkWebService.attempt_once, bind, do_fetch, lift_res.
  destruct (fetch c (world st)) as [o w']. reflexivity.
Qed.

(** The [catch] of [request] only logs and waits: for the back-off when an
    attempt is left, not at all after the last one. *)
Lemma on_attempt_error_run (retries attempt : nat) (name msg : string) (st : net) :
  exists evs,
    on_attempt_error retries attempt (ErrorObj name msg) st
    = (Ok tt, mkNet (world st) (trace st ++ evs)) /\
    fetches evs = 0 /\
    schedule evs = if (attempt <? retries)%nat then [ESleep (backoff attempt)] else [].
Proof.
  unfold QuarkWebService.on_attempt_error, bind, log, sleep, emit, ret.
  destruct (name =? "AbortError");
    [| destruct (includes msg "ECONNRESET" || includes msg "network")];
    destruct (attempt <? retries)%nat; cbn [world trace];
    rewrite <- ?app_assoc; eexists; (split; [reflexivity|split; reflexivity]).
Qed.

(** One turn of the loop of [request]. *)
Lemma request_loop_step (c : api_call) (retries attempt left : nat)
  (lastError : thrown) (st : net) :
  request_loop c retries attempt (S left) lastError st =
  let st1 := mkNet (snd (fetch c (world st))) (trace st ++ [EFetch c]) in
  match read_response (fst (fetch c (world st))) with
  | Ok v => (Ok v, st1)
  | Throw e =>
      match on_attempt_error retries attempt e st1 with
      | (Ok _, st2) => request_loop c retries (S attempt) left e st2
      | (Throw e', st2) => (Throw e', st2)
      end
  end.
Proof.
  cbn [QuarkWebService.request_loop]. unfold bind at 1. unfold try_catch.
  unfold bind at 1. rewrite attempt_once_run.
  destruct (read_response (fst (fetch c (world st)))) as [v|e]; [reflexivity|].
  unfold bind at 1.
  destruct (QuarkWebService.on_attempt_error W retries attempt e _) as [[[]|e'] st2];
    reflexivity.
Qed.

(** [request] throws [undefined] only when its loop does not run. *)
Lemma request_loop_throws (c : api_call) (retries : nat) :
  forall left attempt lastError (st st' : net) e,
    lastError <> ThrownUndefined ->
    request_loop c retries attempt left lastError st = (Throw e, st') ->
    e <> ThrownUndefined.
Proof.
  induction left as [|left IH]; intros attempt lastError st st' e Hlast H.
  - cbn in H. injection H as <- _. exact Hlast.
  - rewrite request_loop_step in H. cbv zeta in H.
    destruct (read_response _) as [v|e0] eqn:R; [discriminate|].
    apply read_response_throws in R as (name & msg & ->).
    destruct (on_attempt_error_run retries attempt name msg
                (mkNet (snd (fetch c (world st))) (trace st ++ [EFetch c])))
      as (evs & E & _).
    rewrite E in H. eapply IH; [|exact H]. discriminate.
Qed.

Lemma request_throws_errors (c : api_call) (retries : nat) :
  throws_errors (request c (S retries)).
Proof.
  intros st e st' H. unfold QuarkWebService.request in H.
  rewrite request_loop_step in H. cbv zeta in H.
  destruct (read_response _) as [v|e0] eqn:R; [discriminate|].
  apply read_response_throws in R as (name & msg & ->).
  destruct (on_attempt_error_run (S retries) 1 name msg
              (mkNet (snd (fetch c (world st))) (trace st ++ [EFetch c])))
    as (evs & E & _).
  rewrite E in H. eapply request_loop_throws; [|exact H]. discriminate.
Qed.

(** What [request] returns was the body of a 2xx response to this call. *)
Lemma request_loop_ok (c : api_call) (retries : nat) :
  forall left attempt lastError (st st' : net) v,
    request_loop c retries attempt left lastError st = (Ok v, st') ->
    exists w r, fst (fetch c w) = Responded r /\ ok r = true /\ body r = Parsed v.
Proof.
  induction left as [|left IH]; intros attempt lastError st st' v H.
  - cbn in H. discriminate.
  - rewrite request_loop_step in H. cbv zeta in H.
    destruct (read_response _) as [v0|e0] eqn:R.
    + injection H as <- _. apply read_response_ok in R as (r & Hr & Hok & Hb).
      exists (world st), r. auto.
    + destruct (QuarkWebService.on_attempt_error W retries attempt e0 _)
        as [[[]|e'] st2]; [|discriminate].
      eapply IH. exact H.
Qed.

Lemma request_ok_inv (c : api_call) (retries : nat) (st st' : net) (v : json) :
  request c retries st = (Ok v, st') ->
  exists w r, fst (fetch c w) = Responded r /\ ok r = true /\ body r = Parsed v.
Proof. apply request_loop_ok. Qed.

(** A 2xx answer with a body on the first attempt ends the call. *)
Lemma request_first_ok (c : api_call) (retries : nat) (st : net) (r : response)
  (v : json) :
  fst (fetch c (world st)) = Responded r -> ok r = true -> body r = Parsed v ->
  request c (S retries) st
  = (Ok v, mkNet (snd (fetch c (world st))) (trace st ++ [EFetch c])).
Proof.
  intros Hr Hok Hb. unfold QuarkWebService.request. rewrite request_loop_step.
  cbv zeta. rewrite Hr. simpl. rewrite Hok, Hb. reflexivity.
Qed.


End Transport.




End RequestFacts.

(** ** TransferProtocolClient: the step helpers and the polling loop *)

Module ProtocolFacts.

Import QuarkWebService AsyncFacts RequestFacts.

Section Helpers.

Variable W : Type.
Variable fetch : api_call -> W -> fetch_outcome * W.
Variable text_gt_zero : string -> bool.

Local Abbreviation net := (net W).
Local Abbreviation request := (request W fetch).
Local Abbreviation task_loop := (task_loop W fetch).
Local Abbreviation task := (task W fetch).
Local Abbreviation getStoken := (getStoken W fetch).
Local Abbreviation detail := (detail W fetch text_gt_zero).
Local Abbreviation saveTaskId := (saveTaskId W fetch).
Local Abbreviation shareTaskId := (shareTaskId W fetch).
Local Abbreviation getShareLink := (getShareLink W fetch).

Lemma emit_run (e : event) (st : net) :
  emit W e st = (Ok tt, mkNet (world st) (trace st ++ [e])).
Proof. reflexivity. Qed.

Lemma total_emit (e : event) : total (emit W e).
Proof. intros st. rewrite emit_run. eauto. Qed.

Lemma total_log_and_return {A} (label : string) (fallback : A) (name msg : string) :
  total (log_and_return W label fallback (ErrorObj name msg)).
Proof.
  intros st. unfold log_and_return, bind, lift_res, log, ret. cbn. eauto.
Qed.

Lemma throws_errors_lift_res {A} (r : res A) :
  (forall e, r = Throw e -> e <> ThrownUndefined) -> throws_errors (@lift_res net A r).
Proof. intros H st e st' E. unfold lift_res in E. injection E as E _. auto. Qed.

Lemma throws_errors_member (v : json) (k : string) :
  throws_errors (@lift_res net json (member v k)).
Proof.
  apply throws_errors_lift_res. intros e H.
  destruct v; simpl in H; try discriminate; injection H as <-; discriminate.
Qed.

Lemma throws_errors_to_string (v : json) :
  throws_errors (@lift_res net string (to_string v)).
Proof.
  apply throws_errors_lift_res. intros e H.
  rewrite (to_string_throws _ _ H). discriminate.
Qed.

Lemma throws_errors_gt_zero (v : json) :
  throws_errors (@lift_res net bool (gt_zero text_gt_zero v)).
Proof.
  apply throws_errors_lift_res. intros e H.
  rewrite (gt_zero_throws _ _ _ H). discriminate.
Qed.

Lemma throws_errors_request (c : api_call) : throws_errors (request c default_retries).
Proof. apply request_throws_errors. Qed.

(** A helper that wraps its [request] in [try]/[catch] never throws. *)
Lemma total_helper {A} (body : M net A) (label : string) (fallback : A) :
  throws_errors body -> total (try_catch body (log_and_return W label fallback)).
Proof.
  intros S. apply total_try_catch; [exact S|]. intros. apply total_log_and_return.
Qed.

Lemma total_getStoken (pwdId : string) : total (getStoken pwdId).
Proof.
  apply total_helper. apply throws_errors_bind; [apply throws_errors_request|].
  intros. apply throws_errors_ret.
Qed.

Lemma total_detail (pwdId : string) (stoken : json) : total (detail pwdId stoken).
Proof.
  apply total_helper. apply throws_errors_bind; [apply throws_errors_to_string|].
  intros params_stoken. apply throws_errors_bind; [apply throws_errors_request|].
  intros response. apply throws_errors_bind; [apply throws_errors_gt_zero|].
  intros [|]; [|apply throws_errors_ret].
  repeat (apply throws_errors_bind; [apply throws_errors_member | intros]).
  apply throws_errors_ret.
Qed.

Lemma total_saveTaskId (pwdId : string) (stoken firstId shareFidToken : json) :
  total (saveTaskId pwdId stoken firstId shareFidToken).
Proof.
  apply total_helper. apply throws_errors_bind; [apply throws_errors_request|].
  intros. apply throws_errors_ret.
Qed.

Lemma total_shareTaskId (fileId fileName : json) : total (shareTaskId fileId fileName).
Proof.
  apply total_helper. apply throws_errors_bind; [apply throws_errors_request|].
  intros. apply throws_errors_ret.
Qed.

Lemma total_getShareLink (shareId : json) : total (getShareLink shareId).
Proof.
  apply total_helper. apply throws_errors_bind; [apply throws_errors_request|].
  intros. apply throws_errors_ret.
Qed.

Lemma throws_errors_task_loop (taskId : json) :
  forall left i, throws_errors (task_loop taskId i left).
Proof.
  induction left as [|left IH]; intros i; cbn [QuarkWebService.task_loop].
  - apply throws_errors_ret.
  - apply throws_errors_bind; [apply throws_errors_to_string|]. intros task_id.
    apply throws_errors_bind; [apply throws_errors_request|].
    intros response. destruct (truthy _); [apply throws_errors_ret|].
    apply throws_errors_bind; [apply total_throws_errors, total_emit|].
    intros _. apply IH.
Qed.

Lemma total_task (taskId : json) (maxTries : nat) : total (task taskId maxTries).
Proof. apply total_helper. apply throws_errors_task_loop. Qed.

(** *** What the helpers return against an upstream that answers *)

Lemma request_answers (c : api_call) (v : json) (st : net) :
  answers fetch c v -> exists st', request c default_retries st = (Ok v, st').
Proof.
  intros H. destruct (H (world st)) as (r & Hr & Hok & Hb).
  eexists. apply (request_first_ok W fetch c 2 st r v Hr Hok Hb).
Qed.

Lemma getStoken_answers (pwdId : string) (v : json) (st : net) :
  answers fetch (CallToken pwdId) v ->
  exists st',
    getStoken pwdId st = (Ok (or_else (get (get v "data") "stoken") (JStr "")), st').
Proof.
  intros H. destruct (request_answers _ _ st H) as (st' & E).
  exists st'. unfold QuarkWebService.getStoken.
  apply try_catch_ok. rewrite (bind_ok _ _ _ _ _ E). reflexivity.
Qed.

Lemma saveTaskId_answers (pwdId : string) (stoken firstId token v : json) (st : net) :
  answers fetch (CallSave pwdId stoken firstId token "0") v ->
  exists st',
    saveTaskId pwdId stoken firstId token st
    = (Ok (or_else (get (get v "data") "task_id") (JStr "")), st').
Proof.
  intros H. destruct (request_answers _ _ st H) as (st' & E).
  exists st'. unfold QuarkWebService.saveTaskId.
  apply try_catch_ok. rewrite (bind_ok _ _ _ _ _ E). reflexivity.
Qed.

Lemma shareTaskId_answers (fileId fileName v : json) (st : net) :
  answers fetch (CallShare fileId fileName) v ->
  exists st',
    shareTaskId fileId fileName st
    = (Ok (or_else (get (get v "data") "task_id") (JStr "")), st').
Proof.
  intros H. destruct (request_answers _ _ st H) as (st' & E).
  exists st'. unfold QuarkWebService.shareTaskId.
  apply try_catch_ok. rewrite (bind_ok _ _ _ _ _ E). reflexivity.
Qed.

Lemma getShareLink_answers (shareId v : json) (st : net) :
  answers fetch (CallSharePassword shareId) v ->
  exists st',
    getShareLink shareId st
    = (Ok (or_else (get (get v "data") "share_url") (JStr "")), st').
Proof.
  intros H. destruct (request_answers _ _ st H) as (st' & E).
  exists st'. unfold QuarkWebService.getShareLink.
  apply try_catch_ok. rewrite (bind_ok _ _ _ _ _ E). reflexivity.
Qed.

(** A listing whose [list] is an array with a first entry that is an object. *)
Lemma detail_answers (pwdId : string) (stoken : json) (params_stoken : string)
  (v : json) (props : list (string * json)) (others : list json) (st : net) :
  to_string stoken = Ok params_stoken ->
  answers fetch (CallDetail pwdId params_stoken) v ->
  get (get v "data") "list" = JArr (JObj props :: others) ->
  exists st',
    detail pwdId stoken st
    = (Ok (Some (mkDetail (assoc "file_name" props) (assoc "file_type" props)
                   (assoc "fid" props) (assoc "pdir_fid" props)
                   (assoc "share_fid_token" props))), st').
Proof.
  intros T H L. destruct (request_answers _ _ st H) as (st' & E).
  exists st'. unfold QuarkWebService.detail.
  apply try_catch_ok. rewrite T. unfold lift_res at 1. unfold bind at 1.
  rewrite (bind_ok _ _ _ _ _ E). rewrite L.
  reflexivity.
Qed.

(** *** The polling loop *)

(** One turn of the loop, for a job whose identifier is written [task_id]. *)
Lemma task_loop_step (taskId : json) (task_id : string) (i left : nat) (st : net) :
  to_string taskId = Ok task_id ->
  task_loop taskId i (S left) st
  = (response <- request (CallTask task_id i) default_retries ;;
     if truthy (get (get response "data") "status") then ret (Some response)
     else sleep W 1000 ;;; task_loop taskId (S i) left) st.
Proof. intros T. cbn [QuarkWebService.task_loop]. rewrite T. reflexivity. Qed.

(** A job whose identifier does not convert to text is never polled. *)
Lemma task_loop_unwritable (taskId : json) (e : thrown) (i left : nat) (st : net) :
  to_string taskId = Throw e ->
  task_loop taskId i (S left) st = (Throw e, st).
Proof. intros T. cbn [QuarkWebService.task_loop]. rewrite T. reflexivity. Qed.

Lemma task_loop_poll_pending (taskId : json) (task_id : string) (v : json)
  (i left : nat) (st : net) :
  to_string taskId = Ok task_id ->
  answers fetch (CallTask task_id i) v ->
  truthy (get (get v "data") "status") = false ->
  exists st', task_loop taskId i (S left) st = task_loop taskId (S i) left st'.
Proof.
  intros T H S. destruct (request_answers _ _ st H) as (st1 & E).
  rewrite (task_loop_step _ _ _ _ _ T).
  rewrite (bind_ok _ _ _ _ _ E). rewrite S.
  unfold sleep. rewrite (bind_ok _ _ _ _ _ (emit_run _ _)). eexists. reflexivity.
Qed.

Lemma task_loop_poll_resolved (taskId : json) (task_id : string) (v : json)
  (i left : nat) (st : net) :
  to_string taskId = Ok task_id ->
  answers fetch (CallTask task_id i) v ->
  truthy (get (get v "data") "status") = true ->
  exists st', task_loop taskId i (S left) st = (Ok (Some v), st').
Proof.
  intros T H S. destruct (request_answers _ _ st H) as (st1 & E).
  rewrite (task_loop_step _ _ _ _ _ T).
  rewrite (bind_ok _ _ _ _ _ E). rewrite S.
  eexists. reflexivity.
Qed.

(** A job that resolves at the poll [i + k] is found by a loop that starts
    at the poll [i] with more than [k] polls to go. *)
Lemma task_loop_resolves (taskId : json) (task_id : string) (v : json) :
  to_string taskId = Ok task_id ->
  forall k i left (st : net),
    k < left ->
    (forall j, i <= j < i + k ->
       exists vj, answers fetch (CallTask task_id j) vj /\
                  truthy (get (get vj "data") "status") = false) ->
    answers fetch (CallTask task_id (i + k)) v ->
    truthy (get (get v "data") "status") = true ->
    exists st', task_loop taskId i left st = (Ok (Some v), st').
Proof.
  intros T. induction k as [|k IH]; intros i left st Hk Hpending Hv Hs.
  - destruct left as [|left]; [lia|]. rewrite Nat.add_0_r in Hv.
    apply (task_loop_poll_resolved taskId task_id); assumption.
  - destruct left as [|left]; [lia|].
    destruct (Hpending i ltac:(lia)) as (vi & Hvi & Hsi).
    destruct (task_loop_poll_pending taskId task_id vi i left st T Hvi Hsi) as (st1 & E).
    rewrite E. apply IH.
    + lia.
    + intros j Hj. apply Hpending. lia.
    + replace (S i + k) with (i + S k) by lia. exact Hv.
    + exact Hs.
Qed.

Lemma task_resolves (taskId v : json) (cap k : nat) (st : net) :
  resolves_at fetch taskId cap k v ->
  exists st', task taskId cap st = (Ok (Some v), st').
Proof.
  intros (task_id & T & Hk & Hpending & Hv & Hs).
  destruct (task_loop_resolves taskId task_id v T k 0 cap st Hk) as (st' & E); auto.
  - intros j Hj. apply Hpending. lia.
  - exists st'. unfold QuarkWebService.task. apply try_catch_ok. exact E.
Qed.

(** A loop that meets no status runs out of polls, unless a [request] throws. *)
Lemma task_loop_never (taskId : json) (cap : nat) :
  never_resolves fetch taskId cap ->
  forall left i (st : net),
    i + left <= cap ->
    fst (task_loop taskId i left st) = Ok None \/
    exists name msg, fst (task_loop taskId i left st) = Throw (ErrorObj name msg).
Proof.
  intros Hnever. induction left as [|left IH]; intros i st Hi.
  - left. reflexivity.
  - destruct (to_string taskId) as [task_id|e] eqn:T;
      [|right; rewrite (task_loop_unwritable _ _ _ _ _ T); cbn [fst];
        rewrite (to_string_throws _ _ T); unfold not_primitive, TypeError; eauto].
    rewrite (task_loop_step _ _ _ _ _ T).
    destruct (QuarkWebService.request W fetch (CallTask task_id i) default_retries st)
      as [[v|e] st1] eqn:E.
    + destruct (request_ok_inv W fetch _ _ _ _ _ E) as (w & r & Hr & Hok & Hb).
      rewrite (bind_ok _ _ _ _ _ E).
      rewrite (Hnever task_id i w r v T ltac:(lia) Hr Hok Hb).
      unfold sleep. rewrite (bind_ok _ _ _ _ _ (emit_run _ _)).
      apply IH. lia.
    + right. rewrite (bind_throw _ _ _ _ _ E). cbn [fst].
      pose proof (throws_errors_request _ _ _ _ E) as N.
      destruct e as [name msg|]; [eauto | congruence].
Qed.

Lemma task_never_resolves (taskId : json) (cap : nat) (st : net) :
  never_resolves fetch taskId cap -> fst (task taskId cap st) = Ok None.
Proof.
  intros Hnever. unfold QuarkWebService.task, try_catch.
  destruct (task_loop_never taskId cap Hnever cap 0 st ltac:(lia))
    as [E | (name & msg & E)];
    destruct (QuarkWebService.task_loop W fetch taskId 0 cap st) as [[r|e] st1];
    cbn [fst] in E; try discriminate.
  - injection E as ->. reflexivity.
  - injection E as ->. reflexivity.
Qed.

End Helpers.

(** C5: with the cap of 10, a task endpoint that reports no status on the
    polls 0 to 8 and a status on the poll 9 makes [task] return that tenth
    response; an endpoint none of whose answers to the ten polls carries a
    status makes it return [null]; and [task] never throws. *)
Theorem task_polling_cap :
  forall (W : Type) (fetch : api_call -> W -> fetch_outcome * W)
    (taskId : json) (st : net W),
    (forall v, resolves_at fetch taskId default_maxTries 9 v ->
               fst (task W fetch taskId default_maxTries st) = Ok (Some v)) /\
    (never_resolves fetch taskId default_maxTries ->
     fst (task W fetch taskId default_maxTries st) = Ok None) /\
    (exists result, fst (task W fetch taskId default_maxTries st) = Ok result).
Proof.
  intros W fetch taskId st. split; [|split].
  - intros v H. destruct (task_resolves W fetch taskId v _ _ st H) as (st' & E).
    rewrite E. reflexivity.
  - apply task_never_resolves.
  - destruct (total_task W fetch taskId default_maxTries st) as (r & st' & E).
    exists r. rewrite E. reflexivity.
Qed.

Lemma task_polling_cap_witness :
  resolves_at Scenario.slow_task (JStr "job") default_maxTries 9
    (Scenario.data_of [("status", JNum 2)]) /\
  fst (task unit Scenario.slow_task (JStr "job") default_maxTries Scenario.start)
  = Ok (Some (Scenario.data_of [("status", JNum 2)])) /\
  never_resolves Scenario.stuck_task (JStr "job") default_maxTries /\
  fst (task unit Scenario.stuck_task (JStr "job") default_maxTries Scenario.start)
  = Ok None.
Proof.
  assert (R : resolves_at Scenario.slow_task (JStr "job") default_maxTries 9
                (Scenario.data_of [("status", JNum 2)])).
  { exists "job". split; [reflexivity|].
    split; [unfold default_maxTries; lia|]. split; [|split].
    - intros i Hi. exists (Scenario.data_of []). split; [|reflexivity].
      intros w. unfold Scenario.slow_task. cbn [fst].
      apply Nat.ltb_lt in Hi. rewrite Hi. eexists. repeat split.
    - intros w. eexists. repeat split.
    - reflexivity. }
  assert (N : never_resolves Scenario.stuck_task (JStr "job") default_maxTries).
  { intros task_id i w r v _ _ Hr _ Hb. unfold Scenario.stuck_task in Hr. cbn in Hr.
    injection Hr as <-. cbn in Hb. injection Hb as <-. reflexivity. }
  split; [exact R|]. split.
  - exact (proj1 (task_polling_cap unit Scenario.slow_task (JStr "job") Scenario.start)
             _ R).
  - split; [exact N|].
    exact (proj1 (proj2 (task_polling_cap unit Scenario.stuck_task (JStr "job")
                           Scenario.start)) N).
Defined.

(** A job id and a token that do not convert to text: [task] and [detail]
    return [null] before any [fetch]. *)
Example task_unwritable_id :
  let run := task unit Scenario.mock_upstream Fixtures.unwritable default_maxTries
               Scenario.start in
  fst run = Ok None /\ trace (snd run) = [ELog LError "执行任务失败:"].
Proof. vm_compute. split; reflexivity. Qed.

Example detail_unwritable_token :
  let run := detail unit Scenario.mock_upstream Scenario.no_text_gt_zero "abc123"
               Fixtures.unwritable Scenario.start in
  fst run = Ok None /\ trace (snd run) = [ELog LError "获取文件详情失败:"].
Proof. vm_compute. split; reflexivity. Qed.

End ProtocolFacts.

(** ** TransferProtocolClient: [store] *)

Module StoreFacts.

Import QuarkWebService AsyncFacts RequestFacts ProtocolFacts.

Section Ensures.

Context {St : Type}.

Lemma ensures_ret {A} (a : A) (P : A -> Prop) : P a -> ensures (@ret St A a) P.
Proof. intros H st a' st' E. injection E as <- _. exact H. Qed.

Lemma ensures_throw {A} (e : thrown) (P : A -> Prop) : ensures (@throw St A e) P.
Proof. intros st a st' E. discriminate. Qed.

Lemma ensures_bind {A B} (m : M St A) (k : A -> M St B) (P : B -> Prop) :
  (forall a, ensures (k a) P) -> ensures (bind m k) P.
Proof.
  intros H st b st' E. apply bind_inv in E as [(a & st1 & _ & E)|(e & _ & E)].
  - exact (H a _ _ _ E).
  - discriminate.
Qed.

Lemma ensures_try_catch {A} (m : M St A) (h : thrown -> M St A) (P : A -> Prop) :
  ensures m P -> (forall e, ensures (h e) P) -> ensures (try_catch m h) P.
Proof.
  intros Hm Hh st a st' E. unfold try_catch in E.
  destruct (m st) as [[a0|e] st1] eqn:Em.
  - injection E as <- <-. exact (Hm _ _ _ Em).
  - exact (Hh e _ _ _ E).
Qed.

End Ensures.

Section Store.

Variable W : Type.
Variable fetch : api_call -> W -> fetch_outcome * W.
Variable text_gt_zero : string -> bool.

Local Abbreviation net := (net W).
Local Abbreviation progress := (progress W).
Local Abbreviation store := (store W fetch text_gt_zero).

Lemma progress_run (cb : option callback) (step : Z) (msg : string) (pct : Z) (st : net) :
  returns cb ->
  exists evs, progress cb step msg pct st = (Ok tt, mkNet (world st) (trace st ++ evs)).
Proof.
  destruct cb as [f|]; simpl; intros H.
  - unfold bind, emit. cbn. rewrite H. eexists. reflexivity.
  - exists []. rewrite app_nil_r. destruct st. reflexivity.
Qed.

Lemma total_progress (cb : option callback) (step : Z) (msg : string) (pct : Z) :
  returns cb -> total (progress cb step msg pct).
Proof.
  intros H st. destruct (progress_run cb step msg pct st H) as (evs & E). eauto.
Qed.

Lemma throws_errors_require (cond : bool) (msg : string) :
  throws_errors (require W cond msg).
Proof.
  destruct cond; [apply throws_errors_ret | apply throws_errors_throw].
Qed.

Lemma require_true (msg : string) (st : net) : require W true msg st = (Ok tt, st).
Proof. reflexivity. Qed.

(** Every step of the [try] block of [store] throws [Error] objects only,
    if the helpers do: the guards throw [new Error(...)]. *)
Ltac errors_only :=
  repeat first
    [ apply throws_errors_ret
    | apply throws_errors_throw
    | apply throws_errors_require
    | apply throws_errors_to_string
    | apply total_throws_errors, total_emit
    | apply total_throws_errors, total_progress; assumption
    | match goal with
      | H : forall _, throws_errors _ |- _ => apply H
      | H : forall _ _, throws_errors _ |- _ => apply H
      | H : forall _ _ _ _, throws_errors _ |- _ => apply H
      end
    | apply throws_errors_bind; [|intros]
    | match goal with
      | |- throws_errors (match ?x with _ => _ end) => destruct x
      end ].

Lemma store_on_total (this : helpers W) (url : string) (cb : option callback) :
  helpers_throw_errors W this -> returns cb -> total (store_on W this url cb).
Proof.
  intros (H1 & H2 & H3 & H4 & H5 & H6) Hcb. unfold store_on. apply total_try_catch.
  - unfold log. errors_only.
  - intros name msg. cbn [message_of].
    apply total_bind; [intros st; eexists _, st; reflexivity|]. intros m.
    apply total_bind; [apply total_emit|]. intros _.
    apply total_bind; [apply total_progress; exact Hcb|]. intros _.
    apply total_ret.
Qed.

(** The helpers of the class never throw. *)
Lemma self_throws_errors : helpers_throw_errors W (self W fetch text_gt_zero).
Proof.
  repeat split; intros; apply total_throws_errors; cbn.
  - apply total_getStoken.
  - apply total_detail.
  - apply total_saveTaskId.
  - apply total_task.
  - apply total_shareTaskId.
  - apply total_getShareLink.
Qed.

Lemma store_total (url : string) (cb : option callback) :
  returns cb -> total (store url cb).
Proof. apply store_on_total, self_throws_errors. Qed.

Lemma store_on_well_formed (this : helpers W) (url : string) (cb : option callback) :
  ensures (store_on W this url cb) well_formed.
Proof.
  unfold store_on. apply ensures_try_catch.
  - repeat first
      [ apply ensures_ret; cbn; eauto
      | apply ensures_throw
      | apply ensures_bind; intros
      | match goal with
        | |- ensures (match ?x with _ => _ end) _ => destruct x
        end ].
  - intros e. repeat (apply ensures_bind; intros). apply ensures_ret. reflexivity.
Qed.

(** *** The progress callback does not steer the transfer *)














(** *** The five steps against an upstream that answers *)

Lemma log_run (level : log_level) (label : string) (st : net) :
  exists st', log W level label st = (Ok tt, st').
Proof. eexists. reflexivity. Qed.

Lemma try_catch_returns {A} (m : M net A) (h : thrown -> M net A) (a : A) (st : net) :
  (exists st', m st = (Ok a, st')) -> exists st', try_catch m h st = (Ok a, st').
Proof. intros (st' & E). exists st'. apply try_catch_ok. exact E. Qed.

Ltac run H :=
  match goal with
  | |- exists _, bind ?m ?k ?st = _ =>
      let s := fresh "s" in
      let G := fresh "G" in
      destruct (H st) as (s & G); rewrite (bind_ok _ _ _ _ _ G); clear G; cbv beta
  end.

Ltac pass :=
  match goal with
  | |- exists _, bind ?m ?k ?st = _ =>
      rewrite (bind_ok m k st st tt) by reflexivity; cbv beta
  end.

Lemma store_scenario (url : string) (cb : option callback) (st : net) :
  Scenario.serves_scenario fetch ->
  UrlUtils.getIdFromUrl url = "abc123" ->
  returns cb ->
  exists (fileType : json) (st' : net),
    store url cb st
    = (Ok (mkOutcome true "文件转存成功: movie.mp4"
             (Some (mkData (JStr "newid1") (JStr "movie.mp4") fileType
                      (JStr "https://pan.quark.cn/s/newlink")))), st').
Proof.
  intros (tokenBody & listing & entry & saveBody & saveResult & shareBody
          & shareResult & linkBody & k1 & k2
          & Htoken & Etoken & Hlist & Elist & Ename & Efid & Eft
          & Hsave & Tsave & Rsave & Esave & Hshare & Tshare & Rshare & Eshare
          & Hlink & Elink) Hid Hcb.
  exists (assoc "file_type" entry).
  unfold QuarkWebService.store, store_on, self.
  cbn [this_getStoken this_detail this_saveTaskId this_task this_shareTaskId
       this_getShareLink].
  rewrite Hid. apply try_catch_returns.
  pose proof (fun s m p st => progress_run cb s m p st Hcb) as P.
  (* step 1 *)
  run (log_run LInfo "开始转存文件").
  run (P 1%Z "解析链接" 10%Z). pass.
  (* step 2 *)
  run (P 2%Z "获取分享令牌" 20%Z).
  run (fun st => getStoken_answers W fetch "abc123" tokenBody st Htoken).
  rewrite Etoken. pass.
  (* step 3 *)
  run (P 3%Z "获取文件详情" 40%Z).
  run (fun st => detail_answers W fetch text_gt_zero "abc123" (JStr "tok1") "tok1"
                   listing entry [] st eq_refl Hlist Elist).
  cbn [title fid share_fid_token file_type]. rewrite Ename, Efid, Eft.
  (* step 4 *)
  run (P 4%Z "执行转存任务" 60%Z).
  run (fun st => saveTaskId_answers W fetch "abc123" (JStr "tok1") (JStr "f1")
                   (JStr "sft1") saveBody st Hsave).
  unfold or_else. rewrite !Tsave. cbv iota. rewrite ?Tsave. pass.
  run (fun st => task_resolves W fetch _ saveResult _ k1 st Rsave).
  cbn [or_null]. rewrite Esave. pass.
  (* step 5 *)
  run (P 5%Z "生成分享链接" 80%Z).
  run (fun st => shareTaskId_answers W fetch (JStr "newid1") (JStr "movie.mp4")
                   shareBody st Hshare).
  unfold or_else. rewrite !Tshare. cbv iota. rewrite ?Tshare. pass.
  run (fun st => task_resolves W fetch _ shareResult _ k2 st Rshare).
  cbn [or_null]. rewrite Eshare. pass.
  run (fun st => getShareLink_answers W fetch (JStr "sh1") linkBody st Hlink).
  rewrite Elink. pass.
  run (P 5%Z "转存完成" 100%Z).
  match goal with
  | |- exists _, bind ?m ?k ?st = _ =>
      rewrite (bind_ok m k st st "movie.mp4") by reflexivity; cbv beta
  end.
  run (log_run LInfo "文件转存成功").
  eexists. reflexivity.
Qed.

End Store.

(** C1: against an upstream that answers the five steps as the end-to-end
    scenario says (token [tok1] for the share [abc123], the one file
    [movie.mp4] / [f1] / [sft1], a save job that resolves with the top-level
    id [newid1], a share job that resolves with [sh1], the link
    [https://pan.quark.cn/s/newlink]), [store] of a URL whose id is
    [abc123] resolves with [success: true] and the data
    [fileId: newid1], [fileName: movie.mp4] and the new share link. *)
Theorem store_end_to_end :
  forall (W : Type) (fetch : api_call -> W -> fetch_outcome * W)
    (text_gt_zero : string -> bool) (url : string) (cb : option callback)
    (st : net W),
    Scenario.serves_scenario fetch ->
    UrlUtils.getIdFromUrl url = "abc123" ->
    returns cb ->
    exists o d,
      fst (store W fetch text_gt_zero url cb st) = Ok o /\
      success o = true /\
      message o = "文件转存成功: movie.mp4" /\
      data o = Some d /\
      fileId d = JStr "newid1" /\
      fileName d = JStr "movie.mp4" /\
      shareLink d = JStr "https://pan.quark.cn/s/newlink".
Proof.
  intros W fetch tgz url cb st Hup Hid Hcb.
  destruct (store_scenario W fetch tgz url cb st Hup Hid Hcb) as (ft & st' & E).
  rewrite E. eexists. eexists. cbn. repeat split.
Qed.

Lemma mock_upstream_serves_scenario : Scenario.serves_scenario Scenario.mock_upstream.
Proof.
  exists (Scenario.data_of [("stoken", JStr "tok1")]),
         (Scenario.data_of [("list", JArr [Scenario.movie])]),
         [("file_name", JStr "movie.mp4"); ("fid", JStr "f1");
          ("share_fid_token", JStr "sft1")],
         (Scenario.data_of [("task_id", JStr "save-job")]),
         (Scenario.data_of
            [("status", JNum 2);
             ("save_as", JObj [("save_as_top_fids", JArr [JStr "newid1"])])]),
         (Scenario.data_of [("task_id", JStr "share-job")]),
         (Scenario.data_of [("status", JNum 2); ("share_id", JStr "sh1")]),
         (Scenario.data_of [("share_url", JStr "https://pan.quark.cn/s/newlink")]),
         0, 0.
  repeat match goal with
    | |- _ /\ _ => split
    | |- answers _ _ _ => intros w; eexists; repeat split
    | |- resolves_at _ _ _ _ _ =>
        eexists; split; [reflexivity|];
        split; [unfold default_maxTries; lia|];
        split; [intros i Hi; lia|]; split; [|reflexivity]
    | |- _ = _ => reflexivity
    end.
Qed.

Lemma store_end_to_end_witness :
  exists o d,
    fst (store unit Scenario.mock_upstream Scenario.no_text_gt_zero
           "https://pan.quark.cn/s/abc123" (Some Scenario.quiet_callback)
           Scenario.start) = Ok o /\
    success o = true /\
    message o = "文件转存成功: movie.mp4" /\
    data o = Some d /\
    fileId d = JStr "newid1" /\
    fileName d = JStr "movie.mp4" /\
    shareLink d = JStr "https://pan.quark.cn/s/newlink".
Proof.
  exact (store_end_to_end unit Scenario.mock_upstream Scenario.no_text_gt_zero
           "https://pan.quark.cn/s/abc123" (Some Scenario.quiet_callback)
           Scenario.start mock_upstream_serves_scenario eq_refl
           (fun _ _ _ => eq_refl)).
Defined.

Example store_end_to_end_run :
  fst (store unit Scenario.mock_upstream Scenario.no_text_gt_zero
         "https://pan.quark.cn/s/abc123" None Scenario.start)
  = Ok (mkOutcome true "文件转存成功: movie.mp4"
          (Some (mkData (JStr "newid1") (JStr "movie.mp4") JUndefined
                   (JStr "https://pan.quark.cn/s/newlink")))).
Proof. vm_compute. reflexivity. Qed.




(** C10: whatever the URL and whatever the upstream and the network do, a
    [store] whose progress callback (if any) returns normally never throws:
    it resolves with an outcome made of a boolean [success] and a string
    [message], with [data] on success and without it on failure. The same
    holds with any other helpers in the place of the class's own, as long as
    what they throw are [Error] objects. *)
Theorem store_never_rejects :
  forall (W : Type) (fetch : api_call -> W -> fetch_outcome * W)
    (text_gt_zero : string -> bool) (url : string) (cb : option callback)
    (st : net W),
    returns cb ->
    (exists (o : outcome) (st' : net W),
        store W fetch text_gt_zero url cb st = (Ok o, st') /\
        (success o = false -> data o = None) /\
        (success o = true -> exists d, data o = Some d)) /\
    (forall this : helpers W,
        helpers_throw_errors W this ->
        exists (o : outcome) (st' : net W),
          store_on W this url cb st = (Ok o, st') /\
          (success o = false -> data o = None) /\
          (success o = true -> exists d, data o = Some d)).
Proof.
  intros W fetch tgz url cb st Hcb.
  assert (G : forall this : helpers W,
             helpers_throw_errors W this ->
             exists (o : outcome) (st' : net W),
               store_on W this url cb st = (Ok o, st') /\
               (success o = false -> data o = None) /\
               (success o = true -> exists d, data o = Some d)).
  { intros this Hthis.
    destruct (store_on_total W this url cb Hthis Hcb st) as (o & st' & E).
    exists o, st'. split; [exact E|].
    pose proof (store_on_well_formed W this url cb st o st' E) as F.
    unfold well_formed in F. destruct (success o); split; intros H;
      try discriminate; exact F. }
  split; [|exact G]. apply G. apply self_throws_errors.
Qed.

Lemma store_never_rejects_witness :
  returns None /\
  exists o st',
    store unit Scenario.always_500 Scenario.no_text_gt_zero
      "https://pan.quark.cn/s/abc123" None Scenario.start = (Ok o, st') /\
    (success o = false -> data o = None) /\
    (success o = true -> exists d, data o = Some d).
Proof.
  split; [exact I|].
  exact (proj1 (store_never_rejects unit Scenario.always_500 Scenario.no_text_gt_zero
                  "https://pan.quark.cn/s/abc123" None Scenario.start I)).
Defined.

End StoreFacts.

(** ** DuplicateIndex: [checkDuplicate] *)

Module IndexFacts.

Import IndexedDBService.






Example checkDuplicate_name_lookup_down :
  checkDuplicate Scenario.name_lookup_down "A.mp4" "L1"
  = Throw (Error "检查重复文件失败: 检查文件存在性失败").
Proof. reflexivity. Qed.



(** C4: over a store whose only record has the file name [A.mp4] and the
    share link [L1], [checkDuplicate] answers [name] for [("A.mp4","L2")],
    [link] for [("B.mp4","L1")], [both] for [("A.mp4","L1")] and [none] for
    [("C","L3")], whichever of the link indexes exist; and every verdict
    has [exists = nameExists || linkExists]. *)
Theorem checkDuplicate_classifies :
  forall (db : database) (record : file_record),
    transaction_error db = None ->
    contains (indexNames db) "fileName" = true ->
    (forall q, request_fails db q = false) ->
    files db = [record] ->
    assoc "fileName" record = JStr "A.mp4" ->
    assoc "shareLink" record = JStr "L1" ->
    assoc "shareUrl" record = JUndefined ->
    assoc "originalUrl" record = JUndefined ->
    checkDuplicate db "A.mp4" "L2" = Ok (mkVerdict true "name" true false) /\
    checkDuplicate db "B.mp4" "L1" = Ok (mkVerdict true "link" false true) /\
    checkDuplicate db "A.mp4" "L1" = Ok (mkVerdict true "both" true true) /\
    checkDuplicate db "C" "L3" = Ok (mkVerdict false "none" false false) /\
    (forall (db' : database) (fileName shareLink : string) (v : verdict),
        checkDuplicate db' fileName shareLink = Ok v ->
        exists_ v = nameExists v || linkExists v).
Proof.
  intros db record Htx Hix Hreq Hfiles Hname Hlink Hurl Horig.
  assert (C : forall fileName shareLink,
             checkDuplicate db fileName shareLink
             = let n := (fileName =? "A.mp4") in
               let l := (shareLink =? "L1") in
               Ok (mkVerdict (n || l)
                     (if n then (if l then "both" else "name")
                      else (if l then "link" else "none")) n l)).
  { intros fileName shareLink.
    unfold checkDuplicate, fileExists, fileExistsByShareLink, checkWithIndex,
      index_has, field_is.
    rewrite Htx, Hix, Hfiles. cbn [existsb map]. rewrite !Hreq.
    rewrite Hname, Hlink, Hurl, Horig. cbn [str_is].
    rewrite (String.eqb_sym "A.mp4" fileName), (String.eqb_sym "L1" shareLink).
    destruct (contains _ "shareLink"), (contains _ "shareUrl"),
      (contains _ "originalUrl"), (fileName =? "A.mp4"), (shareLink =? "L1");
      reflexivity. }
  repeat split; try (rewrite C; reflexivity).
  intros db' fileName shareLink v. unfold checkDuplicate.
  destruct (promise_all2 _ _) as [[n l]|e].
  - intros H. injection H as <-. reflexivity.
  - destruct (message_of e); discriminate.
Qed.

Lemma checkDuplicate_classifies_witness :
  checkDuplicate Scenario.healthy_store "A.mp4" "L2"
  = Ok (mkVerdict true "name" true false) /\
  checkDuplicate Scenario.healthy_store "B.mp4" "L1"
  = Ok (mkVerdict true "link" false true) /\
  checkDuplicate Scenario.healthy_store "A.mp4" "L1"
  = Ok (mkVerdict true "both" true true) /\
  checkDuplicate Scenario.healthy_store "C" "L3"
  = Ok (mkVerdict false "none" false false).
Proof.
  pose proof (checkDuplicate_classifies Scenario.healthy_store Scenario.one_record
                eq_refl eq_refl (fun _ => eq_refl) eq_refl eq_refl eq_refl eq_refl
                eq_refl) as (H1 & H2 & H3 & H4 & _).
  exact (conj H1 (conj H2 (conj H3 H4))).
Defined.

End IndexFacts.

(** ** BatchTransferController: [handleBatchTransfer] *)

Module BatchFacts.

Import QuarkWebService IndexedDBService TransferPanel AsyncFacts.

Section Ledger.

Variable St : Type.

Local Abbreviation panel := (panel St).

Lemma quiet_ret {A} (a : A) : quiet (@ret panel A a).
Proof. intros p r p' E. injection E as <- <-. split; [reflexivity | easy]. Qed.

Lemma quiet_throw {A} (name msg : string) : quiet (@throw panel A (ErrorObj name msg)).
Proof. intros p r p' E. injection E as <- <-. split; [reflexivity | easy]. Qed.

Lemma quiet_message_of (name msg : string) :
  quiet (@lift_res panel string (message_of (ErrorObj name msg))).
Proof. intros p r p' E. injection E as <- <-. split; [reflexivity | easy]. Qed.

Lemma quiet_to_string (v : json) : quiet (@lift_res panel string (to_string v)).
Proof.
  intros p r p' E. injection E as <- <-. split; [reflexivity|].
  destruct (to_string v) as [t|e] eqn:T; [exact I|].
  rewrite (to_string_throws _ _ T). discriminate.
Qed.

Lemma quiet_show (e : ui_event) : quiet (show St e).
Proof. intros p r p' E. injection E as <- <-. split; [reflexivity | easy]. Qed.

Lemma quiet_read {A} (f : panel -> A) : quiet (read St f).
Proof. intros p r p' E. injection E as <- <-. split; [reflexivity | easy]. Qed.

Lemma quiet_set_isTransferring (b : bool) : quiet (set_isTransferring St b).
Proof. intros p r p' E. injection E as <- <-. split; [reflexivity | easy]. Qed.

Lemma quiet_call {A} (m : M St A) : throws_errors m -> quiet (call St m).
Proof.
  intros H p r p' E. unfold call in E. destruct (m (env p)) as [r0 e] eqn:Em.
  injection E as <- <-. split; [reflexivity|].
  destruct r0 as [a|e0]; [exact I|]. exact (H _ _ _ Em).
Qed.

Lemma quiet_bind {A B} (m : M panel A) (k : A -> M panel B) :
  quiet m -> (forall a, quiet (k a)) -> quiet (bind m k).
Proof.
  intros Hm Hk p r p' E. apply bind_inv in E as [(a & p1 & E1 & E2)|(e & E1 & ->)].
  - destruct (Hm _ _ _ E1) as [L1 _]. destruct (Hk a _ _ _ E2) as [L2 N].
    split; [congruence | exact N].
  - destruct (Hm _ _ _ E1) as [L1 N]. split; [exact L1 | exact N].
Qed.

(** A [catch] that ignores what it caught. *)
Lemma quiet_try_catch_any {A} (m : M panel A) (h : thrown -> M panel A) :
  (forall p r p', m p = (r, p') -> ledger_of p' = ledger_of p) ->
  (forall e, quiet (h e)) -> quiet (try_catch m h).
Proof.
  intros Hm Hh p r p' E. unfold try_catch in E.
  destruct (m p) as [[a|e] p1] eqn:Em.
  - injection E as <- <-. split; [exact (Hm _ _ _ Em) | exact I].
  - destruct (Hh e _ _ _ E) as [L N]. split; [|exact N].
    rewrite L. exact (Hm _ _ _ Em).
Qed.

Lemma push_run (entry : batch_entry) (p : panel) :
  exists p', push St entry p = (Ok tt, p') /\
             ledger_of p' = record_entry entry (ledger_of p).
Proof. destruct entry; eexists; split; reflexivity. Qed.

Lemma pushing_push (link : string) (entry : batch_entry) :
  entry_link entry = link -> pushing link (push St entry).
Proof.
  intros H p r p' E. destruct (push_run entry p) as (p1 & E1 & L).
  rewrite E1 in E. injection E as <- <-. exists entry. auto.
Qed.

Lemma pushing_throw {A} (link name msg : string) :
  pushing link (@throw panel A (ErrorObj name msg)).
Proof. intros p r p' E. injection E as <- <-. split; [discriminate | reflexivity]. Qed.

Lemma pushing_bind_quiet {A B} (link : string) (m : M panel A) (k : A -> M panel B) :
  quiet m -> (forall a, pushing link (k a)) -> pushing link (bind m k).
Proof.
  intros Hm Hk p r p' E. apply bind_inv in E as [(a & p1 & E1 & E2)|(e & E1 & ->)].
  - destruct (Hm _ _ _ E1) as [L1 _]. specialize (Hk a _ _ _ E2).
    rewrite L1 in Hk. exact Hk.
  - destruct (Hm _ _ _ E1) as [L1 N]. split; [exact N | exact L1].
Qed.

Lemma pushing_then_ret {A B} (link : string) (m : M panel A) (b : B) :
  pushing link m -> pushing link (bind m (fun _ => ret b)).
Proof.
  intros Hm p r p' E. apply bind_inv in E as [(a & p1 & E1 & E2)|(e & E1 & ->)].
  - injection E2 as <- <-. exact (Hm _ _ _ E1).
  - exact (Hm _ _ _ E1).
Qed.

Lemma gating_bind_quiet {A} (link : string) (m : M panel A)
  (k : A -> M panel (flow unit unit)) :
  quiet m -> (forall a, gating link (k a)) -> gating link (bind m k).
Proof.
  intros Hm Hk p r p' E. apply bind_inv in E as [(a & p1 & E1 & E2)|(e & E1 & ->)].
  - destruct (Hm _ _ _ E1) as [L1 _]. specialize (Hk a _ _ _ E2).
    rewrite L1 in Hk. exact Hk.
  - destruct (Hm _ _ _ E1) as [L1 N]. split; [exact N | exact L1].
Qed.

Lemma gating_next (link : string) : gating link (@ret panel _ (Next tt)).
Proof. intros p r p' E. injection E as <- <-. reflexivity. Qed.

Lemma gating_push_return (link : string) (entry : batch_entry) :
  entry_link entry = link ->
  gating link (bind (push St entry) (fun _ => ret (Return tt))).
Proof.
  intros H p r p' E. destruct (push_run entry p) as (p1 & E1 & L).
  rewrite (bind_ok _ _ _ _ _ E1) in E. injection E as <- <-. exists entry. auto.
Qed.

(** The [try] block of an iteration: the gate, then the transfer. *)
Lemma pushing_gate_then {A} (link : string) (gate : M panel (flow unit unit))
  (rest : M panel A) :
  gating link gate -> pushing link rest ->
  pushing link
    (bind gate (fun r => match r with
                         | Return _ => ret (@Return unit unit tt)
                         | Next _ => bind rest (fun _ => ret (Next tt))
                         end)).
Proof.
  intros Hg Hr p r p' E. apply bind_inv in E as [(a & p1 & E1 & E2)|(e & E1 & ->)].
  - specialize (Hg _ _ _ E1). destruct a as [[]|[]].
    + injection E2 as <- <-. exact Hg.
    + cbn in Hg. pose proof (pushing_then_ret link rest (@Next unit unit tt) Hr
                               _ _ _ E2) as H.
      rewrite Hg in H. exact H.
  - exact (Hg _ _ _ E1).
Qed.

(** A [try] that records one entry when it returns, with a [catch] that
    records one for every [Error]: one entry, and no exception. *)
Lemma pushing_try_catch {A} (link : string) (m : M panel A) (h : thrown -> M panel A) :
  pushing link m ->
  (forall name msg, pushing link (h (ErrorObj name msg))) ->
  (forall name msg, total (h (ErrorObj name msg))) ->
  forall p, exists a p' entry,
    try_catch m h p = (Ok a, p') /\ entry_link entry = link /\
    ledger_of p' = record_entry entry (ledger_of p).
Proof.
  intros Hm Hh Ht p. unfold try_catch. destruct (m p) as [[a|e] p1] eqn:Em.
  - destruct (Hm _ _ _ Em) as (entry & Hl & L). eauto 6.
  - destruct (Hm _ _ _ Em) as (N & L). destruct e as [name msg|]; [|congruence].
    destruct (Ht name msg p1) as (a & p2 & Eh).
    destruct (Hh name msg _ _ _ Eh) as (entry & Hl & L2).
    exists a, p2, entry. rewrite Eh, L2, L. auto.
Qed.

Lemma show_run (e : ui_event) (p : panel) :
  exists p', show St e p = (Ok tt, p') /\ ledger_of p' = ledger_of p.
Proof. eexists. split; reflexivity. Qed.

(** The ledger after a run of entries. *)
Lemma record_entries (entries : list batch_entry) :
  forall results s f k,
    fold_left (fun b e => record_entry e b) entries (results, (s, f, k))
    = ((results ++ entries)%list,
       (s + List.length (filter entry_success entries),
        f + List.length (filter entry_failed entries),
        k + List.length (filter entry_skipped entries))).
Proof.
  induction entries as [|e entries IH]; intros results s f k.
  - cbn. rewrite app_nil_r, !Nat.add_0_r. reflexivity.
  - cbn [fold_left]. unfold record_entry at 2.
    destruct e; rewrite IH, <- app_assoc; cbn; repeat f_equal; lia.
Qed.

End Ledger.

Section Batch.

Variable St : Type.
Variable dbService : db_service St.
Variable onQuarkServiceNeeded : string -> res (quark_service St).
Variable quarkService : quark_service St.

Local Abbreviation panel := (panel St).
Local Abbreviation extractFileName := (extractFileName St).
Local Abbreviation transfer_one := (transfer_one St dbService quarkService).
Local Abbreviation transfer_rest := (transfer_rest St dbService quarkService).
Local Abbreviation batch_step := (batch_step St dbService quarkService).
Local Abbreviation batch_loop := (batch_loop St dbService quarkService).
Local Abbreviation handleBatchTransfer :=
  (handleBatchTransfer St dbService onQuarkServiceNeeded).

(** [extractFileName] swallows whatever the metadata lookup throws. *)
Lemma extractFileName_run (url : string) (p : panel) :
  exists fileName p',
    extractFileName url quarkService p = (Ok fileName, p') /\
    ledger_of p' = ledger_of p.
Proof.
  unfold TransferPanel.extractFileName, try_catch, bind, call, ret.
  destruct (qs_getFileInfo quarkService url (env p)) as [[info|e] s];
    eexists _, _; split; reflexivity.
Qed.

Lemma quiet_extractFileName (url : string) : quiet (extractFileName url quarkService).
Proof.
  intros p r p' E. destruct (extractFileName_run url p) as (f & p1 & E1 & L).
  rewrite E1 in E. injection E as <- <-. split; [exact L | exact I].
Qed.

Section Errors.

Hypothesis Herrors : services_throw_errors quarkService dbService.

Lemma gating_transfer_one (link : string) : gating link (transfer_one link).
Proof.
  destruct Herrors as (_ & Hcheck & _). unfold TransferPanel.transfer_one.
  apply gating_bind_quiet; [apply quiet_extractFileName|]. intros fileName.
  apply gating_bind_quiet.
  - destruct (truthy fileName); [|apply quiet_ret].
    apply quiet_bind; [apply quiet_call, Hcheck|]. intros v. apply quiet_ret.
  - intros [v|]; [|apply gating_next].
    destruct (exists_ v); [|apply gating_next].
    apply gating_bind_quiet; [apply quiet_to_string|]. intros name.
    apply gating_push_return. reflexivity.
Qed.

Lemma pushing_transfer_rest (link : string) : pushing link (transfer_rest link).
Proof.
  destruct Herrors as (Hstore & _ & Hinsert). unfold TransferPanel.transfer_rest.
  apply pushing_bind_quiet; [apply quiet_call, Hstore|]. intros result.
  destruct (success result); [|apply pushing_push; reflexivity].
  destruct (data result) as [d|]; [|apply pushing_throw].
  apply pushing_bind_quiet; [apply quiet_call, Hinsert|]. intros _.
  apply pushing_push. reflexivity.
Qed.

(** One iteration records one entry, for its link, and does not throw. *)
Lemma batch_step_pushes (totalLinks i : nat) (link : string) (p : panel) :
  exists r p' entry,
    batch_step totalLinks i link p = (Ok r, p') /\
    entry_link entry = link /\
    ledger_of p' = record_entry entry (ledger_of p).
Proof.
  unfold TransferPanel.batch_step.
  match goal with
  | |- context [show St ?e] => destruct (show_run St e p) as (p1 & E1 & L1)
  end.
  rewrite (bind_ok _ _ _ _ _ E1). rewrite <- L1.
  apply pushing_try_catch.
  - apply pushing_gate_then; [apply gating_transfer_one | apply pushing_transfer_rest].
  - intros name msg. apply pushing_bind_quiet; [apply quiet_message_of|].
    intros m. apply pushing_then_ret, pushing_push. reflexivity.
  - intros name msg q. cbn [message_of]. unfold bind, lift_res, ret.
    destruct (push_run St (EntryFailure link msg) q) as (q' & -> & _). eauto.
Qed.

(** The loop records one entry per link, in the order of the links, and
    does not throw. *)
Lemma batch_loop_pushes (totalLinks : nat) :
  forall (links : list string) (i : nat) (p : panel),
    exists p' entries,
      batch_loop totalLinks i links p = (Ok tt, p') /\
      map entry_link entries = links /\
      ledger_of p' = fold_left (fun b e => record_entry e b) entries (ledger_of p).
Proof.
  induction links as [|link links IH]; intros i p.
  - exists p, []. repeat split.
  - cbn [TransferPanel.batch_loop].
    destruct (batch_step_pushes totalLinks i link p) as (r & p1 & entry & E1 & Hl & L1).
    rewrite (bind_ok _ _ _ _ _ E1).
    assert (exists p2, (match r with
                        | Return _ => ret tt
                        | Next _ => if (i <? totalLinks - 1)%nat
                                    then show St (Pause 1000) else ret tt
                        end) p1 = (Ok tt, p2) /\ ledger_of p2 = ledger_of p1)
      as (p2 & E2 & L2).
    { destruct r; [eexists; split; reflexivity|].
      destruct (i <? totalLinks - 1)%nat; eexists; split; reflexivity. }
    rewrite (bind_ok _ _ _ _ _ E2).
    destruct (IH (S i) p2) as (p' & entries & E3 & Hls & L3).
    exists p', (entry :: entries). split; [exact E3|]. split.
    + cbn. rewrite Hl, Hls. reflexivity.
    + cbn [fold_left]. rewrite L3, L2, L1. reflexivity.
Qed.

End Errors.

Lemma batch_summary_run (p : panel) :
  exists p', batch_summary St p = (Ok tt, p') /\ ledger_of p' = ledger_of p.
Proof.
  unfold batch_summary, bind, read.
  destruct (0 <? successCount p)%nat;
    [| destruct ((0 <? skipCount p)%nat && (failCount p =? 0)%nat)];
    eexists; split; reflexivity.
Qed.

Lemma resetTransferState_run (p : panel) :
  exists p', resetTransferState St p = (Ok tt, p') /\ ledger_of p' = ledger_of p.
Proof. eexists. split; reflexivity. Qed.

(** Once the cookie is there and the service is built, the method is its
    loop, started on an empty ledger, and the display of what it counted. *)
Lemma handleBatchTransfer_run (p : panel) :
  detectedLinks p <> [] ->
  defaultCookie p <> "" ->
  onQuarkServiceNeeded (defaultCookie p) = Ok quarkService ->
  exists p0,
    ledger_of p0 = ([], (0, 0, 0)) /\
    forall p1,
      batch_loop (List.length (detectedLinks p)) 0 (detectedLinks p) p0 = (Ok tt, p1) ->
      exists p', handleBatchTransfer p = (Ok tt, p') /\ ledger_of p' = ledger_of p1.
Proof.
  intros Hlinks Hcookie Hservice.
  unfold TransferPanel.handleBatchTransfer.
  unfold read at 1. unfold bind at 1.
  destruct (detectedLinks p) as [|link links] eqn:El; [congruence|].
  cbn [List.length Nat.eqb].
  apply String.eqb_neq in Hcookie.
  eexists. split; cycle 1.
  - intros p1 E1.
    unfold try_finally, try_catch.
    do 5 (erewrite bind_ok by reflexivity). cbn [defaultCookie].
    rewrite Hcookie. erewrite bind_ok by reflexivity.
    rewrite Hservice. erewrite bind_ok by reflexivity.
    rewrite (bind_ok _ _ _ _ _ E1).
    do 4 (erewrite bind_ok by reflexivity).
    match goal with
    | |- context [batch_summary St ?q] =>
        destruct (batch_summary_run q) as (p2 & E2 & L2)
    end.
    destruct (resetTransferState_run p2) as (p3 & E3 & L3).
    rewrite E2, E3. exists p3. split; [reflexivity|].
    rewrite L3, L2. reflexivity.
  - reflexivity.
Qed.

(** *** A link whose transfer throws, between two that do not *)









End Batch.




Example handleBatchTransfer_undefined_run :
  let p' := snd (handleBatchTransfer unit Scenario.accepting_db
                   (fun _ => Ok Scenario.undefined_service) Scenario.three_links) in
  batchResults p' = [entry_for Scenario.linkA (Scenario.saved Scenario.linkA)] /\
  In (ShowResult false "Cannot read properties of undefined (reading 'message')")
     (ui p').
Proof. vm_compute. split; [reflexivity|]. auto 10. Qed.



End BatchFacts.

(** ** The batch input: [extractQuarkLinks] *)

Module LinkFacts.

Import UrlUtils BatchInput UrlFacts.

Lemma is_alnum_word (c : ascii) : is_alnum c = true -> is_word_char c = true.
Proof.
  unfold is_alnum, is_word_char. cbv zeta. intros H. rewrite H. reflexivity.
Qed.

Lemma all_alnum_word (s : string) : all_alnum s = true -> all_word s = true.
Proof.
  induction s as [|c s IH]; simpl; [reflexivity|].
  intros H. apply andb_true_iff in H as [Hc Hs].
  rewrite (is_alnum_word _ Hc), IH by exact Hs. reflexivity.
Qed.

Lemma all_alnum_take (s : string) : all_alnum (take_alnum s) = true.
Proof.
  induction s as [|c s IH]; simpl; [reflexivity|].
  destruct (is_alnum c) eqn:E; simpl; [rewrite E, IH|]; reflexivity.
Qed.

Lemma take_alnum_all (s : string) : all_alnum s = true -> take_alnum s = s.
Proof.
  induction s as [|c s IH]; simpl; [reflexivity|].
  intros H. apply andb_true_iff in H as [Hc Hs]. rewrite Hc, IH by exact Hs.
  reflexivity.
Qed.

(** A text is the run of letters and digits at its head and what follows. *)
Lemma take_alnum_split (s : string) :
  exists rest, s = take_alnum s ++ rest /\
               (all_word s = true -> all_word rest = true).
Proof.
  induction s as [|c s (rest & E & H)]; simpl.
  - exists "". auto.
  - destruct (is_alnum c) eqn:Hc.
    + exists rest. split; [simpl; congruence|].
      intros Hw. apply andb_true_iff in Hw as [_ Hs]. auto.
    + exists (String c s). split; [reflexivity|]. simpl. auto.
Qed.

Lemma all_word_app (a b : string) : all_word (a ++ b) = all_word a && all_word b.
Proof.
  induction a as [|c a IH]; simpl; [reflexivity|]. rewrite IH, andb_assoc. reflexivity.
Qed.

(** What the pattern matches is the canonical prefix and a non-empty run of
    letters and digits. *)
Lemma link_here_some (s m : string) :
  link_here s = Some m ->
  exists rest, s = share_prefix ++ rest /\ take_alnum rest <> ""
               /\ m = share_prefix ++ take_alnum rest.
Proof.
  unfold link_here. destruct (strip_prefix share_prefix s) as [rest|] eqn:E;
    [|discriminate].
  apply strip_prefix_inv in E. destruct (take_alnum rest) as [|c r] eqn:T;
    [discriminate|].
  intros H. injection H as <-. exists rest. rewrite T.
  repeat split; [exact E | discriminate].
Qed.

Lemma link_here_app (rest : string) :
  link_here (share_prefix ++ rest) =
  match take_alnum rest with
  | EmptyString => None
  | id => Some (share_prefix ++ id)
  end.
Proof. unfold link_here. rewrite strip_prefix_app. reflexivity. Qed.

(** The pattern matches nowhere in a run of word characters: it needs the
    colon of the scheme. *)
Lemma link_here_all_word (s : string) : all_word s = true -> link_here s = None.
Proof.
  intros H. destruct (link_here s) as [m|] eqn:E; [|reflexivity].
  apply link_here_some in E as (rest & -> & _).
  rewrite all_word_app in H. discriminate.
Qed.

Lemma all_word_tail (c : ascii) (s : string) :
  all_word (String c s) = true -> all_word s = true.
Proof. simpl. intros H. apply andb_true_iff in H as [_ H]. exact H. Qed.

Lemma scan_all_word (s : string) : forall skip, all_word s = true -> scan skip s = [].
Proof.
  induction s as [|c s IH]; intros skip H; [reflexivity|].
  pose proof (all_word_tail _ _ H) as Hs.
  destruct skip as [|k]; cbn [scan]; [|auto].
  rewrite (link_here_all_word _ H). auto.
Qed.

(** Passing the rest of a match. *)
Lemma scan_skip_app (a b : string) (k : nat) :
  scan (String.length a + k) (a ++ b) = scan k b.
Proof.
  induction a as [|c a IH]; [reflexivity|].
  cbn [String.length append Nat.add scan]. exact IH.
Qed.

Lemma scan_miss (c : ascii) (s : string) :
  link_here (String c s) = None -> scan 0 (String c s) = scan 0 s.
Proof. intros H. cbn [scan]. rewrite H. reflexivity. Qed.

Lemma scan_hit (c : ascii) (s m : string) :
  link_here (String c s) = Some m ->
  scan 0 (String c s) = m :: scan (String.length m - 1) s.
Proof. intros H. cbn [scan]. rewrite H. reflexivity. Qed.

Lemma scan_blank (s : string) : blank s = true -> scan 0 s = [].
Proof.
  induction s as [|c s IH]; [reflexivity|]. cbn [blank].
  intros H. apply andb_true_iff in H as [Hc Hs].
  rewrite scan_miss; [auto|].
  destruct (link_here (String c s)) as [m|] eqn:E; [|reflexivity].
  apply link_here_some in E as (rest & E & _).
  unfold share_prefix in E. simpl in E. injection E as -> _. discriminate.
Qed.

Lemma scan_In (s : string) :
  forall skip m,
    In m (scan skip s) ->
    exists id, m = share_prefix ++ id /\ id <> "" /\ all_alnum id = true.
Proof.
  induction s as [|c s IH]; intros skip m H; [contradiction|].
  destruct skip as [|k]; cbn [scan] in H; [|eauto].
  destruct (link_here (String c s)) as [m0|] eqn:E; [|eauto].
  destruct H as [<- | H]; [|eauto].
  apply link_here_some in E as (rest & _ & N & ->).
  exists (take_alnum rest). repeat split; [exact N | apply all_alnum_take].
Qed.

Local Abbreviation add_all := (fold_left (fun elements x => Set_add x elements)).

Lemma Set_add_In (x y : string) (l : list string) :
  In y (Set_add x l) <-> In y l \/ y = x.
Proof.
  unfold Set_add. destruct (existsb (String.eqb x) l) eqn:E.
  - split; [auto|]. intros [H | ->]; [exact H|].
    apply existsb_exists in E as (z & Hz & Ez). apply String.eqb_eq in Ez.
    subst z. exact Hz.
  - rewrite in_app_iff. simpl. intuition.
Qed.

Lemma Set_add_NoDup (x : string) (l : list string) : NoDup l -> NoDup (Set_add x l).
Proof.
  intros H. unfold Set_add. destruct (existsb (String.eqb x) l) eqn:E; [exact H|].
  apply NoDup_app; [exact H | repeat constructor; intros [] |].
  intros y Hy [Hxy | []]. subst y.
  assert (T : existsb (String.eqb x) l = true).
  { apply existsb_exists. exists x. split; [exact Hy | apply String.eqb_refl]. }
  congruence.
Qed.

Lemma add_all_In (l : list string) :
  forall acc y, In y (add_all l acc) <-> In y acc \/ In y l.
Proof.
  induction l as [|x l IH]; intros acc y; simpl; [intuition|].
  rewrite IH, Set_add_In. intuition.
Qed.

Lemma add_all_NoDup (l : list string) :
  forall acc, NoDup acc -> NoDup (add_all l acc).
Proof.
  induction l as [|x l IH]; intros acc H; simpl; [exact H|].
  apply IH, Set_add_NoDup, H.
Qed.

(** A [Set] keeps the first occurrence of each element. *)
Lemma add_all_first (x : string) (l : list string) :
  forall acc,
    add_all l (x :: acc)
    = x :: add_all (filter (fun y => negb (y =? x)) l) acc.
Proof.
  induction l as [|y l IH]; intros acc; [reflexivity|].
  cbn [fold_left filter]. destruct (y =? x) eqn:E.
  - apply String.eqb_eq in E. subst y. cbn [negb]. rewrite <- IH. f_equal.
    unfold Set_add. cbn [existsb]. rewrite String.eqb_refl. reflexivity.
  - cbn [negb fold_left]. rewrite <- IH. f_equal.
    unfold Set_add. cbn [existsb]. rewrite E. cbn [orb].
    destruct (existsb (String.eqb y) acc); reflexivity.
Qed.

Lemma spread_Set_cons (x : string) (l : list string) :
  spread_Set (x :: l) = x :: spread_Set (filter (fun y => negb (y =? x)) l).
Proof. unfold spread_Set. cbn [fold_left]. apply add_all_first. Qed.

(** The test for a blank text changes nothing: a blank text has no match. *)
Lemma extractQuarkLinks_scan (text : string) :
  extractQuarkLinks text = spread_Set (scan 0 text).
Proof.
  unfold extractQuarkLinks. destruct (text =? "") eqn:E.
  - apply String.eqb_eq in E. subst text. reflexivity.
  - cbn [orb]. destruct (blank text) eqn:B.
    + rewrite scan_blank by exact B. reflexivity.
    + destruct (scan 0 text); reflexivity.
Qed.

(** What a detected link looks like. *)
Lemma extractQuarkLinks_In (text link : string) :
  In link (extractQuarkLinks text) ->
  exists id, link = share_prefix ++ id /\ id <> "" /\ all_alnum id = true.
Proof.
  rewrite extractQuarkLinks_scan. unfold spread_Set. rewrite add_all_In.
  intros [[] | H]. exact (scan_In _ _ _ H).
Qed.

Lemma extractQuarkLinks_NoDup (text : string) : NoDup (extractQuarkLinks text).
Proof. rewrite extractQuarkLinks_scan. apply add_all_NoDup. constructor. Qed.

(** X1: every link that [extractQuarkLinks] finds in a text is the canonical
    prefix followed by a non-empty run of letters and digits; it passes
    [isValidQuarkUrl], and [getIdFromUrl] returns that run for it. *)
Theorem extractQuarkLinks_valid (text link : string) :
  In link (extractQuarkLinks text) ->
  isValidQuarkUrl link = true /\
  exists id, link = share_prefix ++ id /\ id <> "" /\ all_alnum id = true
             /\ getIdFromUrl link = id.
Proof.
  rewrite extractQuarkLinks_scan. unfold spread_Set. rewrite add_all_In.
  intros [[] | H]. apply scan_In in H as (id & -> & N & A).
  pose proof (all_alnum_word _ A) as Hw. split.
  - unfold isValidQuarkUrl. rewrite strip_prefix_app.
    destruct id as [|c id]; [congruence|].
    simpl in Hw. apply andb_true_iff in Hw as [Hc _]. exact Hc.
  - exists id. repeat split; [exact N | exact A |].
    rewrite getIdFromUrl_share_prefix; rewrite take_word_all_word by exact Hw;
      [reflexivity | exact N].
Qed.

Lemma extractQuarkLinks_valid_witness :
  isValidQuarkUrl "https://pan.quark.cn/s/abc123" = true /\
  exists id, "https://pan.quark.cn/s/abc123" = share_prefix ++ id /\ id <> ""
             /\ all_alnum id = true
             /\ getIdFromUrl "https://pan.quark.cn/s/abc123" = id.
Proof.
  apply (extractQuarkLinks_valid
           "see https://pan.quark.cn/s/abc123, then https://pan.quark.cn/s/x9").
  vm_compute. left. reflexivity.
Defined.

(** X2: the links [extractQuarkLinks] returns are the matches of the pattern
    in the text, each once, in the order of their first occurrence. *)
Theorem extractQuarkLinks_distinct (text : string) :
  NoDup (extractQuarkLinks text) /\
  (forall link, In link (extractQuarkLinks text) <-> In link (scan 0 text)) /\
  (forall first rest,
      scan 0 text = first :: rest ->
      extractQuarkLinks text
      = first :: spread_Set (filter (fun link => negb (link =? first)) rest)).
Proof.
  rewrite extractQuarkLinks_scan. split; [|split].
  - apply add_all_NoDup. constructor.
  - intros link. unfold spread_Set. rewrite add_all_In. simpl. intuition.
  - intros first rest ->. apply spread_Set_cons.
Qed.

Lemma extractQuarkLinks_distinct_witness :
  extractQuarkLinks
    "https://pan.quark.cn/s/a1 https://pan.quark.cn/s/b2 https://pan.quark.cn/s/a1"
  = ["https://pan.quark.cn/s/a1"; "https://pan.quark.cn/s/b2"].
Proof.
  rewrite (proj2 (proj2 (extractQuarkLinks_distinct
     "https://pan.quark.cn/s/a1 https://pan.quark.cn/s/b2 https://pan.quark.cn/s/a1"))
             "https://pan.quark.cn/s/a1"
             ["https://pan.quark.cn/s/b2"; "https://pan.quark.cn/s/a1"] eq_refl).
  reflexivity.
Defined.

(** The matches in a share URL of the canonical shape: its prefix and the
    letters and digits at the head of its identifier, if there are any. *)
Lemma scan_canonical (id : string) :
  all_word id = true ->
  scan 0 (share_prefix ++ id)
  = match take_alnum id with
    | EmptyString => []
    | run => [share_prefix ++ run]
    end.
Proof.
  intros Hw. destruct (take_alnum_split id) as (rest & E & Hrest).
  specialize (Hrest Hw).
  destruct (take_alnum id) as [|c run] eqn:T.
  - unfold share_prefix. cbn [append].
    rewrite scan_miss.
    2:{ change (link_here (share_prefix ++ id) = None). rewrite link_here_app, T.
        reflexivity. }
    repeat (rewrite scan_miss by reflexivity).
    apply scan_all_word. exact Hw.
  - assert (L : link_here (share_prefix ++ id) = Some (share_prefix ++ String c run)).
    { rewrite link_here_app, T. reflexivity. }
    unfold share_prefix in L |- *. cbn [append] in L |- *.
    rewrite (scan_hit _ _ _ L). f_equal.
    change (scan (String.length ("ttps://pan.quark.cn/s/" ++ String c run))
              ("ttps://pan.quark.cn/s/" ++ id) = []).
    rewrite E at 1.
    replace ("ttps://pan.quark.cn/s/" ++ String c run ++ rest)
      with (("ttps://pan.quark.cn/s/" ++ String c run) ++ rest).
    2:{ clear. cbn [append]. reflexivity. }
    rewrite <- (Nat.add_0_r (String.length _)). rewrite scan_skip_app.
    apply scan_all_word. exact Hrest.
Qed.

(** X3: in batch mode a share URL of the canonical shape is found whole
    exactly when its identifier is made of letters and digits; an
    identifier with an underscore, which [isValidQuarkUrl] accepts, is cut
    at its first underscore or not found at all. *)
Theorem extractQuarkLinks_canonical (url id : string) :
  canonical_share_url url id ->
  extractQuarkLinks url
  = match take_alnum id with
    | EmptyString => []
    | run => [share_prefix ++ run]
    end /\
  (extractQuarkLinks url = [url] <-> all_alnum id = true).
Proof.
  intros (-> & N & Hw).
  assert (E : extractQuarkLinks (share_prefix ++ id)
              = match take_alnum id with
                | EmptyString => []
                | run => [share_prefix ++ run]
                end).
  { rewrite extractQuarkLinks_scan, scan_canonical by exact Hw.
    destruct (take_alnum id); reflexivity. }
  split; [exact E|]. rewrite E. split.
  - destruct (take_alnum id) as [|c run] eqn:T; [discriminate|].
    intros H. injection H as H.
    rewrite <- H, <- T. apply all_alnum_take.
  - intros A. rewrite take_alnum_all by exact A.
    destruct id; [congruence | reflexivity].
Qed.

Lemma extractQuarkLinks_canonical_witness :
  extractQuarkLinks "https://pan.quark.cn/s/ab_12" = ["https://pan.quark.cn/s/ab"] /\
  UrlUtils.isValidQuarkUrl "https://pan.quark.cn/s/ab_12" = true.
Proof.
  split; [|reflexivity].
  apply (extractQuarkLinks_canonical "https://pan.quark.cn/s/ab_12" "ab_12").
  split; [reflexivity | split; [discriminate | reflexivity]].
Defined.

End LinkFacts.

(** ** The cost of a call: fetches and waits of [request] and [task] *)

Module ScheduleFacts.

Import QuarkWebService Timeline AsyncFacts RequestFacts ProtocolFacts.

Lemma calls_app (tr1 tr2 : list event) : calls (tr1 ++ tr2) = (calls tr1 ++ calls tr2)%list.
Proof. apply flat_map_app. Qed.

Lemma sleeps_app (tr1 tr2 : list event) : sleeps (tr1 ++ tr2) = (sleeps tr1 ++ sleeps tr2)%list.
Proof. apply flat_map_app. Qed.

Lemma reports_app (tr1 tr2 : list event) :
  reports (tr1 ++ tr2) = (reports tr1 ++ reports tr2)%list.
Proof. apply flat_map_app. Qed.

Lemma repeat_snoc {A} (x : A) (n : nat) : (repeat x n ++ [x])%list = x :: repeat x n.
Proof. induction n as [|n IH]; simpl; [reflexivity|]. rewrite IH. reflexivity. Qed.

Section Yields.

Variable W : Type.

Local Abbreviation net := (net W).

Lemma yields_ret {A} (a : A) (st : net) : yields (ret a) st (Ok a) (world st) [].
Proof. unfold yields, ret. rewrite app_nil_r. destruct st; reflexivity. Qed.

Lemma yields_ret_at {A} (a : A) (st : net) (w : W) :
  world st = w -> yields (ret a) st (Ok a) w [].
Proof. intros <-. apply yields_ret. Qed.

Lemma yields_world {A} (m : M net A) (st : net) (r : res A) (w w' : W)
  (evs : list event) :
  yields m st r w evs -> w = w' -> yields m st r w' evs.
Proof. intros H <-. exact H. Qed.

Lemma yields_throw {A} (e : thrown) (st : net) :
  yields (@throw net A e) st (Throw e) (world st) [].
Proof. unfold yields, throw. rewrite app_nil_r. destruct st; reflexivity. Qed.

Lemma yields_lift_res {A} (r : res A) (st : net) :
  yields (lift_res r) st r (world st) [].
Proof. unfold yields, lift_res. rewrite app_nil_r. destruct st; reflexivity. Qed.

Lemma yields_emit (e : event) (st : net) : yields (emit W e) st (Ok tt) (world st) [e].
Proof. reflexivity. Qed.

Lemma yields_bind {A B} (m : M net A) (k : A -> M net B) (st : net) (a : A)
  (w1 : W) (evs1 : list event) (r : res B) (w2 : W) (evs2 : list event) :
  yields m st (Ok a) w1 evs1 ->
  yields (k a) (mkNet w1 (trace st ++ evs1)) r w2 evs2 ->
  yields (bind m k) st r w2 (evs1 ++ evs2).
Proof.
  unfold yields. intros H1 H2. unfold bind. rewrite H1, H2. cbn [trace].
  rewrite app_assoc. reflexivity.
Qed.

Lemma yields_bind_throw {A B} (m : M net A) (k : A -> M net B) (st : net)
  (e : thrown) (w1 : W) (evs1 : list event) :
  yields m st (Throw e) w1 evs1 -> yields (bind m k) st (Throw e) w1 evs1.
Proof. unfold yields. intros H1. unfold bind. rewrite H1. reflexivity. Qed.

Lemma yields_try_ok {A} (m : M net A) (h : thrown -> M net A) (st : net) (a : A)
  (w1 : W) (evs1 : list event) :
  yields m st (Ok a) w1 evs1 -> yields (try_catch m h) st (Ok a) w1 evs1.
Proof. unfold yields. intros H1. unfold try_catch. rewrite H1. reflexivity. Qed.

Lemma yields_try_caught {A} (m : M net A) (h : thrown -> M net A) (st : net)
  (e : thrown) (w1 : W) (evs1 : list event) (r : res A) (w2 : W)
  (evs2 : list event) :
  yields m st (Throw e) w1 evs1 ->
  yields (h e) (mkNet w1 (trace st ++ evs1)) r w2 evs2 ->
  yields (try_catch m h) st r w2 (evs1 ++ evs2).
Proof.
  unfold yields. intros H1 H2. unfold try_catch. rewrite H1, H2. cbn [trace].
  rewrite app_assoc. reflexivity.
Qed.

(** The shared [catch] of the helpers: one line in the log. *)
Lemma yields_log_and_return {A} (label : string) (fallback : A) (name msg : string)
  (st : net) :
  yields (log_and_return W label fallback (ErrorObj name msg)) st (Ok fallback)
    (world st) [ELog LError label].
Proof. reflexivity. Qed.

End Yields.

Section Cost.

Variable W : Type.
Variable fetch : api_call -> W -> fetch_outcome * W.

Local Abbreviation net := (net W).
Local Abbreviation request_loop := (request_loop W fetch).
Local Abbreviation request := (request W fetch).
Local Abbreviation task_loop := (task_loop W fetch).
Local Abbreviation task := (task W fetch).
Local Abbreviation after := (after_fetches fetch).

(** The [catch] of [request] waits exactly when another attempt follows. *)
Lemma on_attempt_error_waits (retries attempt : nat) (name msg : string) (st : net) :
  exists evs,
    yields (on_attempt_error W retries attempt (ErrorObj name msg)) st (Ok tt)
      (world st) evs /\
    calls evs = [] /\
    sleeps evs = if (attempt <? retries)%nat then [backoff attempt] else [].
Proof.
  unfold yields, QuarkWebService.on_attempt_error, bind, log, sleep, emit, ret.
  destruct (name =? "AbortError");
    [| destruct (includes msg "ECONNRESET" || includes msg "network")];
    destruct (attempt <? retries)%nat; cbn [world trace];
    rewrite <- ?app_assoc; eexists; (split; [reflexivity | split; reflexivity]).
Qed.

(** One failed attempt: the fetch, the log line, the wait if there is one. *)
Lemma request_loop_failed (c : api_call) (retries attempt left : nat)
  (lastError : thrown) (st : net) (e : thrown) :
  read_response (fst (fetch c (world st))) = Throw e ->
  exists evs,
    calls evs = [c] /\
    sleeps evs = (if (attempt <? retries)%nat then [backoff attempt] else []) /\
    request_loop c retries attempt (S left) lastError st
    = request_loop c retries (S attempt) left e
        (mkNet (snd (fetch c (world st))) (trace st ++ evs)).
Proof.
  intros R. rewrite request_loop_step. cbv zeta. rewrite R.
  destruct (read_response_throws _ _ R) as (name & msg & ->).
  destruct (on_attempt_error_waits retries attempt name msg
              (mkNet (snd (fetch c (world st))) (trace st ++ [EFetch c])))
    as (evs & E & C & Sl).
  unfold yields in E. rewrite E. cbn [world trace].
  exists ([EFetch c] ++ evs)%list. rewrite calls_app, sleeps_app, C, Sl, app_assoc.
  repeat split.
Qed.

(** The attempts of [request] up to the first one that is answered. *)
Lemma request_loop_first_success (c : api_call) (retries : nat) (v : json) :
  forall j attempt left lastError (st : net),
    j < left -> attempt + left = S retries ->
    (forall i, i < j ->
       exists e, read_response (fst (fetch c (after c i (world st)))) = Throw e) ->
    read_response (fst (fetch c (after c j (world st)))) = Ok v ->
    exists evs,
      yields (request_loop c retries attempt left lastError) st (Ok v)
        (after c (S j) (world st)) evs /\
      calls evs = repeat c (S j) /\
      sleeps evs = map backoff (seq attempt j).
Proof.
  induction j as [|j IH]; intros attempt left lastError st Hj Ha Hfail Hok;
    (destruct left as [|left]; [lia|]).
  - exists [EFetch c]. unfold yields. rewrite request_loop_step. cbv zeta.
    cbn [after_fetches] in Hok |- *. rewrite Hok. repeat split.
  - destruct (Hfail 0 ltac:(lia)) as (e & R). cbn [after_fetches] in R.
    destruct (request_loop_failed c retries attempt left lastError st e R)
      as (evs1 & C1 & S1 & E1).
    assert (Hlt : (attempt <? retries)%nat = true) by (apply Nat.ltb_lt; lia).
    rewrite Hlt in S1.
    destruct (IH (S attempt) left e
                (mkNet (snd (fetch c (world st))) (trace st ++ evs1)))
      as (evs2 & E2 & C2 & S2).
    + lia.
    + lia.
    + intros i Hi. cbn [world]. apply (Hfail (S i)). lia.
    + exact Hok.
    + exists (evs1 ++ evs2)%list. unfold yields in *. rewrite E1, E2.
      cbn [world trace]. rewrite calls_app, sleeps_app, C1, C2, S1, S2, app_assoc.
      repeat split.
Qed.

(** The attempts of [request] when none is answered. *)
Lemma request_loop_exhausted (c : api_call) (retries : nat) :
  forall left attempt lastError (st : net),
    attempt + left = S retries ->
    (forall i, i < left ->
       exists e, read_response (fst (fetch c (after c i (world st)))) = Throw e) ->
    exists e evs,
      yields (request_loop c retries attempt left lastError) st (Throw e)
        (after c left (world st)) evs /\
      match left with
      | O => e = lastError
      | S i => read_response (fst (fetch c (after c i (world st)))) = Throw e
      end /\
      calls evs = repeat c left /\
      sleeps evs = map backoff (seq attempt (left - 1)).
Proof.
  induction left as [|left IH]; intros attempt lastError st Ha Hfail.
  - exists lastError, [ELog LError "请求最终失败"]. repeat split.
  - destruct (Hfail 0 ltac:(lia)) as (e & R). cbn [after_fetches] in R.
    destruct (request_loop_failed c retries attempt left lastError st e R)
      as (evs1 & C1 & S1 & E1).
    destruct (IH (S attempt) e
                (mkNet (snd (fetch c (world st))) (trace st ++ evs1)))
      as (e2 & evs2 & E2 & L2 & C2 & S2).
    + lia.
    + intros i Hi. cbn [world]. apply (Hfail (S i)). lia.
    + exists e2, (evs1 ++ evs2)%list. unfold yields in *. rewrite E1, E2.
      cbn [world trace after_fetches] in L2 |- *.
      rewrite calls_app, sleeps_app, C1, C2, S1, S2, app_assoc.
      split; [reflexivity | split; [|split]].
      * destruct left as [|left]; [|exact L2].
        subst e2. cbn [after_fetches]. exact R.
      * reflexivity.
      * destruct left as [|left].
        -- assert (Hlt : (attempt <? retries)%nat = false)
             by (apply Nat.ltb_ge; lia).
           rewrite Hlt. reflexivity.
        -- assert (Hlt : (attempt <? retries)%nat = true)
             by (apply Nat.ltb_lt; lia).
           rewrite Hlt. cbn [Nat.sub]. rewrite Nat.sub_0_r. reflexivity.
Qed.

(** Either some attempt among the first [n] is answered, and there is a
    first one, or none is. *)
Lemma first_answer (c : api_call) (w : W) (n : nat) :
  (exists j v, j < n /\
     (forall i, i < j ->
        exists e, read_response (fst (fetch c (after c i w))) = Throw e) /\
     read_response (fst (fetch c (after c j w))) = Ok v) \/
  (forall i, i < n ->
     exists e, read_response (fst (fetch c (after c i w))) = Throw e).
Proof.
  induction n as [|n [(j & v & Hj & Hfail & Hok) | Hall]].
  - right. intros i Hi. lia.
  - left. exists j, v. repeat split; [lia | exact Hfail | exact Hok].
  - destruct (read_response (fst (fetch c (after c n w)))) as [v|e] eqn:R.
    + left. exists n, v. repeat split; [lia | | exact R].
      intros i Hi. apply Hall. exact Hi.
    + right. intros i Hi. destruct (Nat.eq_dec i n) as [->|Hne]; [eauto|].
      apply Hall. lia.
Qed.

(** The fetches and the waits of [request], whatever the upstream does. *)
Lemma request_cost (c : api_call) (retries : nat) (st : net) :
  exists r w' k evs,
    yields (request c retries) st r w' evs /\
    k <= retries /\
    calls evs = repeat c k /\
    sleeps evs = map backoff (seq 1 (k - 1)) /\
    match r with
    | Ok _ => 1 <= k
    | Throw _ => k = retries
    end.
Proof.
  destruct (first_answer c (world st) retries)
    as [(j & v & Hj & Hfail & Hok) | Hall].
  - destruct (request_loop_first_success c retries v j 1 retries ThrownUndefined st
                Hj eq_refl Hfail Hok) as (evs & E & C & Sl).
    exists (Ok v), (after c (S j) (world st)), (S j), evs.
    cbn [Nat.sub]. rewrite Nat.sub_0_r.
    repeat split; try assumption; lia.
  - destruct (request_loop_exhausted c retries retries 1 ThrownUndefined st
                eq_refl Hall) as (e & evs & E & _ & C & Sl).
    exists (Throw e), (after c retries (world st)), retries, evs.
    repeat split; try assumption; lia.
Qed.

Lemma request_answered (c : api_call) (v : json) (st : net) :
  answers fetch c v ->
  yields (request c default_retries) st (Ok v) (snd (fetch c (world st))) [EFetch c].
Proof.
  intros H. destruct (H (world st)) as (r & Hr & Hok & Hb).
  apply (request_first_ok W fetch c 2 st r v Hr Hok Hb).
Qed.

Lemma request_failing (c : api_call) (st : net) :
  fails fetch c ->
  exists name msg w' evs,
    yields (request c default_retries) st (Throw (ErrorObj name msg)) w' evs /\
    calls evs = repeat c 3 /\ sleeps evs = [1000; 2000].
Proof.
  intros H.
  destruct (request_loop_exhausted c 3 3 1 ThrownUndefined st eq_refl)
    as (e & evs & E & L & C & Sl).
  - intros i _. destruct (H (after c i (world st))) as (name & msg & R). eauto.
  - destruct (H (after c 2 (world st))) as (name & msg & R).
    rewrite R in L. injection L as <-.
    exists name, msg, (after c 3 (world st)), evs. auto.
Qed.

(** The polls of a job that shows no status. *)
Lemma task_loop_pending (taskId : json) (task_id : string) :
  to_string taskId = Ok task_id ->
  forall left i (st : net),
    (forall j, i <= j < i + left ->
       exists vj, answers fetch (CallTask task_id j) vj /\
                  truthy (get (get vj "data") "status") = false) ->
    exists w' evs,
      yields (task_loop taskId i left) st (Ok None) w' evs /\
      calls evs = map (CallTask task_id) (seq i left) /\
      sleeps evs = repeat 1000 left.
Proof.
  intros T. induction left as [|left IH]; intros i st Hpending.
  - exists (world st), []. split; [apply yields_ret | split; reflexivity].
  - destruct (Hpending i ltac:(lia)) as (vi & Hvi & Hsi).
    pose proof (request_answered _ _ st Hvi) as E1.
    destruct (IH (S i)
                (mkNet (snd (fetch (CallTask task_id i) (world st)))
                   (trace st ++ [EFetch (CallTask task_id i)] ++ [ESleep 1000])))
      as (w' & evs & E2 & C2 & S2).
    { intros j Hj. apply Hpending. lia. }
    exists w', ([EFetch (CallTask task_id i)] ++ [ESleep 1000] ++ evs)%list.
    split; [|split].
    + unfold yields. rewrite (task_loop_step W fetch _ _ _ _ _ T).
      eapply yields_bind; [exact E1|]. rewrite Hsi.
      eapply yields_bind; [apply yields_emit|].
      cbn [world trace]. rewrite <- app_assoc. exact E2.
    + rewrite !calls_app, C2. reflexivity.
    + rewrite !sleeps_app, S2. reflexivity.
Qed.

(** The polls of a job up to a poll that fails. *)
Lemma task_loop_failed_poll (taskId : json) (task_id : string) :
  to_string taskId = Ok task_id ->
  forall k i left (st : net),
    k < left ->
    (forall j, i <= j < i + k ->
       exists vj, answers fetch (CallTask task_id j) vj /\
                  truthy (get (get vj "data") "status") = false) ->
    fails fetch (CallTask task_id (i + k)) ->
    exists name msg w' evs,
      yields (task_loop taskId i left) st (Throw (ErrorObj name msg)) w' evs /\
      calls evs = (map (CallTask task_id) (seq i k)
                   ++ repeat (CallTask task_id (i + k)) 3)%list /\
      sleeps evs = (repeat 1000 k ++ [1000; 2000])%list.
Proof.
  intros T. induction k as [|k IH]; intros i left st Hk Hpending Hfails;
    (destruct left as [|left]; [lia|]).
  - rewrite Nat.add_0_r in *.
    destruct (request_failing _ st Hfails) as (name & msg & w' & evs & E & C & Sl).
    exists name, msg, w', evs. split; [|split; assumption].
    unfold yields. rewrite (task_loop_step W fetch _ _ _ _ _ T).
    apply yields_bind_throw. exact E.
  - destruct (Hpending i ltac:(lia)) as (vi & Hvi & Hsi).
    pose proof (request_answered _ _ st Hvi) as E1.
    destruct (IH (S i) left
                (mkNet (snd (fetch (CallTask task_id i) (world st)))
                   (trace st ++ [EFetch (CallTask task_id i)] ++ [ESleep 1000])))
      as (name & msg & w' & evs & E2 & C2 & S2).
    { lia. }
    { intros j Hj. apply Hpending. lia. }
    { replace (S i + k) with (i + S k) by lia. exact Hfails. }
    exists name, msg, w',
      ([EFetch (CallTask task_id i)] ++ [ESleep 1000] ++ evs)%list.
    split; [|split].
    + unfold yields. rewrite (task_loop_step W fetch _ _ _ _ _ T).
      eapply yields_bind; [exact E1|]. rewrite Hsi.
      eapply yields_bind; [apply yields_emit|].
      cbn [world trace]. rewrite <- app_assoc. exact E2.
    + rewrite !calls_app, C2. replace (S i + k) with (i + S k) by lia. reflexivity.
    + rewrite !sleeps_app, S2. reflexivity.
Qed.

End Cost.

(** X4: [request] returns the body of the first attempt that is answered
    with a 2xx response that parses, provided it comes within the budget:
    when the attempts before the attempt [j + 1] fail, for whatever reason,
    the call has made [j + 1] fetches, all of the same call, and has waited
    [backoff 1], ..., [backoff j] between them. *)
Theorem request_first_success :
  forall (W : Type) (fetch : api_call -> W -> fetch_outcome * W)
    (c : api_call) (retries j : nat) (st : net W) (v : json),
    j < retries ->
    (forall i, i < j ->
       exists e,
         read_response (fst (fetch c (after_fetches fetch c i (world st)))) = Throw e) ->
    read_response (fst (fetch c (after_fetches fetch c j (world st)))) = Ok v ->
    exists evs,
      yields (request W fetch c retries) st (Ok v)
        (after_fetches fetch c (S j) (world st)) evs /\
      calls evs = repeat c (S j) /\
      sleeps evs = map backoff (seq 1 j).
Proof.
  intros W fetch c retries j st v Hj Hfail Hok.
  apply request_loop_first_success; [exact Hj | lia | exact Hfail | exact Hok].
Qed.

Lemma request_first_success_witness :
  exists evs,
    yields (request nat Scenario.once_503 (CallToken "abc123") 3) (mkNet 0 [])
      (Ok (Scenario.data_of [("stoken", JStr "tok1")])) 2 evs /\
    calls evs = [CallToken "abc123"; CallToken "abc123"] /\
    sleeps evs = [1000].
Proof.
  apply (request_first_success nat Scenario.once_503 (CallToken "abc123") 3 1
           (mkNet 0 [])).
  - lia.
  - intros i Hi. assert (i = 0) as -> by lia. eexists. reflexivity.
  - reflexivity.
Defined.

(** X5: when none of its attempts is answered, [request] throws the error
    of the last one after exactly [retries] fetches, with a wait after each
    attempt but the last; with a budget of zero it makes no fetch at all
    and throws [undefined]. *)
Theorem request_gives_up :
  forall (W : Type) (fetch : api_call -> W -> fetch_outcome * W)
    (c : api_call) (retries : nat) (st : net W),
    (forall i, i < retries ->
       exists e,
         read_response (fst (fetch c (after_fetches fetch c i (world st)))) = Throw e) ->
    exists e evs,
      yields (request W fetch c retries) st (Throw e)
        (after_fetches fetch c retries (world st)) evs /\
      match retries with
      | O => e = ThrownUndefined
      | S i =>
          read_response (fst (fetch c (after_fetches fetch c i (world st)))) = Throw e
      end /\
      calls evs = repeat c retries /\
      sleeps evs = map backoff (seq 1 (retries - 1)).
Proof.
  intros W fetch c retries st Hfail.
  apply request_loop_exhausted; [lia | exact Hfail].
Qed.

Lemma request_gives_up_witness :
  exists e evs,
    yields (request unit Scenario.always_500 (CallToken "abc123") 3) Scenario.start
      (Throw e) tt evs /\
    e = Error "HTTP 500: upstream down" /\
    calls evs = repeat (CallToken "abc123") 3 /\
    sleeps evs = [1000; 2000].
Proof.
  destruct (request_gives_up unit Scenario.always_500 (CallToken "abc123") 3
              Scenario.start) as (e & evs & E & L & C & Sl).
  - intros i _. eexists. reflexivity.
  - exists e, evs. repeat split; try assumption.
    cbn in L. injection L as <-. reflexivity.
Defined.

(** X6: whatever the upstream does, [request] makes between one fetch and
    [retries] fetches, all of the call it was given; it waits only between
    two attempts, [backoff 1], [backoff 2], ... in this order, and it throws
    only after it has used every attempt. With the budget of three that
    every helper uses, the waits are at most one second and then two. *)
Theorem request_schedule :
  forall (W : Type) (fetch : api_call -> W -> fetch_outcome * W)
    (c : api_call) (retries : nat) (st : net W),
    exists r w' k evs,
      yields (request W fetch c retries) st r w' evs /\
      k <= retries /\
      calls evs = repeat c k /\
      sleeps evs = map backoff (seq 1 (k - 1)) /\
      match r with
      | Ok _ => 1 <= k
      | Throw _ => k = retries
      end /\
      (retries = default_retries ->
       sleeps evs = [] \/ sleeps evs = [1000] \/ sleeps evs = [1000; 2000]).
Proof.
  intros W fetch c retries st.
  destruct (request_cost W fetch c retries st) as (r & w' & k & evs & E & Hk & C & Sl & R).
  exists r, w', k, evs. repeat split; try assumption.
  intros ->. rewrite Sl. unfold default_retries in Hk.
  destruct k as [|[|[|[|k]]]]; [auto | auto | auto | auto | lia].
Qed.

Lemma request_schedule_witness :
  exists r w' k evs,
    yields (request unit Scenario.always_500 (CallToken "abc123") default_retries)
      Scenario.start r w' evs /\
    k <= default_retries /\
    (sleeps evs = [] \/ sleeps evs = [1000] \/ sleeps evs = [1000; 2000]).
Proof.
  destruct (request_schedule unit Scenario.always_500 (CallToken "abc123")
              default_retries Scenario.start)
    as (r & w' & k & evs & E & Hk & _ & _ & _ & D).
  exists r, w', k, evs. split; [exact E | split; [exact Hk | exact (D eq_refl)]].
Defined.

(** X7: from the first attempt on, the wait before the next attempt is at
    least one second and at most five, it never shrinks from one attempt to
    the next, and it is five seconds from the fourth attempt on. *)
Theorem backoff_bounds (attempt : nat) :
  1 <= attempt ->
  1000 <= backoff attempt <= 5000 /\
  backoff attempt <= backoff (S attempt) /\
  (attempt <= 3 -> backoff attempt = 1000 * 2 ^ (attempt - 1)) /\
  (4 <= attempt -> backoff attempt = 5000).
Proof.
  intros H. unfold backoff.
  assert (P : forall n, 1 <= 2 ^ n) by (intros n; induction n; simpl; lia).
  assert (Q : forall n, 3 <= n -> 8 <= 2 ^ n).
  { intros n Hn. replace n with (3 + (n - 3)) by lia. rewrite Nat.pow_add_r.
    specialize (P (n - 3)). simpl. lia. }
  assert (M : 2 ^ (S attempt - 1) = 2 * 2 ^ (attempt - 1)).
  { replace (S attempt - 1) with (S (attempt - 1)) by lia. reflexivity. }
  rewrite M. pose proof (P (attempt - 1)) as P1.
  repeat split.
  - apply Nat.min_glb; lia.
  - apply Nat.le_min_r.
  - apply Nat.min_le_compat_r. lia.
  - intros Hle. apply Nat.min_l.
    destruct attempt as [|[|[|[|a]]]]; simpl; lia.
  - intros Hge. apply Nat.min_r. specialize (Q (attempt - 1) ltac:(lia)). lia.
Qed.

Lemma backoff_bounds_witness : 1000 <= backoff 2 <= 5000.
Proof. exact (proj1 (backoff_bounds 2 ltac:(lia))). Defined.

(** X8: a job whose identifier is written [task_id] in the path of its
    polls, and whose first [maxTries] polls are all answered without a
    status, costs exactly [maxTries] polls, numbered from 0, and [maxTries]
    waits of one second, the last of them after the last poll; [task] then
    returns [null]. *)
Theorem task_exhausted_cost :
  forall (W : Type) (fetch : api_call -> W -> fetch_outcome * W)
    (taskId : json) (task_id : string) (maxTries : nat) (st : net W),
    to_string taskId = Ok task_id ->
    (forall i, i < maxTries ->
       exists vi, answers fetch (CallTask task_id i) vi /\
                  truthy (get (get vi "data") "status") = false) ->
    exists w' evs,
      yields (task W fetch taskId maxTries) st (Ok None) w' evs /\
      calls evs = map (CallTask task_id) (seq 0 maxTries) /\
      sleeps evs = repeat 1000 maxTries.
Proof.
  intros W fetch taskId task_id maxTries st T Hpending.
  destruct (task_loop_pending W fetch taskId task_id T maxTries 0 st)
    as (w' & evs & E & C & Sl).
  { intros j Hj. apply Hpending. lia. }
  exists w', evs. split; [|split; assumption].
  unfold task. apply yields_try_ok. exact E.
Qed.

Lemma task_exhausted_cost_witness :
  exists w' evs,
    yields (task unit Scenario.stuck_task (JStr "job") default_maxTries)
      Scenario.start (Ok None) w' evs /\
    List.length (calls evs) = 10 /\
    sleeps evs = repeat 1000 10.
Proof.
  destruct (task_exhausted_cost unit Scenario.stuck_task (JStr "job") "job"
              default_maxTries Scenario.start eq_refl) as (w' & evs & E & C & Sl).
  - intros i _. exists (Scenario.data_of [("status", JNum 0)]). split.
    + intros w. eexists. repeat split.
    + reflexivity.
  - exists w', evs. split; [exact E | split; [|exact Sl]].
    rewrite C. reflexivity.
Defined.

(** X9: a poll that fails ends the polling at once. For a job whose
    identifier is written [task_id] in the path of its polls: when the polls
    before the poll [k] are answered without a status and the poll [k] fails on
    each of its three attempts, [task] returns [null], as it does for a job
    that never resolves, after [k] polls and three fetches of the poll [k];
    it does not go on to the poll [k + 1]. *)
Theorem task_failed_poll_cost :
  forall (W : Type) (fetch : api_call -> W -> fetch_outcome * W)
    (taskId : json) (task_id : string) (maxTries k : nat) (st : net W),
    to_string taskId = Ok task_id ->
    k < maxTries ->
    (forall i, i < k ->
       exists vi, answers fetch (CallTask task_id i) vi /\
                  truthy (get (get vi "data") "status") = false) ->
    fails fetch (CallTask task_id k) ->
    exists w' evs,
      yields (task W fetch taskId maxTries) st (Ok None) w' evs /\
      calls evs = (map (CallTask task_id) (seq 0 k)
                   ++ repeat (CallTask task_id k) 3)%list /\
      sleeps evs = (repeat 1000 k ++ [1000; 2000])%list.
Proof.
  intros W fetch taskId task_id maxTries k st T Hk Hpending Hfails.
  destruct (task_loop_failed_poll W fetch taskId task_id T k 0 maxTries st Hk)
    as (name & msg & w' & evs & E & C & Sl).
  { intros j Hj. apply Hpending. lia. }
  { exact Hfails. }
  exists w', (evs ++ [ELog LError "执行任务失败:"])%list. split; [|split].
  - unfold task. eapply yields_try_caught; [exact E|].
    apply yields_log_and_return.
  - rewrite calls_app, C. cbn [calls flat_map]. rewrite app_nil_r. reflexivity.
  - rewrite sleeps_app, Sl. cbn [sleeps flat_map]. rewrite app_nil_r. reflexivity.
Qed.

Lemma task_failed_poll_cost_witness :
  exists w' evs,
    yields (task unit Scenario.always_500 (JStr "job") default_maxTries)
      Scenario.start (Ok None) w' evs /\
    calls evs = repeat (CallTask "job" 0) 3 /\
    sleeps evs = [1000; 2000].
Proof.
  apply (task_failed_poll_cost unit Scenario.always_500 (JStr "job") "job"
           default_maxTries 0 Scenario.start).
  - reflexivity.
  - unfold default_maxTries. lia.
  - intros i Hi. lia.
  - intros w. eexists. eexists. reflexivity.
Defined.

End ScheduleFacts.

(** ** [store]: where it stops, and what the progress callback is told *)

Module StoreCostFacts.

Import QuarkWebService Timeline AsyncFacts RequestFacts ProtocolFacts StoreFacts
  ScheduleFacts.

Section Silent.

Variable W : Type.
Variable fetch : api_call -> W -> fetch_outcome * W.
Variable text_gt_zero : string -> bool.

Local Abbreviation net := (net W).

Lemma unreported_ret {A} (a : A) : unreported (@ret net A a).
Proof.
  intros st r st' H. injection H as <- <-. exists []. rewrite app_nil_r. auto.
Qed.

Lemma unreported_throw {A} (e : thrown) : unreported (@throw net A e).
Proof.
  intros st r st' H. injection H as <- <-. exists []. rewrite app_nil_r. auto.
Qed.

Lemma unreported_lift_res {A} (x : res A) : unreported (@lift_res net A x).
Proof.
  intros st r st' H. injection H as <- <-. exists []. rewrite app_nil_r. auto.
Qed.

Lemma unreported_log (level : log_level) (label : string) :
  unreported (log W level label).
Proof. intros st r st' H. injection H as <- <-. exists [ELog level label]. auto. Qed.

Lemma unreported_sleep (ms : nat) : unreported (sleep W ms).
Proof. intros st r st' H. injection H as <- <-. exists [ESleep ms]. auto. Qed.

Lemma unreported_bind {A B} (m : M net A) (k : A -> M net B) :
  unreported m -> (forall a, unreported (k a)) -> unreported (bind m k).
Proof.
  intros Hm Hk st r st' H. unfold bind in H.
  destruct (m st) as [[a|e] st1] eqn:E1.
  - destruct (Hm _ _ _ E1) as (evs1 & T1 & R1).
    destruct (Hk a _ _ _ H) as (evs2 & T2 & R2).
    exists (evs1 ++ evs2)%list. rewrite T2, T1, app_assoc, reports_app, R1, R2. auto.
  - injection H as <- <-. exact (Hm _ _ _ E1).
Qed.

Lemma unreported_try_catch {A} (m : M net A) (h : thrown -> M net A) :
  unreported m -> (forall e, unreported (h e)) -> unreported (try_catch m h).
Proof.
  intros Hm Hh st r st' H. unfold try_catch in H.
  destruct (m st) as [[a|e] st1] eqn:E1.
  - injection H as <- <-. exact (Hm _ _ _ E1).
  - destruct (Hm _ _ _ E1) as (evs1 & T1 & R1).
    destruct (Hh e _ _ _ H) as (evs2 & T2 & R2).
    exists (evs1 ++ evs2)%list. rewrite T2, T1, app_assoc, reports_app, R1, R2. auto.
Qed.

Lemma unreported_do_fetch (c : api_call) : unreported (do_fetch W fetch c).
Proof.
  intros st r st' H. unfold do_fetch in H.
  destruct (fetch c (world st)) as [o w']. injection H as <- <-.
  exists [EFetch c]. auto.
Qed.

Ltac silent :=
  repeat first
    [ match goal with
      | H : forall _, unreported _ |- _ => apply H
      | H : forall _ _, unreported _ |- _ => apply H
      | H : forall _ _ _, unreported _ |- _ => apply H
      end
    | apply unreported_ret
    | apply unreported_throw
    | apply unreported_lift_res
    | apply unreported_log
    | apply unreported_sleep
    | apply unreported_do_fetch
    | match goal with
      | |- unreported (bind _ _) => apply unreported_bind; [|intros]
      | |- unreported (try_catch _ _) => apply unreported_try_catch; [|intros]
      | |- unreported (match ?x with _ => _ end) => destruct x
      | |- unreported (if ?x then _ else _) => destruct x
      end ].

Lemma unreported_request_loop (c : api_call) (retries : nat) :
  forall left attempt lastError,
    unreported (request_loop W fetch c retries attempt left lastError).
Proof.
  induction left as [|left IH]; intros attempt lastError;
    cbn [request_loop]; unfold attempt_once, on_attempt_error; silent.
Qed.

Lemma unreported_request (c : api_call) (retries : nat) :
  unreported (request W fetch c retries).
Proof. apply unreported_request_loop. Qed.

Lemma unreported_task_loop (taskId : json) :
  forall left i, unreported (task_loop W fetch taskId i left).
Proof.
  pose proof unreported_request as R.
  induction left as [|left IH]; intros i; cbn [task_loop]; silent.
Qed.

Lemma unreported_log_and_return {A} (label : string) (fallback : A) (e : thrown) :
  unreported (log_and_return W label fallback e).
Proof. unfold log_and_return. silent. Qed.

Lemma unreported_getStoken (pwdId : string) : unreported (getStoken W fetch pwdId).
Proof.
  pose proof unreported_request as R.
  unfold getStoken. silent. apply unreported_log_and_return.
Qed.

Lemma unreported_detail (pwdId : string) (stoken : json) :
  unreported (detail W fetch text_gt_zero pwdId stoken).
Proof.
  pose proof unreported_request as R.
  unfold detail. silent. apply unreported_log_and_return.
Qed.

Lemma unreported_saveTaskId (pwdId : string) (stoken firstId token : json) :
  unreported (saveTaskId W fetch pwdId stoken firstId token).
Proof.
  pose proof unreported_request as R.
  unfold saveTaskId. silent. apply unreported_log_and_return.
Qed.

Lemma unreported_task (taskId : json) (maxTries : nat) :
  unreported (task W fetch taskId maxTries).
Proof.
  unfold task. apply unreported_try_catch; [apply unreported_task_loop|].
  intros e. apply unreported_log_and_return.
Qed.

Lemma unreported_shareTaskId (fileId fileName : json) :
  unreported (shareTaskId W fetch fileId fileName).
Proof.
  pose proof unreported_request as R.
  unfold shareTaskId. silent. apply unreported_log_and_return.
Qed.

Lemma unreported_getShareLink (shareId : json) :
  unreported (getShareLink W fetch shareId).
Proof.
  pose proof unreported_request as R.
  unfold getShareLink. silent. apply unreported_log_and_return.
Qed.

(** *** The calls of the progress callback along the [try] block *)

Lemma reporting_bind {A B} (t1 t2 : list (Z * string * Z)) (m : M net A)
  (k : A -> M net B) :
  reporting t1 m -> (forall a, reporting t2 (k a)) -> reporting (t1 ++ t2) (bind m k).
Proof.
  intros Hm Hk st r st' H. unfold bind in H.
  destruct (m st) as [[a|e] st1] eqn:E1.
  - destruct (Hm _ _ _ E1) as (evs1 & T1 & R1).
    destruct (Hk a _ _ _ H) as (evs2 & T2 & R2).
    exists (evs1 ++ evs2)%list. rewrite T2, T1, app_assoc, reports_app, R1.
    split; [reflexivity|]. destruct r as [b|e].
    + rewrite R2. reflexivity.
    + destruct R2 as (Hne & rest & -> & Hrest). split; [exact Hne|].
      exists rest. rewrite app_assoc. auto.
  - injection H as <- <-. destruct (Hm _ _ _ E1) as (evs1 & T1 & Hne & rest & -> & Hrest).
    exists evs1. split; [exact T1|]. split; [exact Hne|].
    exists (rest ++ t2)%list. rewrite app_assoc. split; [reflexivity|].
    intros Hnil. apply Hrest. destruct rest; [reflexivity | discriminate].
Qed.

(** A step that reports nothing, before steps that report. *)
Lemma reporting_after {A B} (todo : list (Z * string * Z)) (m : M net A)
  (k : A -> M net B) :
  unreported m -> throws_errors m -> todo <> [] ->
  (forall a, reporting todo (k a)) -> reporting todo (bind m k).
Proof.
  intros Hm He Hne Hk st r st' H. unfold bind in H.
  destruct (m st) as [[a|e] st1] eqn:E1.
  - destruct (Hm _ _ _ E1) as (evs1 & T1 & R1).
    destruct (Hk a _ _ _ H) as (evs2 & T2 & R2).
    exists (evs1 ++ evs2)%list. rewrite T2, T1, app_assoc, reports_app, R1.
    split; [reflexivity|]. exact R2.
  - injection H as <- <-. destruct (Hm _ _ _ E1) as (evs1 & T1 & R1).
    exists evs1. split; [exact T1|]. split; [exact (He _ _ _ E1)|].
    exists todo. rewrite R1. split; [reflexivity | congruence].
Qed.

Lemma reporting_throw {A} (todo : list (Z * string * Z)) (name msg : string) :
  todo <> [] -> reporting todo (@throw net A (ErrorObj name msg)).
Proof.
  intros Hne st r st' H. injection H as <- <-. exists []. rewrite app_nil_r.
  split; [reflexivity|]. split; [discriminate|]. exists todo.
  split; [reflexivity | congruence].
Qed.

Lemma reporting_progress (f : callback) (step : Z) (msg : string) (pct : Z) :
  returns (Some f) -> reporting [(step, msg, pct)] (progress W (Some f) step msg pct).
Proof.
  intros Hf st r st' H. cbn [progress] in H. unfold bind, emit in H.
  cbn in Hf. rewrite Hf in H. injection H as <- <-.
  exists [EProgress step msg pct]. auto.
Qed.

(** The end of the [try] block: the last report, the name of the file as
    text, a log line, the result. *)
Lemma reporting_finish {A} (f : callback) (step : Z) (msg label : string) (pct : Z)
  (v : json) (k : string -> A) :
  returns (Some f) ->
  reporting [(step, msg, pct)]
    (progress W (Some f) step msg pct ;;;
     name <- lift_res (to_string v) ;;
     log W LInfo label ;;; ret (k name)).
Proof.
  intros Hf st r st' H. cbn [progress] in H. unfold bind, emit, log, ret, lift_res in H.
  cbn in Hf. rewrite Hf in H. destruct (to_string v) as [name|e] eqn:T.
  - injection H as <- <-. cbn [trace].
    exists [EProgress step msg pct; ELog LInfo label].
    rewrite <- app_assoc. auto.
  - injection H as <- <-. cbn [trace].
    exists [EProgress step msg pct]. split; [reflexivity|].
    rewrite (to_string_throws _ _ T). split; [discriminate|].
    exists []. auto.
Qed.

Lemma unreported_require (cond : bool) (msg : string) :
  unreported (require W cond msg).
Proof. destruct cond; [apply unreported_ret | apply unreported_throw]. Qed.

(** The first two lines of the [try] block of [store]. *)
Lemma try_start {A} (f : callback) (label : string) (step : Z) (msg : string)
  (pct : Z) (rest : M net A) (h : thrown -> M net A) (st : net) :
  returns (Some f) ->
  try_catch (log W LInfo label ;;; progress W (Some f) step msg pct ;;; rest) h st
  = try_catch rest h
      (mkNet (world st) (trace st ++ [ELog LInfo label; EProgress step msg pct])).
Proof.
  intros Hf. cbn in Hf. unfold try_catch, bind, log, emit. cbn [progress].
  unfold bind, emit. rewrite Hf. cbn [world trace]. rewrite <- app_assoc. reflexivity.
Qed.

Ltac report_steps Hf :=
  repeat first
    [ match goal with
      | |- reporting [_] (bind (progress _ (Some _) _ _ _) _) =>
          refine (reporting_finish _ _ _ _ _ _ (fun name => _) Hf)
      end
    | apply reporting_throw; discriminate
    | match goal with
      | |- reporting (?x :: ?rest) (bind (progress _ (Some _) _ _ _) _) =>
          apply (reporting_bind [x] rest); [apply reporting_progress; exact Hf | intros]
      | |- reporting _ (bind (require _ _ _) _) =>
          apply reporting_after;
          [apply unreported_require | apply throws_errors_require | discriminate
          | intros]
      | |- reporting _ (match ?x with _ => _ end) => destruct x
      end ].

(** The steps the callback is told after the first, along the [try] block. *)
Lemma store_reporting (url : string) (f : callback) (st : net) :
  returns (Some f) ->
  exists rest,
    store W fetch text_gt_zero url (Some f) st
    = try_catch rest
        (fun error =>
           msg <- lift_res (message_of error) ;;
           log W LError "转存失败:" ;;;
           progress W (Some f) (-1) ("转存失败: " ++ msg) 0 ;;;
           ret (mkOutcome false ("转存失败: " ++ msg) None))
        (mkNet (world st)
           (trace st ++ [ELog LInfo "开始转存文件"; EProgress 1 "解析链接" 10])) /\
    reporting (tl store_steps) rest /\
    ensures rest (fun o => success o = true).
Proof.
  intros Hf. unfold store, store_on. rewrite try_start by exact Hf.
  eexists. split; [reflexivity|]. cbn [self this_getStoken this_detail this_saveTaskId
    this_task this_shareTaskId this_getShareLink store_steps tl]. split.
  - report_steps Hf.
    apply reporting_after;
      [apply unreported_getStoken | apply total_throws_errors, total_getStoken
      | discriminate | intros stoken].
    report_steps Hf.
    apply reporting_after;
      [apply unreported_detail | apply total_throws_errors, total_detail
      | discriminate | intros detail_opt].
    report_steps Hf.
    apply reporting_after;
      [apply unreported_saveTaskId | apply total_throws_errors, total_saveTaskId
      | discriminate | intros saveTask].
    report_steps Hf.
    apply reporting_after;
      [apply unreported_task | apply total_throws_errors, total_task
      | discriminate | intros taskResponse].
    report_steps Hf.
    apply reporting_after;
      [apply unreported_shareTaskId | apply total_throws_errors, total_shareTaskId
      | discriminate | intros shareTask].
    report_steps Hf.
    apply reporting_after;
      [apply unreported_task | apply total_throws_errors, total_task
      | discriminate | intros shareTaskResponse].
    report_steps Hf.
    apply reporting_after;
      [apply unreported_getShareLink | apply total_throws_errors, total_getShareLink
      | discriminate | intros shareLink].
    report_steps Hf.
  - repeat first
      [ apply ensures_ret; reflexivity
      | apply ensures_throw
      | apply ensures_bind; intros
      | match goal with
        | |- ensures (match ?x with _ => _ end) _ => destruct x
        end ].
Qed.

Lemma yields_progress (cb : option callback) (step : Z) (msg : string) (pct : Z)
  (st : net) :
  returns cb ->
  yields (progress W cb step msg pct) st (Ok tt) (world st) (reported cb step msg pct).
Proof.
  destruct cb as [f|]; cbn [returns reported progress]; intros H.
  - unfold yields, bind, emit. rewrite H. reflexivity.
  - apply yields_ret.
Qed.

Lemma yields_log (level : log_level) (label : string) (st : net) :
  yields (log W level label) st (Ok tt) (world st) [ELog level label].
Proof. reflexivity. Qed.

(** [getStoken] against an upstream that gives no token: the empty string,
    after one to three fetches of the token call. *)
Lemma getStoken_refused (pwdId : string) (st : net) :
  token_refused fetch pwdId ->
  exists w' k evs,
    yields (getStoken W fetch pwdId) st (Ok (JStr "")) w' evs /\
    1 <= k <= 3 /\
    calls evs = repeat (CallToken pwdId) k /\
    reports evs = [].
Proof.
  intros Href.
  destruct (request_cost W fetch (CallToken pwdId) default_retries st)
    as (r & w' & k & evs & E & Hk & C & _ & R).
  assert (Rep : reports evs = []).
  { destruct (unreported_request (CallToken pwdId) default_retries _ _ _ E)
      as (evs' & T & Rep). cbn [trace] in T. apply app_inv_head in T. congruence. }
  destruct r as [v|e]; unfold default_retries in E, Hk, R.
  - destruct (request_ok_inv W fetch _ _ _ _ _ E) as (w & r & Hr & Hok & Hb).
    exists w', k, evs. split; [|repeat split; try assumption; lia].
    unfold getStoken. apply yields_try_ok.
    replace evs with (evs ++ [])%list by apply app_nil_r.
    eapply yields_bind; [exact E|].
    unfold or_else. rewrite (Href w r v Hr Hok Hb). apply yields_ret_at; reflexivity.
  - pose proof (throws_errors_request W fetch _ _ _ _ E) as Hne.
    destruct e as [name msg|]; [|congruence].
    exists w', k, (evs ++ [ELog LError "获取stoken失败:"])%list.
    split; [|repeat split; try lia].
    + unfold getStoken. eapply yields_try_caught.
      * apply yields_bind_throw. exact E.
      * apply yields_log_and_return.
    + rewrite calls_app, C. cbn. apply app_nil_r.
    + rewrite reports_app, Rep. reflexivity.
Qed.

End Silent.

(** X10: a link without an identifier costs nothing: [store] resolves with
    the failure [无法从链接中提取文件ID] and [getFileInfo] with [null], no
    fetch is made and no timer is awaited, and the progress callback is
    told step 1 and then the failure. *)
Theorem store_unparsable_link :
  forall (W : Type) (fetch : api_call -> W -> fetch_outcome * W)
    (text_gt_zero : string -> bool) (this : helpers W) (url : string)
    (cb : option callback) (st : net W),
    UrlUtils.getIdFromUrl url = "" ->
    returns cb ->
    (exists evs,
       yields (store_on W this url cb) st
         (Ok (mkOutcome false "转存失败: 无法从链接中提取文件ID" None)) (world st) evs /\
       calls evs = [] /\ sleeps evs = [] /\
       reports evs
       = match cb with
         | Some _ => [(1%Z, "解析链接", 10%Z);
                      ((-1)%Z, "转存失败: 无法从链接中提取文件ID", 0%Z)]
         | None => []
         end) /\
    (exists evs,
       yields (getFileInfo W fetch text_gt_zero url) st (Ok None) (world st) evs /\
       calls evs = [] /\ sleeps evs = []).
Proof.
  intros W fetch text_gt_zero this url cb st Hid Hcb. split.
  - eexists. split.
    + unfold store_on. eapply yields_try_caught.
      * eapply yields_bind; [apply yields_log|].
        eapply yields_bind; [apply yields_progress; exact Hcb|].
        rewrite Hid. cbn [String.eqb negb require].
        apply yields_bind_throw. apply yields_throw.
      * cbn [message_of Error].
        eapply yields_bind; [apply yields_lift_res|].
        eapply yields_bind; [apply yields_log|].
        eapply yields_bind; [apply yields_progress; exact Hcb|].
        apply yields_ret_at; reflexivity.
    + destruct cb; repeat split.
  - eexists. split.
    + unfold getFileInfo. eapply yields_try_caught.
      * rewrite Hid. cbn [String.eqb negb require].
        apply yields_bind_throw. apply yields_throw.
      * eapply yields_world; [apply yields_log_and_return | reflexivity].
    + split; reflexivity.
Qed.

Lemma store_unparsable_link_witness :
  exists evs,
    yields (store unit Scenario.mock_upstream Scenario.no_text_gt_zero
              "https://pan.quark.cn/" (Some Scenario.quiet_callback))
      Scenario.start
      (Ok (mkOutcome false "转存失败: 无法从链接中提取文件ID" None)) tt evs /\
    calls evs = [].
Proof.
  destruct (store_unparsable_link unit Scenario.mock_upstream
              Scenario.no_text_gt_zero
              (self unit Scenario.mock_upstream Scenario.no_text_gt_zero)
              "https://pan.quark.cn/" (Some Scenario.quiet_callback) Scenario.start
              eq_refl (fun _ _ _ => eq_refl)) as [(evs & E & C & _) _].
  exists evs. split; [exact E | exact C].
Defined.

(** X11: when the token call brings no token, whether it fails or is
    answered without one, [store] stops there: it resolves with the failure
    [获取分享令牌失败] after one to three fetches, all of the token call, and
    the progress callback is told the steps 1 and 2 and then the failure. *)
Theorem store_without_token :
  forall (W : Type) (fetch : api_call -> W -> fetch_outcome * W)
    (text_gt_zero : string -> bool) (url : string) (cb : option callback)
    (st : net W),
    UrlUtils.getIdFromUrl url <> "" ->
    returns cb ->
    token_refused fetch (UrlUtils.getIdFromUrl url) ->
    exists w' k evs,
      yields (store W fetch text_gt_zero url cb) st
        (Ok (mkOutcome false "转存失败: 获取分享令牌失败" None)) w' evs /\
      1 <= k <= 3 /\
      calls evs = repeat (CallToken (UrlUtils.getIdFromUrl url)) k /\
      reports evs
      = match cb with
        | Some _ => [(1%Z, "解析链接", 10%Z); (2%Z, "获取分享令牌", 20%Z);
                     ((-1)%Z, "转存失败: 获取分享令牌失败", 0%Z)]
        | None => []
        end.
Proof.
  intros W fetch text_gt_zero url cb st Hid Hcb Href.
  apply String.eqb_neq in Hid.
  match goal with
  | |- exists w' k evs, yields _ _ _ w' evs /\ _ =>
      destruct (getStoken_refused W fetch (UrlUtils.getIdFromUrl url)
                  (mkNet (world st)
                     (trace st ++ ([ELog LInfo "开始转存文件"]
                                   ++ reported cb 1 "解析链接" 10
                                   ++ reported cb 2 "获取分享令牌" 20))) Href)
        as (w' & k & evs & E & Hk & C & R)
  end.
  exists w', k. eexists. split; [|split; [exact Hk|]].
  - unfold store, store_on. eapply yields_try_caught.
    + eapply yields_bind; [apply yields_log|].
      eapply yields_bind; [apply yields_progress; exact Hcb|].
      rewrite Hid. cbn [negb require].
      eapply yields_bind; [apply yields_ret|].
      eapply yields_bind; [apply yields_progress; exact Hcb|].
      cbn [self this_getStoken].
      eapply yields_bind.
      * cbn [world trace]. rewrite app_nil_r, <- !app_assoc. exact E.
      * cbn [truthy String.eqb negb require].
        apply yields_bind_throw. apply yields_throw.
    + cbn [message_of Error].
      eapply yields_bind; [apply yields_lift_res|].
      eapply yields_bind; [apply yields_log|].
      eapply yields_bind; [apply yields_progress; exact Hcb|].
      apply yields_ret_at; reflexivity.
  - rewrite !calls_app, !reports_app, C, R. destruct cb; cbn; rewrite ?app_nil_r; auto.
Qed.

Lemma store_without_token_witness :
  exists w' k evs,
    yields (store unit Scenario.always_500 Scenario.no_text_gt_zero
              "https://pan.quark.cn/s/abc123" None) Scenario.start
      (Ok (mkOutcome false "转存失败: 获取分享令牌失败" None)) w' evs /\
    1 <= k <= 3 /\
    calls evs = repeat (CallToken "abc123") k.
Proof.
  destruct (store_without_token unit Scenario.always_500 Scenario.no_text_gt_zero
              "https://pan.quark.cn/s/abc123" None Scenario.start)
    as (w' & k & evs & E & Hk & C & _).
  - discriminate.
  - exact I.
  - intros w r v Hr Hok _. cbn in Hr. injection Hr as <-. discriminate.
  - exists w', k, evs. auto.
Defined.

(** X12: what the progress callback of [store] is told, when it returns
    each time: the steps 1, 2, 3, 4, 5 and 5 again in this order, all six
    when the transfer succeeds; a transfer that fails has been told the
    first step at least, and is told the step -1 once, last, with the
    message of the result and the percentage 0. A failure after all six
    steps is the one of a file name that does not convert to text. *)
Theorem store_reports :
  forall (W : Type) (fetch : api_call -> W -> fetch_outcome * W)
    (text_gt_zero : string -> bool) (url : string) (f : callback) (st : net W),
    returns (Some f) ->
    exists o w' evs n,
      yields (store W fetch text_gt_zero url (Some f)) st (Ok o) w' evs /\
      1 <= n <= 6 /\
      (success o = true -> n = 6) /\
      (success o = false -> n = 6 ->
       message o = "转存失败: Cannot convert object to primitive value") /\
      reports evs
      = (firstn n store_steps
         ++ (if success o then [] else [((-1)%Z, message o, 0%Z)]))%list.
Proof.
  intros W fetch text_gt_zero url f st Hf.
  destruct (store_reporting W fetch text_gt_zero url f st Hf)
    as (rest & E & Hrep & Hens).
  unfold yields. rewrite E. unfold try_catch.
  destruct (rest _) as [[o|e] st'] eqn:R.
  - destruct (Hrep _ _ _ R) as (evs & T & Rep). cbn [trace] in T.
    pose proof (Hens _ _ _ R) as Hs. cbn beta in Hs.
    exists o, (world st'),
      ([ELog LInfo "开始转存文件"; EProgress 1 "解析链接" 10] ++ evs)%list, 6.
    rewrite Hs, app_assoc, <- T. split; [destruct st'; reflexivity|].
    split; [lia|]. split; [reflexivity|]. split; [discriminate|].
    rewrite reports_app, Rep. reflexivity.
  - destruct (Hrep _ _ _ R) as (evs & T & Hne & more & Hsplit & Hlate).
    cbn [trace] in T. destruct e as [name msg|]; [|congruence].
    cbn [message_of]. unfold bind, lift_res, log, emit. cbn [progress].
    unfold bind, emit. cbn in Hf. rewrite Hf. unfold ret. cbn [world trace].
    exists (mkOutcome false ("转存失败: " ++ msg) None), (world st'),
      ([ELog LInfo "开始转存文件"; EProgress 1 "解析链接" 10] ++ evs
       ++ [ELog LError "转存失败:"; EProgress (-1) ("转存失败: " ++ msg) 0])%list,
      (S (List.length (reports evs))).
    cbn [success message].
    assert (L : List.length (reports evs) + List.length more = 5).
    { rewrite <- length_app, <- Hsplit. reflexivity. }
    split; [|split; [lia | split; [discriminate | split]]].
    + rewrite T, <- !app_assoc. reflexivity.
    + intros _ Hn. assert (Hm : more = []) by (destruct more; [reflexivity | simpl in L; lia]).
      specialize (Hlate Hm). injection Hlate as _ ->. reflexivity.
    + rewrite !reports_app. cbn [store_steps tl firstn] in Hsplit |- *.
      rewrite Hsplit, firstn_app, firstn_all, Nat.sub_diag. cbn [firstn].
      rewrite app_nil_r. reflexivity.
Qed.

Lemma store_reports_witness :
  exists o w' evs n,
    yields (store unit Scenario.mock_upstream Scenario.no_text_gt_zero
              "https://pan.quark.cn/s/abc123" (Some Scenario.quiet_callback))
      Scenario.start (Ok o) w' evs /\
    1 <= n <= 6 /\
    (success o = true -> n = 6) /\
    (success o = false -> n = 6 ->
     message o = "转存失败: Cannot convert object to primitive value") /\
    reports evs
    = (firstn n store_steps
       ++ (if success o then [] else [((-1)%Z, message o, 0%Z)]))%list.
Proof.
  apply (store_reports unit Scenario.mock_upstream Scenario.no_text_gt_zero
           "https://pan.quark.cn/s/abc123" Scenario.quiet_callback Scenario.start).
  intros step msg pct. reflexivity.
Defined.

End StoreCostFacts.

(** ** The constructor of [QuarkWebService] *)

Module SetupFacts.

Import ServiceSetup.

Lemma detectProxyMode_true (window_location : location)
  (getItem : string -> option string) :
  detectProxyMode window_location getItem = true.
Proof.
  unfold detectProxyMode. cbv zeta.
  destruct (existsb _ _ || _); [reflexivity|].
  rewrite orb_true_r. reflexivity.
Qed.

Lemma truthy_or_else_true (v : json) : truthy (or_else v (JBool true)) = true.
Proof. unfold or_else. destruct (truthy v) eqn:E; [exact E | reflexivity]. Qed.

(** X13: a [QuarkWebService] always works through the proxy. Whatever the
    page address, the stored settings and the options, [useProxy] is truthy
    after the constructor, the base URL is the proxy URL, [buildUrl] puts
    the proxy URL, as text, before the path, the cookie travels in the header
    [X-Quark-Cookie] and never in [cookie], and the address
    [https://drive-pc.quark.cn] is not used. Without a [proxyUrl] option the
    proxy URL is [getDefaultProxyUrl()], which does not depend on the
    protocol of the page. *)
Theorem construct_always_proxies :
  forall (window_location : location) (getItem : string -> option string)
    (cookie : string) (options : service_options),
    let this := construct window_location getItem cookie options in
    truthy (useProxy this) = true /\
    baseUrl this = proxyUrl this /\
    (forall path,
        buildUrl this path
        = map_res (fun base => base ++ path) (to_string (proxyUrl this))) /\
    property "X-Quark-Cookie" (headers this) = Some cookie /\
    property "cookie" (headers this) = None /\
    construct_log this = "QuarkWebService初始化 - 代理模式: 启用" /\
    (truthy (opt_proxyUrl options) = false ->
     forall path,
       buildUrl this path = Ok (getDefaultProxyUrl window_location getItem ++ path)) /\
    (forall protocol',
        getDefaultProxyUrl window_location getItem
        = getDefaultProxyUrl (mkLocation (hostname window_location) protocol') getItem).
Proof.
  intros window_location getItem cookie options this.
  assert (U : truthy (useProxy this) = true).
  { subst this. unfold construct. cbn [useProxy].
    rewrite detectProxyMode_true. apply truthy_or_else_true. }
  assert (B : forall path,
             buildUrl this path
             = map_res (fun base => base ++ path) (to_string (proxyUrl this))).
  { intros path. unfold buildUrl. rewrite U. reflexivity. }
  assert (P : proxyUrl this
              = or_else (opt_proxyUrl options)
                  (JStr (getDefaultProxyUrl window_location getItem)))
    by reflexivity.
  assert (Hbase : baseUrl this
                  = if truthy (useProxy this) then proxyUrl this
                    else JStr "https://drive-pc.quark.cn") by reflexivity.
  assert (Hheaders : headers this
                     = if truthy (useProxy this)
                       then set_property "X-Quark-Cookie" cookie fixed_headers
                       else set_property "cookie" cookie fixed_headers)
    by reflexivity.
  rewrite U in Hbase, Hheaders.
  split; [exact U|]. split; [exact Hbase|]. split; [exact B|].
  rewrite Hheaders. split; [reflexivity|]. split; [reflexivity|]. split; [|split].
  - unfold construct_log. rewrite U. reflexivity.
  - intros Hopt path. rewrite B, P. unfold or_else. rewrite Hopt. reflexivity.
  - intros protocol'. unfold getDefaultProxyUrl. cbn [hostname protocol].
    destruct (getItem "quark-gui-proxy-url") as [custom|];
      [destruct (negb (custom =? "")); [reflexivity|]|];
      destruct ((hostname window_location =? "localhost")
                || (hostname window_location =? "127.0.0.1")); try reflexivity;
      destruct (protocol window_location =? "https:");
      destruct (protocol' =? "https:"); reflexivity.
Qed.

Lemma construct_always_proxies_witness :
  buildUrl (construct (mkLocation "example.org" "https:") (fun _ => None)
              "cookie" no_options) "/1/clouddrive/share/sharepage/token"
  = Ok "http://example.org:8081/1/clouddrive/share/sharepage/token".
Proof.
  pose proof (construct_always_proxies (mkLocation "example.org" "https:")
                (fun _ => None) "cookie" no_options) as H.
  cbv zeta in H. destruct H as (_ & _ & _ & _ & _ & _ & H & _).
  exact (H eq_refl "/1/clouddrive/share/sharepage/token").
Defined.

End SetupFacts.

(** ** The batch loop: its guards, its [finally], its duplicates *)

Module PanelFacts.

Import QuarkWebService IndexedDBService TransferPanel PanelView AsyncFacts BatchFacts
  UrlFacts LinkFacts.

(** X14: without links, or without a cookie in the settings,
    [handleBatchTransfer] calls no service. An empty list of links only
    brings the warning and leaves the results of the last batch in place; a
    missing cookie is reported after the results were cleared, and the
    panel ends idle. *)
Theorem handleBatchTransfer_guards :
  forall (St : Type) (dbService : db_service St)
    (onQuarkServiceNeeded : string -> res (quark_service St)) (p : panel St),
    (detectedLinks p = [] ->
     handleBatchTransfer St dbService onQuarkServiceNeeded p
     = (Ok tt,
        mkPanel (env p) (defaultCookie p) [] (isTransferring St p) (batchResults p)
          (successCount p) (failCount p) (skipCount p)
          (ui p ++ [Notify "warning" "输入错误" "未检测到有效的夸克网盘链接"]))) /\
    (detectedLinks p <> [] -> defaultCookie p = "" ->
     handleBatchTransfer St dbService onQuarkServiceNeeded p
     = (Ok tt,
        mkPanel (env p) "" (detectedLinks p) false [] 0 0 0
          (ui p ++ [ShowProgress true; UpdateTransferButton true;
                    ShowResult false "请先在设置中配置Cookie";
                    Notify "error" "批量转存失败" "请先在设置中配置Cookie";
                    LogError "批量转存过程出错:";
                    UpdateTransferButton false; ShowProgress false]))).
Proof.
  intros St dbService onQuarkServiceNeeded p. split.
  - intros Hl. destruct p as [e c links t results s f k u]. cbn in Hl. subst links.
    reflexivity.
  - intros Hl Hc. destruct p as [e c links t results s f k u]. cbn in Hl, Hc.
    subst c. destruct links as [|link links]; [congruence|].
    unfold handleBatchTransfer, try_finally, try_catch, bind, read, show,
      set_isTransferring, reset_batch, resetTransferState, lift_res, throw, ret.
    cbn. repeat (rewrite <- app_assoc; cbn [app]). reflexivity.
Qed.

Lemma handleBatchTransfer_guards_witness :
  fst (handleBatchTransfer unit Scenario.accepting_db
         (fun _ => Ok Scenario.throwing_service)
         (mkPanel tt "" [Scenario.linkA] false [] 0 0 0 []))
  = Ok tt.
Proof.
  rewrite (proj2 (handleBatchTransfer_guards unit Scenario.accepting_db
                    (fun _ => Ok Scenario.throwing_service)
                    (mkPanel tt "" [Scenario.linkA] false [] 0 0 0 []))
             ltac:(discriminate) eq_refl).
  reflexivity.
Defined.

(** X15: the [finally] of [handleBatchTransfer] always runs: once there are
    links, the panel is idle again when the call ends, whatever the
    services return or throw, and the last two things it does are to free
    the button and to hide the progress. *)
Theorem handleBatchTransfer_releases :
  forall (St : Type) (dbService : db_service St)
    (onQuarkServiceNeeded : string -> res (quark_service St)) (p : panel St),
    detectedLinks p <> [] ->
    let p' := snd (handleBatchTransfer St dbService onQuarkServiceNeeded p) in
    isTransferring St p' = false /\
    exists before, ui p' = (before ++ [UpdateTransferButton false; ShowProgress false])%list.
Proof.
  intros St dbService onQuarkServiceNeeded p Hl p'. subst p'.
  destruct (handleBatchTransfer St dbService onQuarkServiceNeeded p) as [r p'] eqn:E.
  cbn [snd]. unfold handleBatchTransfer in E. unfold read at 1 in E.
  unfold bind at 1 in E.
  destruct (detectedLinks p) as [|link links] eqn:El; [congruence|].
  cbn [List.length Nat.eqb] in E. unfold try_finally in E.
  match type of E with
  | context [let (_, _) := ?body p in _] => destruct (body p) as [r0 q]
  end.
  unfold resetTransferState, bind, set_isTransferring, show in E. cbn in E.
  injection E as _ <-. cbn.
  split; [reflexivity|]. exists (ui q). rewrite <- app_assoc. reflexivity.
Qed.

Lemma handleBatchTransfer_releases_witness :
  isTransferring unit
    (snd (handleBatchTransfer unit Scenario.accepting_db
            (fun _ => Ok Scenario.throwing_service) Scenario.three_links))
  = false.
Proof.
  exact (proj1 (handleBatchTransfer_releases unit Scenario.accepting_db
                  (fun _ => Ok Scenario.throwing_service) Scenario.three_links
                  ltac:(discriminate))).
Defined.

Lemma pauses_app (a b : list ui_event) : pauses (a ++ b) = (pauses a ++ pauses b)%list.
Proof. apply flat_map_app. Qed.

Section Duplicates.

Variable St : Type.

(** One turn of the loop on a link that is a known duplicate. *)
Lemma batch_step_duplicate (dbService : db_service St) (quarkService : quark_service St)
  (totalLinks i : nat) (link : string) (p : panel St) (info : file_info) (e1 : St)
  (name : string) (v : verdict) (e2 : St) :
  qs_getFileInfo quarkService link (env p) = (Ok (Some info), e1) ->
  truthy (info_fileName info) = true ->
  to_string (info_fileName info) = Ok name ->
  ds_checkDuplicate dbService (info_fileName info) link e1 = (Ok v, e2) ->
  exists_ v = true ->
  batch_step St dbService quarkService totalLinks i link p
  = (Ok (Return tt),
     mkPanel e2 (defaultCookie p) (detectedLinks p) (isTransferring St p)
       (batchResults p
        ++ [EntrySkipped link
              ("文件 " ++ dquote ++ name ++ dquote
               ++ " 已存在（" ++ duplicateTypeText (duplicateType v)
               ++ "重复），跳过转存")
              (duplicateTypeText (duplicateType v)) (info_fileName info)])
       (successCount p) (failCount p) (S (skipCount p))
       (ui p ++ [UpdateProgress 1
                   ("正在转存第 " ++ show_nat (i + 1) ++ "/" ++ show_nat totalLinks
                    ++ " 个文件...")])).
Proof.
  intros H1 Ht Hn H2 Hv.
  unfold batch_step, transfer_one, extractFileName, try_catch, bind, show, call,
    set_env, ret, lift_res. cbn [env]. rewrite H1. unfold or_else. rewrite Ht.
  cbn -[append show_nat duplicateTypeText to_string]. rewrite Ht.
  cbn -[append show_nat duplicateTypeText to_string]. rewrite H2, Hv, Hn.
  reflexivity.
Qed.

(** A run of known duplicates: one skipped entry each, no pause. *)
Lemma batch_loop_duplicates (dbService dbService' : db_service St)
  (quarkService quarkService' : quark_service St) (totalLinks : nat) :
  qs_getFileInfo quarkService' = qs_getFileInfo quarkService ->
  ds_checkDuplicate dbService' = ds_checkDuplicate dbService ->
  forall links i (p : panel St),
    (forall link, In link links -> known_duplicate quarkService dbService link) ->
    exists e entries shown,
      let p' := mkPanel e (defaultCookie p) (detectedLinks p) (isTransferring St p)
                  (batchResults p ++ entries) (successCount p) (failCount p)
                  (skipCount p + List.length links) (ui p ++ shown) in
      batch_loop St dbService quarkService totalLinks i links p = (Ok tt, p') /\
      batch_loop St dbService' quarkService' totalLinks i links p = (Ok tt, p') /\
      map entry_link entries = links /\
      forallb entry_skipped entries = true /\
      pauses shown = [].
Proof.
  intros Hinfo Hcheck. induction links as [|link links IH]; intros i p Hknown.
  - exists (env p), [], []. cbn zeta. rewrite !app_nil_r, Nat.add_0_r.
    destruct p; repeat split.
  - destruct (Hknown link (or_introl eq_refl) (env p))
      as (info & e1 & name & v & e2 & H1 & Ht & Hn & H2 & Hv).
    pose proof (batch_step_duplicate dbService quarkService totalLinks i link p
                  info e1 name v e2 H1 Ht Hn H2 Hv) as S1.
    rewrite <- Hinfo in H1. rewrite <- Hcheck in H2.
    pose proof (batch_step_duplicate dbService' quarkService' totalLinks i link p
                  info e1 name v e2 H1 Ht Hn H2 Hv) as S2.
    match type of S1 with
    | _ = (_, ?q) =>
        destruct (IH (S i) q) as (e & entries & shown & L1 & L2 & Hl & Hs & Hp)
    end.
    { intros l Hl. apply Hknown. right. exact Hl. }
    cbn zeta in L1, L2. cbn [defaultCookie detectedLinks isTransferring batchResults
      successCount failCount skipCount ui] in L1, L2.
    eexists e, (_ :: entries), (_ :: shown). cbn zeta.
    cbn [batch_loop]. rewrite (bind_ok _ _ _ _ _ S1), (bind_ok _ _ _ _ _ S2).
    rewrite (bind_ok _ _ _ _ _ (eq_refl : ret tt _ = (Ok tt, _))).
    rewrite (bind_ok _ _ _ _ _ (eq_refl : ret tt _ = (Ok tt, _))).
    rewrite L1, L2. rewrite <- !app_assoc. cbn [app List.length].
    rewrite (Nat.add_succ_r (skipCount p)).
    split; [reflexivity|]. split; [reflexivity|]. split; [|split].
    + cbn [map entry_link]. rewrite Hl. reflexivity.
    + cbn [forallb entry_skipped]. exact Hs.
    + cbn [pauses flat_map]. exact Hp.
Qed.

(** The batch around a loop that only skipped. *)
Lemma handleBatchTransfer_skipping (dbService : db_service St)
  (onQuarkServiceNeeded : string -> res (quark_service St))
  (quarkService : quark_service St) (e0 : St) (c link : string)
  (links : list string) (t : bool) (results : list batch_entry) (s f k : nat)
  (u : list ui_event) (e : St) (entries : list batch_entry) (shown : list ui_event) :
  c <> "" ->
  onQuarkServiceNeeded c = Ok quarkService ->
  batch_loop St dbService quarkService (S (List.length links)) 0 (link :: links)
    (mkPanel e0 c (link :: links) true [] 0 0 0
       (u ++ [ShowProgress true; UpdateTransferButton true]))
  = (Ok tt,
     mkPanel e c (link :: links) true entries 0 0 (S (List.length links))
       (u ++ [ShowProgress true; UpdateTransferButton true] ++ shown)) ->
  handleBatchTransfer St dbService onQuarkServiceNeeded
    (mkPanel e0 c (link :: links) t results s f k u)
  = (Ok tt,
     mkPanel e c (link :: links) false entries 0 0 (S (List.length links))
       (u ++ [ShowProgress true; UpdateTransferButton true] ++ shown
        ++ [ShowBatchResult 0 0 (S (List.length links)) (S (List.length links));
            Notify "info" "批量转存完成"
              ("所有文件都是重复文件，已跳过 " ++ show_nat (S (List.length links))
               ++ " 个");
            UpdateTransferButton false; ShowProgress false])).
Proof.
  intros Hc Hf L. apply String.eqb_neq in Hc.
  unfold handleBatchTransfer, try_finally, try_catch.
  unfold read at 1. unfold bind at 1. cbn [detectedLinks List.length Nat.eqb].
  do 5 (erewrite bind_ok by reflexivity). cbn [defaultCookie].
  rewrite Hc. erewrite bind_ok by reflexivity.
  rewrite Hf. erewrite bind_ok by reflexivity.
  erewrite bind_ok.
  2:{ cbn [env defaultCookie detectedLinks isTransferring batchResults
        successCount failCount skipCount ui].
      rewrite <- app_assoc. exact L. }
  do 3 (erewrite bind_ok by reflexivity).
  cbn [successCount failCount skipCount].
  erewrite bind_ok by reflexivity.
  unfold batch_summary. do 3 (erewrite bind_ok by reflexivity).
  cbn [successCount failCount skipCount Nat.ltb Nat.leb Nat.eqb andb].
  cbv zeta. unfold resetTransferState, show, set_isTransferring, bind.
  cbn [env defaultCookie detectedLinks isTransferring batchResults
          successCount failCount skipCount ui].
  rewrite <- !app_assoc. cbn [app].
  reflexivity.
Qed.


End Duplicates.

(** X16: a batch of links that are all known duplicates, under file names
    that convert to text, never reaches the
    transfer: it ends the same whatever [store] and [insertFile] would do,
    with one skipped entry for each link and nothing counted as success or
    failure, it does not pause between the links, and it ends with the
    notice that every file was a duplicate. *)
Theorem handleBatchTransfer_all_duplicates :
  forall (St : Type) (dbService dbService' : db_service St)
    (onQuarkServiceNeeded onQuarkServiceNeeded' : string -> res (quark_service St))
    (quarkService quarkService' : quark_service St) (p : panel St),
    detectedLinks p <> [] ->
    defaultCookie p <> "" ->
    onQuarkServiceNeeded (defaultCookie p) = Ok quarkService ->
    onQuarkServiceNeeded' (defaultCookie p) = Ok quarkService' ->
    qs_getFileInfo quarkService' = qs_getFileInfo quarkService ->
    ds_checkDuplicate dbService' = ds_checkDuplicate dbService ->
    (forall link, In link (detectedLinks p) ->
                  known_duplicate quarkService dbService link) ->
    exists p',
      handleBatchTransfer St dbService onQuarkServiceNeeded p = (Ok tt, p') /\
      handleBatchTransfer St dbService' onQuarkServiceNeeded' p = (Ok tt, p') /\
      map entry_link (batchResults p') = detectedLinks p /\
      forallb entry_skipped (batchResults p') = true /\
      successCount p' = 0 /\ failCount p' = 0 /\
      skipCount p' = List.length (detectedLinks p) /\
      pauses (ui p') = pauses (ui p) /\
      exists before,
        ui p' = (before
                 ++ [Notify "info" "批量转存完成"
                       ("所有文件都是重复文件，已跳过 "
                        ++ show_nat (List.length (detectedLinks p)) ++ " 个");
                     UpdateTransferButton false; ShowProgress false])%list.
Proof.
  intros St dbService dbService' factory factory' quarkService quarkService' p
    Hlinks Hcookie Hf Hf' Hinfo Hcheck Hknown.
  destruct p as [e0 c links t results s f k u].
  cbn [detectedLinks defaultCookie ui] in *.
  destruct links as [|link links]; [congruence|].
  destruct (batch_loop_duplicates St dbService dbService' quarkService quarkService'
              (List.length (link :: links)) Hinfo Hcheck (link :: links) 0
              (mkPanel e0 c (link :: links) true [] 0 0 0
                 (u ++ [ShowProgress true; UpdateTransferButton true]))
              Hknown)
    as (e & entries & shown & L1 & L2 & Hl & Hs & Hp).
  cbn zeta in L1, L2. cbn [defaultCookie detectedLinks isTransferring batchResults
    successCount failCount skipCount ui app Nat.add List.length] in L1, L2.
  rewrite <- app_assoc in L1, L2.
  eexists. split; [|split].
  - exact (handleBatchTransfer_skipping St dbService factory quarkService e0 c link
             links t results s f k u e entries shown Hcookie Hf L1).
  - exact (handleBatchTransfer_skipping St dbService' factory' quarkService' e0 c
             link links t results s f k u e entries shown Hcookie Hf' L2).
  - cbn [batchResults successCount failCount skipCount ui List.length].
    split; [exact Hl|]. split; [exact Hs|]. do 3 (split; [reflexivity|]). split.
    + rewrite !pauses_app, Hp. cbn [pauses flat_map app]. rewrite app_nil_r.
      reflexivity.
    + exists (u ++ [ShowProgress true; UpdateTransferButton true] ++ shown
              ++ [ShowBatchResult 0 0 (S (List.length links))
                    (S (List.length links))])%list.
      rewrite <- !app_assoc. reflexivity.
Qed.

Lemma handleBatchTransfer_all_duplicates_witness :
  exists p',
    handleBatchTransfer unit Fixtures.knowing_db (fun _ => Ok Fixtures.refusing_service)
      Scenario.three_links = (Ok tt, p') /\
    handleBatchTransfer unit Fixtures.readonly_db (fun _ => Ok Fixtures.saving_service)
      Scenario.three_links = (Ok tt, p') /\
    skipCount p' = 3 /\ pauses (ui p') = [].
Proof.
  destruct (handleBatchTransfer_all_duplicates unit Fixtures.knowing_db
              Fixtures.readonly_db
              (fun _ => Ok Fixtures.refusing_service)
              (fun _ => Ok Fixtures.saving_service)
              Fixtures.refusing_service Fixtures.saving_service Scenario.three_links
              ltac:(discriminate) ltac:(discriminate) eq_refl eq_refl eq_refl eq_refl)
    as (p' & E1 & E2 & _ & _ & _ & _ & Hk & Hp & _).
  - intros link _ []. exists Fixtures.named_info, tt, "a.mp4",
      (mkVerdict true "link" false true), tt. repeat split.
  - exists p'. auto.
Defined.

(** X29: from the pasted text to the results. When the detected links are
    those that [extractQuarkLinks] found in a text, as [handleBatchInput]
    sets them, a batch that starts records exactly one entry for each
    distinct link of the text, in the order of their first occurrence;
    every recorded link passes [isValidQuarkUrl] and has an identifier for
    [getIdFromUrl]. *)
Theorem handleBatchTransfer_of_text :
  forall (St : Type) (dbService : db_service St)
    (onQuarkServiceNeeded : string -> res (quark_service St))
    (quarkService : quark_service St) (p : panel St) (text : string),
    detectedLinks p = BatchInput.extractQuarkLinks text ->
    detectedLinks p <> [] ->
    defaultCookie p <> "" ->
    onQuarkServiceNeeded (defaultCookie p) = Ok quarkService ->
    services_throw_errors quarkService dbService ->
    exists p',
      handleBatchTransfer St dbService onQuarkServiceNeeded p = (Ok tt, p') /\
      map entry_link (batchResults p') = BatchInput.extractQuarkLinks text /\
      NoDup (map entry_link (batchResults p')) /\
      forall entry, In entry (batchResults p') ->
        UrlUtils.isValidQuarkUrl (entry_link entry) = true /\
        UrlUtils.getIdFromUrl (entry_link entry) <> "".
Proof.
  intros St db onQ qs p text Htext Hlinks Hcookie Hservice Herrors.
  destruct (handleBatchTransfer_run St db onQ qs p Hlinks Hcookie Hservice)
    as (p0 & L0 & Hrun).
  destruct (batch_loop_pushes St db qs Herrors (List.length (detectedLinks p))
              (detectedLinks p) 0 p0) as (p1 & entries & E1 & Hmap & L1).
  destruct (Hrun p1 E1) as (p' & E' & L').
  rewrite L0, record_entries in L1. rewrite L1 in L'. cbn [app Nat.add] in L'.
  unfold ledger_of in L'. injection L' as Hres _ _ _.
  exists p'. split; [exact E'|]. rewrite Hres, Hmap, Htext.
  split; [reflexivity|]. split; [apply extractQuarkLinks_NoDup|].
  intros entry Hin.
  assert (Hl : In (entry_link entry) (BatchInput.extractQuarkLinks text)).
  { rewrite <- Htext, <- Hmap. apply in_map. exact Hin. }
  apply extractQuarkLinks_In in Hl as (id & -> & Hne & Ha).
  pose proof (all_alnum_word _ Ha) as Hw.
  assert (Hid : UrlUtils.getIdFromUrl (UrlUtils.share_prefix ++ id) = id).
  { rewrite getIdFromUrl_share_prefix; rewrite take_word_all_word by exact Hw;
      [reflexivity | exact Hne]. }
  split; [|rewrite Hid; exact Hne].
  unfold UrlUtils.isValidQuarkUrl. rewrite strip_prefix_app.
  destruct id as [|c id]; [congruence|].
  simpl in Hw. apply andb_true_iff in Hw as [Hc _]. exact Hc.
Qed.

Lemma handleBatchTransfer_of_text_witness :
  exists p',
    handleBatchTransfer unit Scenario.accepting_db (fun _ => Ok Scenario.throwing_service)
      (mkPanel tt "cookie"
         (BatchInput.extractQuarkLinks
            "https://pan.quark.cn/s/a1 https://pan.quark.cn/s/b2 https://pan.quark.cn/s/a1")
         false [] 0 0 0 [])
    = (Ok tt, p') /\
    map entry_link (batchResults p')
    = ["https://pan.quark.cn/s/a1"; "https://pan.quark.cn/s/b2"].
Proof.
  assert (Herrors : services_throw_errors Scenario.throwing_service
                      Scenario.accepting_db).
  { repeat split; intros; intros st e st' H; cbn in H;
      try destruct (_ =? _); try discriminate.
    injection H as He _. subst e. discriminate. }
  destruct (handleBatchTransfer_of_text unit Scenario.accepting_db
              (fun _ => Ok Scenario.throwing_service) Scenario.throwing_service
              (mkPanel tt "cookie"
                 (BatchInput.extractQuarkLinks
                    "https://pan.quark.cn/s/a1 https://pan.quark.cn/s/b2 https://pan.quark.cn/s/a1")
                 false [] 0 0 0 [])
              "https://pan.quark.cn/s/a1 https://pan.quark.cn/s/b2 https://pan.quark.cn/s/a1"
              eq_refl ltac:(discriminate) ltac:(discriminate) eq_refl Herrors)
    as (p' & E & Hm & _).
  exists p'. split; [exact E | exact Hm].
Defined.

End PanelFacts.

(** ** The records: writing them, and finding them again *)

Module RecordFacts.

Import IndexedDBService RecordStore AsyncFacts.

Lemma index_has_scan (d : database) (indexName key : string) :
  index_has d indexName key = existsb (field_is indexName key) (files d).
Proof. reflexivity. Qed.

Lemma existsb_orb {A} (f g : A -> bool) (l : list A) :
  existsb (fun x => f x || g x) l = existsb f l || existsb g l.
Proof.
  induction l as [|x l IH]; simpl; [reflexivity|]. rewrite IH.
  destruct (f x), (g x), (existsb f l), (existsb g l); reflexivity.
Qed.

(** When no request fails, the link lookup is the scan of the records,
    whichever indexes exist: what an index finds, the scan finds. *)
Lemma fileExistsByShareLink_scan (d : database) (shareLink : string) :
  transaction_error d = None ->
  (forall q, request_fails d q = false) ->
  fileExistsByShareLink d shareLink = Ok (existsb (carries shareLink) (files d)).
Proof.
  intros Ht Hr. unfold fileExistsByShareLink, checkWithIndex. rewrite Ht.
  cbn [map existsb]. rewrite !Hr. rewrite !index_has_scan.
  unfold carries. rewrite !existsb_orb.
  destruct (contains (indexNames d) "shareLink"),
    (contains (indexNames d) "shareUrl"), (contains (indexNames d) "originalUrl"),
    (existsb (field_is "shareLink" shareLink) (files d)),
    (existsb (field_is "shareUrl" shareLink) (files d)),
    (existsb (field_is "originalUrl" shareLink) (files d)); reflexivity.
Qed.

(** A record that does not carry the link changes no link lookup. *)
Lemma fileExistsByShareLink_app (d : database) (record : file_record)
  (shareLink : string) :
  carries shareLink record = false ->
  fileExistsByShareLink
    (mkDb (transaction_error d) (indexNames d) (files d ++ [record]) (request_fails d))
    shareLink
  = fileExistsByShareLink d shareLink.
Proof.
  unfold carries. intros H. apply orb_false_iff in H as [H H3].
  apply orb_false_iff in H as [H1 H2].
  unfold fileExistsByShareLink, checkWithIndex, index_has.
  cbn [transaction_error indexNames files request_fails map].
  rewrite !existsb_app. cbn [existsb]. rewrite H1, H2, H3. cbn [orb].
  rewrite !orb_false_r. reflexivity.
Qed.

Lemma fileExists_app (d : database) (record : file_record) (fileName : string) :
  fileExists
    (mkDb (transaction_error d) (indexNames d) (files d ++ [record]) (request_fails d))
    fileName
  = match fileExists d fileName with
    | Ok found => Ok (found || field_is "fileName" fileName record)
    | Throw e => Throw e
    end.
Proof.
  unfold fileExists, index_has.
  cbn [transaction_error indexNames files request_fails].
  destruct (transaction_error d); [reflexivity|].
  destruct (contains (indexNames d) "fileName"); [|reflexivity].
  destruct (request_fails d _); [reflexivity|].
  rewrite existsb_app. cbn [existsb]. rewrite orb_false_r. reflexivity.
Qed.

Lemma fileExists_healthy (s : object_store) (fileName : string) :
  healthy s ->
  fileExists (db s) fileName = Ok (existsb (field_is "fileName" fileName) (files (db s))).
Proof.
  intros (Ht & Hi & Hr & _). unfold fileExists. rewrite Ht, Hi, Hr. reflexivity.
Qed.

Section Writes.

Variable now : nat -> string.

(** What [add] does to a store that accepts the record. *)
Lemma add_run (record : file_record) (message : string) (s : object_store) :
  fails s (Add record) = false ->
  add record message s
  = (Ok (JNum (keyGenerator s)),
     mkStore
       (mkDb (transaction_error (db s)) (indexNames (db s))
          (files (db s) ++ [(record ++ [("id", JNum (keyGenerator s))])%list])
          (request_fails (db s)))
       (keyGenerator s + 1)%Z (fails s)).
Proof. intros H. unfold add. rewrite H. reflexivity. Qed.

Lemma add_inv (record : file_record) (message : string) (s s' : object_store)
  (key : json) :
  add record message s = (Ok key, s') ->
  key = JNum (keyGenerator s) /\
  s' = mkStore
         (mkDb (transaction_error (db s)) (indexNames (db s))
            (files (db s) ++ [(record ++ [("id", JNum (keyGenerator s))])%list])
            (request_fails (db s)))
         (keyGenerator s + 1)%Z (fails s).
Proof.
  unfold add. destruct (fails s (Add record)); [discriminate|].
  intros H. injection H as <- <-. auto.
Qed.

Lemma transaction_inv {A} (body : M object_store A) (s s' : object_store) (a : A) :
  transaction body s = (Ok a, s') ->
  transaction_error (db s) = None /\ body s = (Ok a, s').
Proof.
  unfold transaction. destruct (transaction_error (db s)); [discriminate | auto].
Qed.

Lemma healthy_add (s : object_store) (record : file_record) :
  healthy s ->
  healthy (mkStore
             (mkDb (transaction_error (db s)) (indexNames (db s))
                (files (db s) ++ [record]) (request_fails (db s)))
             (keyGenerator s + 1)%Z (fails s)).
Proof. intros H. exact H. Qed.

Lemma str_is_other (v : json) (s : string) : v <> JStr s -> str_is v s = false.
Proof.
  destruct v as [| |b|n|x|items|props]; try reflexivity. intros H. cbn.
  apply String.eqb_neq. congruence.
Qed.

(** What the name lookup finds once the records of a name are gone. *)
Lemma existsb_without (fileName other : string) (records : list file_record) :
  existsb (field_is "fileName" other)
    (filter (fun record => negb (field_is "fileName" fileName record)) records)
  = existsb (field_is "fileName" other) records && negb (other =? fileName).
Proof.
  induction records as [|r records IH]; [reflexivity|].
  cbn [filter existsb]. destruct (field_is "fileName" fileName r) eqn:E; cbn [negb].
  - rewrite IH. destruct (field_is "fileName" other r) eqn:E'; [|reflexivity].
    unfold field_is, str_is in E, E'. destruct (assoc "fileName" r); try discriminate.
    apply String.eqb_eq in E, E'. subst. rewrite String.eqb_refl. cbn.
    rewrite andb_false_r. reflexivity.
  - cbn [existsb]. rewrite IH.
    destruct (field_is "fileName" other r) eqn:E'; [|reflexivity].
    unfold field_is, str_is in E, E'. destruct (assoc "fileName" r); try discriminate.
    apply String.eqb_eq in E'. subst. rewrite E. reflexivity.
Qed.

Lemma filter_fresh (fileName : string) (records : list file_record) :
  existsb (field_is "fileName" fileName) records = false ->
  filter (fun record => negb (field_is "fileName" fileName record)) records = records.
Proof.
  induction records as [|r records IH]; [reflexivity|]. cbn [existsb filter].
  intros H. apply orb_false_iff in H as [Hr Hrest]. rewrite Hr. cbn [negb].
  rewrite IH by exact Hrest. reflexivity.
Qed.

End Writes.

(** X17: the round trip of the transfer panel's record. On a store where
    every request succeeds, [insertFile] returns the generated key, and
    afterwards the duplicate check finds what it found before and, in
    addition, the inserted file name under the names and the inserted share
    link under the links. *)
Theorem insertFile_then_checkDuplicate :
  forall (now : nat -> string) (s : object_store)
    (fileId fileName fileType shareLink : json),
    healthy s ->
    exists s',
      insertFile now fileId fileName fileType shareLink s
      = (Ok (JNum (keyGenerator s)), s') /\
      healthy s' /\
      forall name link,
      exists v v',
        IndexedDBService.checkDuplicate (db s) name link = Ok v /\
        IndexedDBService.checkDuplicate (db s') name link = Ok v' /\
        nameExists v' = nameExists v || str_is fileName name /\
        linkExists v' = linkExists v || str_is shareLink link.
Proof.
  intros now s fileId fileName fileType shareLink H.
  pose proof H as (Ht & Hi & Hr & Hf).
  eexists. split; [|split].
  - unfold insertFile, transaction. rewrite Ht. apply add_run. apply Hf.
  - apply healthy_add. exact H.
  - intros name link. unfold IndexedDBService.checkDuplicate.
    cbn [db]. rewrite fileExists_app.
    rewrite (fileExists_healthy s name H).
    rewrite !fileExistsByShareLink_scan; cbn [transaction_error request_fails files];
      try assumption.
    cbn [promise_all2]. eexists _, _. split; [reflexivity|]. split; [reflexivity|].
    cbn [nameExists linkExists]. split; [reflexivity|].
    rewrite existsb_app. cbn [existsb]. unfold carries, field_is. cbn [assoc app].
    cbn. rewrite !orb_false_r. reflexivity.
Qed.

Lemma insertFile_then_checkDuplicate_witness :
  exists s',
    insertFile (fun _ => "2024-01-01T00:00:00.000Z") (JStr "newid1") (JStr "B.mp4")
      (JStr "video") (JStr "L2") (mkStore Scenario.healthy_store 2 (fun _ => false))
    = (Ok (JNum 2), s') /\
    healthy s'.
Proof.
  destruct (insertFile_then_checkDuplicate (fun _ => "2024-01-01T00:00:00.000Z")
              (mkStore Scenario.healthy_store 2 (fun _ => false))
              (JStr "newid1") (JStr "B.mp4") (JStr "video") (JStr "L2"))
    as (s' & E & H & _).
  - repeat split.
  - exists s'. split; [exact E | exact H].
Defined.

(** X18: [insertFile] makes the stored share link findable and no other
    link. Whatever the state of the store, the link lookup for a URL that
    is not the stored [shareLink], such as the source link that was
    transferred, answers after the insertion what it answered before. *)
Theorem insertFile_other_links_unseen :
  forall (now : nat -> string) (s s' : object_store)
    (fileId fileName fileType shareLink key : json) (url : string),
    insertFile now fileId fileName fileType shareLink s = (Ok key, s') ->
    shareLink <> JStr url ->
    fileExistsByShareLink (db s') url = fileExistsByShareLink (db s) url.
Proof.
  intros now s s' fileId fileName fileType shareLink key url E Hne.
  unfold insertFile in E. apply transaction_inv in E as [_ E].
  apply add_inv in E as [_ ->]. cbn [db].
  apply fileExistsByShareLink_app.
  unfold carries, field_is. cbn [assoc app]. cbn.
  rewrite (str_is_other _ _ Hne). reflexivity.
Qed.

Lemma insertFile_other_links_unseen_witness :
  fileExistsByShareLink
    (db (snd (insertFile (fun _ => "2024-01-01T00:00:00.000Z") (JStr "newid1")
                (JStr "B.mp4") (JStr "video") (JStr "https://pan.quark.cn/s/new")
                (mkStore Scenario.healthy_store 2 (fun _ => false)))))
    "https://pan.quark.cn/s/source"
  = Ok false.
Proof.
  rewrite (insertFile_other_links_unseen (fun _ => "2024-01-01T00:00:00.000Z")
             (mkStore Scenario.healthy_store 2 (fun _ => false))
             (snd (insertFile (fun _ => "2024-01-01T00:00:00.000Z") (JStr "newid1")
                     (JStr "B.mp4") (JStr "video") (JStr "https://pan.quark.cn/s/new")
                     (mkStore Scenario.healthy_store 2 (fun _ => false))))
             (JStr "newid1") (JStr "B.mp4") (JStr "video")
             (JStr "https://pan.quark.cn/s/new") (JNum 2)
             "https://pan.quark.cn/s/source" eq_refl ltac:(discriminate)).
  reflexivity.
Defined.

(** X19: the record that [addFile] writes can be found again under its
    name and under two links. On a store where every request succeeds,
    [addFile] of an object returns the generated key; afterwards the name
    lookup finds [fileData.fileName || ''], and the link lookup finds
    [fileData.shareUrl || fileData.shareLink || ''] and
    [fileData.originalUrl || ''], on top of what they found before. Of
    [null] and [undefined] nothing is written: the promise rejects with the
    [TypeError] of reading [fileId]. *)
Theorem addFile_then_lookup :
  forall (now : nat -> string) (s : object_store) (fileData : json),
    healthy s ->
    match fileData with
    | JNull | JUndefined =>
        addFile now fileData s
        = (Throw (cannot_read fileData "fileId"), s)
    | _ =>
        exists s',
          addFile now fileData s = (Ok (JNum (keyGenerator s)), s') /\
          healthy s' /\
          (forall name,
            exists found found',
              fileExists (db s) name = Ok found /\
              fileExists (db s') name = Ok found' /\
              found' = found
                       || str_is (or_else (get fileData "fileName") (JStr "")) name) /\
          (forall link,
            exists found found',
              fileExistsByShareLink (db s) link = Ok found /\
              fileExistsByShareLink (db s') link = Ok found' /\
              found' = found
                       || str_is (or_else (or_else (get fileData "shareUrl")
                                             (get fileData "shareLink")) (JStr "")) link
                       || str_is (or_else (get fileData "originalUrl") (JStr "")) link)
    end.
Proof.
  intros now s fileData H. pose proof H as (Ht & Hi & Hr & Hf).
  assert (G : forall v, member fileData "fileId" = Ok v ->
              exists s',
                addFile now fileData s = (Ok (JNum (keyGenerator s)), s') /\
                healthy s' /\
                (forall name,
                  exists found found',
                    fileExists (db s) name = Ok found /\
                    fileExists (db s') name = Ok found' /\
                    found' = found
                             || str_is (or_else (get fileData "fileName") (JStr ""))
                                  name) /\
                (forall link,
                  exists found found',
                    fileExistsByShareLink (db s) link = Ok found /\
                    fileExistsByShareLink (db s') link = Ok found' /\
                    found' = found
                             || str_is (or_else (or_else (get fileData "shareUrl")
                                                   (get fileData "shareLink"))
                                          (JStr "")) link
                             || str_is (or_else (get fileData "originalUrl") (JStr ""))
                                  link)).
  { intros v Hv. eexists. split; [|split; [|split]].
    - unfold addFile, transaction. rewrite Ht, Hv. unfold bind, lift_res.
      cbv zeta. apply add_run. apply Hf.
    - apply healthy_add. exact H.
    - intros name. cbn [db]. rewrite fileExists_app.
      rewrite (fileExists_healthy s name H). eexists _, _.
      split; [reflexivity|]. split; [reflexivity|].
      unfold field_is. cbn [assoc app]. cbn. reflexivity.
    - intros link. cbn [db].
      rewrite !fileExistsByShareLink_scan; cbn [transaction_error request_fails files];
        try assumption.
      eexists _, _. split; [reflexivity|]. split; [reflexivity|].
      rewrite existsb_app. cbn [existsb]. unfold carries, field_is. cbn [assoc app].
      cbn. rewrite orb_false_r.
      destruct (str_is (or_else (or_else (get fileData "shareUrl")
                                   (get fileData "shareLink")) (JStr "")) link);
        rewrite ?orb_true_r, ?orb_false_r; cbn; rewrite ?orb_true_r; reflexivity. }
  destruct fileData; try (apply (G _ eq_refl));
    unfold addFile, transaction; rewrite Ht; reflexivity.
Qed.

Lemma addFile_then_lookup_witness :
  exists s',
    addFile (fun _ => "2024-01-01T00:00:00.000Z")
      (JObj [("fileName", JStr "B.mp4"); ("originalUrl", JStr "https://pan.quark.cn/s/src");
             ("shareUrl", JStr "https://pan.quark.cn/s/new")])
      (mkStore Scenario.healthy_store 2 (fun _ => false))
    = (Ok (JNum 2), s') /\
    healthy s'.
Proof.
  destruct (addFile_then_lookup (fun _ => "2024-01-01T00:00:00.000Z")
              (mkStore Scenario.healthy_store 2 (fun _ => false))
              (JObj [("fileName", JStr "B.mp4");
                     ("originalUrl", JStr "https://pan.quark.cn/s/src");
                     ("shareUrl", JStr "https://pan.quark.cn/s/new")]))
    as (s' & E & H & _).
  - repeat split.
  - exists s'. split; [exact E | exact H].
Defined.

(** X20: [deleteFileByName] removes the records of one name and no other:
    afterwards the name lookup does not find that name, and answers for
    every other name as before; and it undoes [insertFile] for a name that
    was not in the store. *)
Theorem deleteFileByName_removes_name :
  forall (now : nat -> string) (s s' : object_store) (fileName : string),
    deleteFileByName fileName s = (Ok tt, s') ->
    (forall other,
        fileExists (db s') other
        = match fileExists (db s) other with
          | Ok found => Ok (found && negb (other =? fileName))
          | Throw e => Throw e
          end) /\
    (forall record,
        In record (files (db s')) <->
        In record (files (db s)) /\ field_is "fileName" fileName record = false) /\
    (healthy s ->
     existsb (field_is "fileName" fileName) (files (db s)) = false ->
     forall fileId fileType shareLink,
     exists key s1 s2,
       insertFile now fileId (JStr fileName) fileType shareLink s = (Ok key, s1) /\
       deleteFileByName fileName s1 = (Ok tt, s2) /\
       files (db s2) = files (db s)).
Proof.
  intros now s s' fileName E. unfold deleteFileByName in E.
  apply transaction_inv in E as [Ht E].
  destruct (contains (indexNames (db s)) "fileName") eqn:Hi; [|discriminate].
  destruct (fails s (OpenCursor "fileName" fileName)); [discriminate|].
  injection E as <-. split; [|split].
  - intros other. unfold fileExists, index_has, with_files.
    cbn [db transaction_error indexNames files request_fails]. rewrite Ht, Hi.
    destruct (request_fails (db s) _); [reflexivity|].
    rewrite existsb_without. reflexivity.
  - intros record. unfold with_files. cbn [db files]. rewrite filter_In.
    rewrite negb_true_iff. reflexivity.
  - intros H Hfresh fileId fileType shareLink.
    pose proof H as (_ & _ & _ & Hf).
    eexists _, _, _. split; [|split].
    + unfold insertFile, transaction. rewrite Ht. apply add_run. apply Hf.
    + unfold deleteFileByName, transaction.
      cbn [db transaction_error indexNames fails]. rewrite Ht, Hi, Hf. reflexivity.
    + unfold with_files. cbn [db files]. rewrite filter_app. cbn [filter].
      unfold field_is at 2. cbn [assoc app]. cbn. rewrite String.eqb_refl. cbn.
      rewrite app_nil_r. apply filter_fresh. exact Hfresh.
Qed.

Lemma deleteFileByName_removes_name_witness :
  fileExists
    (db (snd (deleteFileByName "A.mp4"
                (mkStore Scenario.healthy_store 2 (fun _ => false)))))
    "A.mp4"
  = Ok false.
Proof.
  rewrite (proj1 (deleteFileByName_removes_name (fun _ => "")
                    (mkStore Scenario.healthy_store 2 (fun _ => false))
                    (snd (deleteFileByName "A.mp4"
                            (mkStore Scenario.healthy_store 2 (fun _ => false))))
                    "A.mp4" eq_refl) "A.mp4").
  reflexivity.
Defined.

(** *** [importData] *)

Lemma same_key_refl : forall key, valid_key key = true -> same_key key key = true.
Proof.
  fix IH 1. intros [| |b|n|x|items|props]; cbn [valid_key same_key]; try discriminate.
  - intros _. apply Z.eqb_refl.
  - intros _. apply String.eqb_refl.
  - induction items as [|item items IHitems]; [reflexivity|].
    cbn [forallb]. intros H. apply andb_true_iff in H as [H1 H2].
    rewrite (IH item H1). exact (IHitems H2).
Qed.

Lemma field_is_same_key (fileName : string) (record : file_record) :
  field_is "fileName" fileName record
  = same_key (JStr fileName) (assoc "fileName" record).
Proof.
  unfold field_is, str_is. destruct (assoc "fileName" record); try reflexivity.
  cbn [same_key]. apply String.eqb_sym.
Qed.

Lemma named_app (key : json) (a b : list file_record) :
  named key (a ++ b) = named key a || named key b.
Proof. apply existsb_app. Qed.

Section Importing.

Variable now : nat -> string.

(** The lookup that [importData] makes, on a store where every request
    succeeds. *)
Lemma fileExistsKey_healthy (key : json) (s : object_store) :
  healthy s ->
  fileExistsKey key s
  = (if valid_key key then Ok (named key (files (db s))) else Throw data_error, s).
Proof.
  intros H. pose proof H as (Ht & Hi & Hr & Hf). unfold fileExistsKey.
  destruct key as [| |b|n|x|items|props]; cbn [valid_key]; rewrite ?Ht, ?Hi, ?Hf;
    try reflexivity.
  rewrite (fileExists_healthy s x H). unfold named. f_equal. f_equal.
  induction (files (db s)) as [|r l IHl]; [reflexivity|].
  cbn [existsb]. rewrite IHl, field_is_same_key. reflexivity.
Qed.

(** The record that [insertFile] writes for an element of the data. *)
Local Abbreviation imported fileData fileName key :=
  [("fileId", get fileData "fileId"); ("fileName", fileName);
   ("fileType", get fileData "fileType"); ("shareLink", get fileData "shareLink");
   ("createTime", JStr (now 0)); ("updateTime", JStr (now 1)); ("id", JNum key)].

(** One turn of the loop, whatever the state of the store: at most one
    record more, and nothing else changes but the key generator. *)
Lemma import_step (fileData : json) (importCount : nat) (s : object_store) :
  exists added g,
    try_catch
      (fileName <- lift_res (member fileData "fileName") ;;
       exists_ <- fileExistsKey fileName ;;
       if negb exists_ then
         insertFile now (get fileData "fileId") fileName
           (get fileData "fileType") (get fileData "shareLink") ;;;
         ret (S importCount)
       else ret importCount)
      (fun _ => ret importCount) s
    = (Ok (importCount + List.length added),
       mkStore
         (mkDb (transaction_error (db s)) (indexNames (db s))
            (files (db s) ++ added) (request_fails (db s)))
         g (fails s)) /\
    List.length added <= 1 /\
    (forall record, In record added -> map fst record = inserted_fields) /\
    (healthy s ->
     forall fileName,
       member fileData "fileName" = Ok fileName -> valid_key fileName = true ->
       named fileName (files (db s) ++ added) = true) /\
    (healthy s -> all_named [fileData] s -> added = [] /\ g = keyGenerator s).
Proof.
  assert (Same : (Ok (importCount + 0), mkStore
                    (mkDb (transaction_error (db s)) (indexNames (db s))
                       (files (db s) ++ []) (request_fails (db s)))
                    (keyGenerator s) (fails s))
                 = (Ok importCount, s)).
  { rewrite Nat.add_0_r, app_nil_r. destruct s as [[t i f r] g fl]. reflexivity. }
  unfold try_catch, bind, lift_res.
  destruct (member fileData "fileName") as [fileName|e] eqn:Em.
  2:{ exists [], (keyGenerator s). cbn [List.length]. rewrite Same.
      repeat split; try lia; try contradiction. discriminate. }
  destruct (fileExistsKey fileName s) as [[found|e] s0] eqn:Ef.
  2:{ assert (s0 = s) as -> by (unfold fileExistsKey in Ef; congruence).
      exists [], (keyGenerator s). cbn [List.length]. rewrite Same.
      split; [reflexivity|]. split; [lia|]. split; [contradiction|]. split; [|auto].
      intros H name Hn Hv. injection Hn as <-.
      rewrite (fileExistsKey_healthy _ _ H), Hv in Ef. discriminate. }
  assert (s0 = s) as -> by (unfold fileExistsKey in Ef; congruence).
  destruct found; cbn [negb].
  { exists [], (keyGenerator s). cbn [List.length]. rewrite Same.
    split; [reflexivity|]. split; [lia|]. split; [contradiction|]. split; [|auto].
    intros H name Hn Hv. injection Hn as <-.
    rewrite (fileExistsKey_healthy _ _ H), Hv in Ef. injection Ef as Ef.
    rewrite app_nil_r. exact Ef. }
  destruct (insertFile now (get fileData "fileId") fileName (get fileData "fileType")
              (get fileData "shareLink") s) as [[key|e] s1] eqn:Ei.
  - unfold insertFile in Ei. apply transaction_inv in Ei as [_ Ei].
    apply add_inv in Ei as [_ ->]. unfold ret.
    exists [imported fileData fileName (keyGenerator s)], (keyGenerator s + 1)%Z.
    cbn [List.length]. rewrite Nat.add_1_r.
    split; [reflexivity|]. split; [lia|]. split; [|split].
    + intros record [<- | []]. reflexivity.
    + intros H name Hn Hv. injection Hn as <-.
      rewrite named_app. unfold named at 2. cbn [existsb assoc].
      cbn. rewrite (same_key_refl _ Hv). rewrite !orb_true_r. reflexivity.
    + intros H Hall. exfalso.
      rewrite (fileExistsKey_healthy _ _ H) in Ef.
      destruct (valid_key fileName) eqn:Hv; [|discriminate].
      injection Ef as Ef.
      rewrite (Hall fileData fileName (or_introl eq_refl) Em Hv) in Ef. discriminate.
  - assert (s1 = s) as ->.
    { unfold insertFile, transaction, add in Ei.
      destruct (transaction_error (db s)); [congruence|].
      destruct (fails s _); congruence. }
    exists [], (keyGenerator s). cbn [List.length]. rewrite Same.
    split; [reflexivity|]. split; [lia|]. split; [contradiction|]. split.
    + intros H name Hn Hv. exfalso. pose proof H as (Ht & _ & _ & Hf).
      unfold insertFile, transaction, add in Ei. rewrite Ht, Hf in Ei. discriminate.
    + auto.
Qed.

Lemma store_same (s : object_store) :
  mkStore
    (mkDb (transaction_error (db s)) (indexNames (db s)) (files (db s) ++ [])
       (request_fails (db s)))
    (keyGenerator s) (fails s)
  = s.
Proof. rewrite app_nil_r. destruct s as [[t i f r] g fl]. reflexivity. Qed.

End Importing.

(** The loop of [importData]: it always returns, with the number of the
    records it added. *)
Lemma import_loop_run (clock : nat -> nat -> string) (data : list json) :
  forall (i importCount : nat) (s : object_store),
  exists added g,
    import_loop clock data i importCount s
    = (Ok (importCount + List.length added),
       mkStore
         (mkDb (transaction_error (db s)) (indexNames (db s))
            (files (db s) ++ added) (request_fails (db s)))
         g (fails s)) /\
    List.length added <= List.length data /\
    (forall record, In record added -> map fst record = inserted_fields) /\
    (healthy s ->
     forall fileData fileName,
       In fileData data -> member fileData "fileName" = Ok fileName ->
       valid_key fileName = true ->
       named fileName (files (db s) ++ added) = true) /\
    (healthy s -> all_named data s -> added = [] /\ g = keyGenerator s).
Proof.
  induction data as [|fileData data IH]; intros i importCount s.
  - exists [], (keyGenerator s). cbn [import_loop List.length]. rewrite store_same.
    rewrite Nat.add_0_r. repeat split; try lia; contradiction.
  - destruct (import_step (clock i) fileData importCount s)
      as (added1 & g1 & E1 & L1 & F1 & N1 & Z1).
    match type of E1 with
    | _ = (_, ?s1) =>
        destruct (IH (S i) (importCount + List.length added1) s1)
          as (added2 & g2 & E2 & L2 & F2 & N2 & Z2)
    end.
    cbn [db transaction_error indexNames files request_fails fails] in E2, N2, Z2.
    exists (added1 ++ added2)%list, g2.
    cbn [import_loop]. rewrite (bind_ok _ _ _ _ _ E1), E2.
    rewrite length_app, Nat.add_assoc, app_assoc.
    split; [reflexivity|]. split; [cbn [List.length]; lia|]. split; [|split].
    + intros record Hin. apply in_app_or in Hin as [Hin | Hin]; auto.
    + intros H item name [<- | Hin] Hm Hv.
      * rewrite named_app. rewrite (N1 H name Hm Hv). reflexivity.
      * apply (N2 H item name Hin Hm Hv).
    + intros H Hall.
      destruct (Z1 H) as [-> ->].
      { intros item name [Heq | []] Hm Hv. apply (Hall item name); [left|..]; auto. }
      rewrite store_same in Z2. destruct (Z2 H) as [-> ->].
      { intros item name Hin Hm Hv. apply (Hall item name); [right|..]; auto. }
      auto.
Qed.

(** X21: [importData] rejects what is not an object with an array under
    [data] and leaves the store alone; given an array it always resolves,
    whatever goes wrong with single elements, with the number of records
    it added, at most one for each element. Each added record has the
    fields that [insertFile] writes and no other: [shareUrl],
    [originalUrl], [transferTime], [source] and [status] of an exported
    record are not restored. *)
Theorem importData_counts :
  forall (clock : nat -> nat -> string) (importData_ : json) (s : object_store),
    (forall data,
        member importData_ "data" = Ok data ->
        negb (truthy data) || negb (is_array data) = true ->
        importData clock importData_ s = (Throw (Error "导入数据格式错误"), s)) /\
    (forall data,
        member importData_ "data" = Ok (JArr data) ->
        exists count s' added,
          importData clock importData_ s = (Ok count, s') /\
          files (db s') = (files (db s) ++ added)%list /\
          List.length added = count /\
          count <= List.length data /\
          forall record, In record added ->
            map fst record = inserted_fields /\
            assoc "originalUrl" record = JUndefined /\
            assoc "shareUrl" record = JUndefined).
Proof.
  intros clock d s. split.
  - intros data Hm Hbad. unfold importData, bind, lift_res. rewrite Hm, Hbad.
    reflexivity.
  - intros data Hm. unfold importData, bind, lift_res. rewrite Hm.
    cbn [truthy is_array negb orb elements].
    destruct (import_loop_run clock data 0 0 s) as (added & g & E & L & F & _).
    eexists (List.length added), _, added. split; [exact E|].
    cbn [db files]. repeat split; try assumption; try (apply F; assumption).
    + pose proof (F record H) as Hf.
      destruct record as [|[k1 v1] [|[k2 v2] [|[k3 v3] [|[k4 v4] [|[k5 v5]
        [|[k6 v6] [|[k7 v7] [|]]]]]]]]; try discriminate.
      cbn in Hf. injection Hf as -> -> -> -> -> -> ->. reflexivity.
    + pose proof (F record H) as Hf.
      destruct record as [|[k1 v1] [|[k2 v2] [|[k3 v3] [|[k4 v4] [|[k5 v5]
        [|[k6 v6] [|[k7 v7] [|]]]]]]]]; try discriminate.
      cbn in Hf. injection Hf as -> -> -> -> -> -> ->. reflexivity.
Qed.

Lemma importData_counts_witness :
  exists count s' added,
    importData (fun _ _ => "2024-01-01T00:00:00.000Z")
      (JObj [("data", JArr [JObj [("fileName", JStr "A.mp4")];
                            JObj [("fileName", JStr "B.mp4")]; JNull])])
      (mkStore Scenario.healthy_store 2 (fun _ => false))
    = (Ok count, s') /\
    files (db s') = (files Scenario.healthy_store ++ added)%list /\
    List.length added = count /\
    count <= 3.
Proof.
  destruct (proj2 (importData_counts (fun _ _ => "2024-01-01T00:00:00.000Z")
                     (JObj [("data", JArr [JObj [("fileName", JStr "A.mp4")];
                                           JObj [("fileName", JStr "B.mp4")]; JNull])])
                     (mkStore Scenario.healthy_store 2 (fun _ => false)))
              _ eq_refl)
    as (count & s' & added & E & Hf & Hl & Hc & _).
  exists count, s', added. auto.
Defined.

(** X22: on a store where every request succeeds, importing the same data
    a second time adds nothing: it resolves with 0 and leaves the store as
    the first import left it. *)
Theorem importData_idempotent :
  forall (clock clock' : nat -> nat -> string) (importData_ : json) (data : list json)
    (s s1 : object_store) (count : nat),
    healthy s ->
    member importData_ "data" = Ok (JArr data) ->
    importData clock importData_ s = (Ok count, s1) ->
    importData clock' importData_ s1 = (Ok 0, s1).
Proof.
  intros clock clock' d data s s1 count H Hm E.
  unfold importData, bind, lift_res in *. rewrite Hm in *.
  cbn [truthy is_array negb orb elements] in *.
  destruct (import_loop_run clock data 0 0 s) as (added & g & E1 & _ & _ & N & _).
  rewrite E1 in E. injection E as _ <-.
  match goal with
  | |- import_loop clock' data 0 0 ?s1 = _ =>
      destruct (import_loop_run clock' data 0 0 s1) as (added' & g' & E2 & _ & _ & _ & Z)
  end.
  rewrite E2. destruct Z as [-> ->].
  - exact H.
  - intros item name Hin Hname Hv. cbn [db files]. exact (N H item name Hin Hname Hv).
  - rewrite store_same. reflexivity.
Qed.

Lemma importData_idempotent_witness :
  importData (fun _ _ => "2024-02-02T00:00:00.000Z")
    (JObj [("data", JArr [JObj [("fileName", JStr "A.mp4")];
                          JObj [("fileName", JStr "B.mp4")]; JNull])])
    (snd (importData (fun _ _ => "2024-01-01T00:00:00.000Z")
            (JObj [("data", JArr [JObj [("fileName", JStr "A.mp4")];
                                  JObj [("fileName", JStr "B.mp4")]; JNull])])
            (mkStore Scenario.healthy_store 2 (fun _ => false))))
  = (Ok 0,
     snd (importData (fun _ _ => "2024-01-01T00:00:00.000Z")
            (JObj [("data", JArr [JObj [("fileName", JStr "A.mp4")];
                                  JObj [("fileName", JStr "B.mp4")]; JNull])])
            (mkStore Scenario.healthy_store 2 (fun _ => false)))).
Proof.
  apply (importData_idempotent (fun _ _ => "2024-01-01T00:00:00.000Z")
           (fun _ _ => "2024-02-02T00:00:00.000Z") _
           [JObj [("fileName", JStr "A.mp4")]; JObj [("fileName", JStr "B.mp4")]; JNull]
           (mkStore Scenario.healthy_store 2 (fun _ => false)) _ 1).
  - repeat split.
  - reflexivity.
  - reflexivity.
Defined.

(** X24: importing the export of a store into that store changes nothing.
    On a store where every request succeeds, [exportData] resolves with an
    object whose [data] holds the records, and [importData] of this object
    resolves with 0 and leaves the store as it is. *)
Theorem exportData_reimport :
  forall (now : nat -> string) (clock : nat -> nat -> string) (version : Z)
    (s : object_store),
    healthy s ->
    exists exported,
      exportData now version s = (Ok exported, s) /\
      get exported "data" = JArr (map JObj (files (db s))) /\
      importData clock exported s = (Ok 0, s).
Proof.
  intros now clock version s H. pose proof H as (Ht & Hi & Hr & Hf).
  eexists. split; [|split].
  - unfold exportData, getAllFiles, transaction, bind. rewrite Ht, Hr. reflexivity.
  - reflexivity.
  - unfold importData, bind, lift_res. cbn [member get assoc String.eqb Ascii.eqb
      Bool.eqb truthy is_array negb orb elements].
    destruct (import_loop_run clock (map JObj (files (db s))) 0 0 s)
      as (added & g & E & _ & _ & _ & Z).
    rewrite E. destruct Z as [-> ->]; [exact H | | rewrite store_same; reflexivity].
    intros item name Hin Hname Hv. apply in_map_iff in Hin as (record & <- & Hin).
    cbn [member get] in Hname. injection Hname as <-.
    unfold named. apply existsb_exists. exists record.
    split; [exact Hin | apply same_key_refl; exact Hv].
Qed.

Lemma exportData_reimport_witness :
  exists exported,
    exportData (fun _ => "2024-01-01T00:00:00.000Z") 2
      (mkStore Scenario.healthy_store 2 (fun _ => false))
    = (Ok exported, mkStore Scenario.healthy_store 2 (fun _ => false)) /\
    importData (fun _ _ => "2024-02-02T00:00:00.000Z") exported
      (mkStore Scenario.healthy_store 2 (fun _ => false))
    = (Ok 0, mkStore Scenario.healthy_store 2 (fun _ => false)).
Proof.
  destruct (exportData_reimport (fun _ => "2024-01-01T00:00:00.000Z")
              (fun _ _ => "2024-02-02T00:00:00.000Z") 2
              (mkStore Scenario.healthy_store 2 (fun _ => false)))
    as (exported & E & _ & I).
  - repeat split.
  - exists exported. split; [exact E | exact I].
Defined.

(** X25: [deleteFile] with the key that [insertFile] returned undoes the
    insertion, on a store where every request succeeds and no record has
    the next key yet: the count goes up by one and the records are the old
    ones again. An id that cannot be a key ([undefined], [null], a boolean,
    an object) is rejected with a [DataError] and nothing is deleted. *)
Theorem deleteFile_undoes_insertFile :
  forall (now : nat -> string) (s : object_store)
    (fileId fileName fileType shareLink : json),
    healthy s ->
    (forall record, In record (files (db s)) ->
                    same_key (JNum (keyGenerator s)) (assoc "id" record) = false) ->
    (exists key s1 s2,
       insertFile now fileId fileName fileType shareLink s = (Ok key, s1) /\
       getFileCount s1 = (Ok (S (List.length (files (db s)))), s1) /\
       deleteFile key s1 = (Ok tt, s2) /\
       files (db s2) = files (db s)) /\
    (forall id, valid_key id = false -> deleteFile id s = (Throw data_error, s)).
Proof.
  intros now s fileId fileName fileType shareLink H Hfresh.
  pose proof H as (Ht & Hi & Hr & Hf). split.
  - eexists _, _, _. split; [|split; [|split]].
    + unfold insertFile, transaction. rewrite Ht. apply add_run. apply Hf.
    + unfold getFileCount, transaction. cbn [db transaction_error fails files].
      rewrite Ht, Hf, length_app, Nat.add_1_r. reflexivity.
    + unfold deleteFile, transaction. cbn [db transaction_error fails valid_key].
      rewrite Ht, Hf. reflexivity.
    + unfold with_files. cbn [db files]. rewrite filter_app.
      rewrite (forallb_filter_id _ (files (db s))).
      2:{ apply forallb_forall. intros record Hin.
          rewrite (Hfresh record Hin). reflexivity. }
      cbn [filter assoc app String.eqb Ascii.eqb Bool.eqb same_key].
      rewrite Z.eqb_refl. cbn [negb]. apply app_nil_r.
  - intros id Hid. unfold deleteFile, transaction. rewrite Ht, Hid. reflexivity.
Qed.

Lemma deleteFile_undoes_insertFile_witness :
  exists key s1 s2,
    insertFile (fun _ => "2024-01-01T00:00:00.000Z") (JStr "newid1") (JStr "B.mp4")
      (JStr "video") (JStr "L2") (mkStore Scenario.healthy_store 2 (fun _ => false))
    = (Ok key, s1) /\
    deleteFile key s1 = (Ok tt, s2) /\
    files (db s2) = files Scenario.healthy_store.
Proof.
  destruct (proj1 (deleteFile_undoes_insertFile (fun _ => "2024-01-01T00:00:00.000Z")
                     (mkStore Scenario.healthy_store 2 (fun _ => false))
                     (JStr "newid1") (JStr "B.mp4") (JStr "video") (JStr "L2")
                     ltac:(repeat split)
                     ltac:(intros record [<- | []]; reflexivity)))
    as (key & s1 & s2 & E1 & _ & E2 & F).
  exists key, s1, s2. auto.
Defined.

(** X26: after [clearAllData], on a store where every request succeeds,
    the count is 0 and the duplicate check knows no name and no link. *)
Theorem clearAllData_forgets :
  forall s : object_store,
    healthy s ->
    exists s',
      clearAllData s = (Ok tt, s') /\
      getFileCount s' = (Ok 0, s') /\
      forall fileName shareLink,
        IndexedDBService.checkDuplicate (db s') fileName shareLink
        = Ok (mkVerdict false "none" false false).
Proof.
  intros s H. pose proof H as (Ht & Hi & Hr & Hf).
  eexists. split; [|split].
  - unfold clearAllData, transaction. rewrite Ht, Hf. reflexivity.
  - unfold getFileCount, transaction, with_files. cbn [db transaction_error fails files].
    rewrite Ht, Hf. reflexivity.
  - intros fileName shareLink. unfold IndexedDBService.checkDuplicate, with_files.
    cbn [db]. rewrite fileExistsByShareLink_scan by assumption.
    unfold fileExists, index_has. cbn [transaction_error indexNames request_fails files].
    rewrite Ht, Hi, Hr. reflexivity.
Qed.

Lemma clearAllData_forgets_witness :
  exists s',
    clearAllData (mkStore Scenario.healthy_store 2 (fun _ => false)) = (Ok tt, s') /\
    getFileCount s' = (Ok 0, s').
Proof.
  destruct (clearAllData_forgets (mkStore Scenario.healthy_store 2 (fun _ => false)))
    as (s' & E & C & _).
  - repeat split.
  - exists s'. split; [exact E | exact C].
Defined.

(** *** [init] *)

Lemma contains_snoc (names : list string) (added name : string) :
  contains (names ++ [added]) name = contains names name || (name =? added).
Proof.
  unfold contains. rewrite existsb_app. cbn [existsb]. rewrite orb_false_r. reflexivity.
Qed.

(** X30: the indexes after [init]. The upgrade of a database without the
    object store creates all six indexes, so that on a new database both
    lookups of the duplicate check answer [false] through their indexes;
    the upgrade of an older database keeps the indexes it had and adds
    those of the three link fields that it lacked, each once. *)
Theorem onupgradeneeded_indexes :
  forall (oldVersion : Z) (existing : option (list string)),
    (oldVersion < 2)%Z ->
    let names := onupgradeneeded oldVersion existing in
    contains names "shareLink" = true /\
    contains names "shareUrl" = true /\
    contains names "originalUrl" = true /\
    (existing = None ->
     names = Scenario.all_indexes /\
     forall fileName shareLink,
       IndexedDBService.checkDuplicate (mkDb None names [] (fun _ => false))
         fileName shareLink
       = Ok (mkVerdict false "none" false false)) /\
    (forall old,
        existing = Some old ->
        exists added,
          names = (old ++ added)%list /\
          NoDup added /\
          forall name,
            In name added <->
            In name ["shareLink"; "shareUrl"; "originalUrl"]
            /\ contains old name = false).
Proof.
  intros oldVersion existing Hold names. subst names. unfold onupgradeneeded.
  apply Z.ltb_lt in Hold. rewrite Hold. cbv zeta.
  set (created := match existing with
                  | Some old => old
                  | None => ["fileName"; "fileType"; "createTime"]
                  end).
  assert (Shape : exists added,
            fold_left (fun names indexName =>
                         if negb (contains names indexName)
                         then (names ++ [indexName])%list else names)
              ["shareLink"; "shareUrl"; "originalUrl"] created
            = (created ++ added)%list /\
            added = ((if contains created "shareLink" then [] else ["shareLink"])
                     ++ (if contains created "shareUrl" then [] else ["shareUrl"])
                     ++ (if contains created "originalUrl" then []
                         else ["originalUrl"]))%list).
  { eexists. split; [|reflexivity]. cbn [fold_left].
    destruct (contains created "shareLink") eqn:C1; cbn [negb];
      rewrite ?contains_snoc; cbn [String.eqb Ascii.eqb Bool.eqb];
      rewrite ?orb_false_r;
      destruct (contains created "shareUrl") eqn:C2; cbn [negb];
      rewrite ?contains_snoc; cbn [String.eqb Ascii.eqb Bool.eqb];
      rewrite ?orb_false_r, ?C1;
      destruct (contains created "originalUrl") eqn:C3; cbn [negb];
      rewrite <- ?app_assoc; cbn [app]; rewrite ?app_nil_r; reflexivity. }
  destruct Shape as (added & -> & Hadded).
  assert (In3 : forall name,
            contains (created ++ added) name
            = contains created name || contains added name).
  { intros name. unfold contains. apply existsb_app. }
  split; [|split; [|split; [|split]]].
  - rewrite In3, Hadded. destruct (contains created "shareLink"); reflexivity.
  - rewrite In3, Hadded.
    destruct (contains created "shareLink"), (contains created "shareUrl"); reflexivity.
  - rewrite In3, Hadded.
    destruct (contains created "shareLink"), (contains created "shareUrl"),
      (contains created "originalUrl"); reflexivity.
  - intros ->. subst created added. cbn. split; reflexivity.
  - intros old ->. subst created. exists added. split; [reflexivity|].
    rewrite Hadded. clear Hadded In3.
    destruct (contains old "shareLink") eqn:C1, (contains old "shareUrl") eqn:C2,
      (contains old "originalUrl") eqn:C3; cbn [app];
      (split; [repeat constructor; cbn; intuition discriminate|]);
      intros name; cbn [In]; split;
      try (intros [[<- | [<- | [<- | []]]] Hc]; auto; congruence);
      intuition (subst; auto).
Qed.

Lemma onupgradeneeded_indexes_witness :
  onupgradeneeded 1 (Some ["fileName"; "fileType"; "createTime"; "shareLink"])
  = ["fileName"; "fileType"; "createTime"; "shareLink"; "shareUrl"; "originalUrl"].
Proof.
  destruct (onupgradeneeded_indexes 1
              (Some ["fileName"; "fileType"; "createTime"; "shareLink"])
              ltac:(lia)) as (_ & _ & _ & _ & H).
  destruct (H _ eq_refl) as (added & E & _ & _).
  reflexivity.
Defined.

End RecordFacts.

(** ** The requests of a transfer, in order *)

Module OrderFacts.

Import QuarkWebService Timeline AsyncFacts RequestFacts ProtocolFacts StoreFacts
  ScheduleFacts StoreCostFacts.

Section Costs.

Variable W : Type.
Variable fetch : api_call -> W -> fetch_outcome * W.
Variable text_gt_zero : string -> bool.

Local Abbreviation net := (net W).

Lemma costs_ret {A} (a : A) : costs (@ret net A a) (Ok a) [] [] [].
Proof. intros st. exists (world st), []. split; [apply yields_ret | auto]. Qed.

Lemma costs_throw {A} (e : thrown) : costs (@throw net A e) (Throw e) [] [] [].
Proof. intros st. exists (world st), []. split; [apply yields_throw | auto]. Qed.

Lemma costs_log (level : log_level) (label : string) :
  costs (log W level label) (Ok tt) [] [] [].
Proof. intros st. exists (world st), [ELog level label]. repeat split. Qed.

Lemma costs_sleep (ms : nat) : costs (sleep W ms) (Ok tt) [] [ms] [].
Proof. intros st. exists (world st), [ESleep ms]. repeat split. Qed.

Lemma costs_progress (cb : option callback) (step : Z) (msg : string) (pct : Z) :
  returns cb ->
  costs (progress W cb step msg pct) (Ok tt) [] []
    (match cb with Some _ => [(step, msg, pct)] | None => [] end).
Proof.
  intros H st. exists (world st), (reported cb step msg pct).
  split; [apply yields_progress; exact H|]. destruct cb; repeat split.
Qed.

Lemma costs_lift_res {A} (x : res A) : costs (@lift_res net A x) x [] [] [].
Proof. intros st. exists (world st), []. split; [apply yields_lift_res | auto]. Qed.

Lemma costs_bind_throw {A B} (m : M net A) (k : A -> M net B) (e : thrown)
  (cs : list api_call) (ws : list nat) (rs : list (Z * string * Z)) :
  costs m (Throw e) cs ws rs -> costs (bind m k) (Throw e) cs ws rs.
Proof.
  intros Hm st. destruct (Hm st) as (x1 & evs1 & E1 & C1).
  exists x1, evs1. split; [apply yields_bind_throw; exact E1 | exact C1].
Qed.

Lemma costs_try_caught {A} (m : M net A) (h : thrown -> M net A) (e : thrown)
  (r : res A) (c1 c2 : list api_call) (w1 w2 : list nat)
  (r1 r2 : list (Z * string * Z)) :
  costs m (Throw e) c1 w1 r1 -> costs (h e) r c2 w2 r2 ->
  costs (try_catch m h) r (c1 ++ c2) (w1 ++ w2) (r1 ++ r2).
Proof.
  intros Hm Hh st. destruct (Hm st) as (x1 & evs1 & E1 & C1 & S1 & R1).
  destruct (Hh (mkNet x1 (trace st ++ evs1))) as (x2 & evs2 & E2 & C2 & S2 & R2).
  exists x2, (evs1 ++ evs2)%list.
  split; [exact (yields_try_caught W _ _ _ _ _ _ _ _ _ E1 E2)|].
  rewrite calls_app, sleeps_app, reports_app. subst. auto.
Qed.

Lemma costs_bind {A B} (m : M net A) (k : A -> M net B) (a : A) (r : res B)
  (c1 c2 : list api_call) (w1 w2 : list nat) (r1 r2 : list (Z * string * Z)) :
  costs m (Ok a) c1 w1 r1 -> costs (k a) r c2 w2 r2 ->
  costs (bind m k) r (c1 ++ c2) (w1 ++ w2) (r1 ++ r2).
Proof.
  intros Hm Hk st. destruct (Hm st) as (x1 & evs1 & E1 & C1 & S1 & R1).
  destruct (Hk (mkNet x1 (trace st ++ evs1))) as (x2 & evs2 & E2 & C2 & S2 & R2).
  exists x2, (evs1 ++ evs2)%list. split; [exact (yields_bind W _ _ _ _ _ _ _ _ _ E1 E2)|].
  rewrite calls_app, sleeps_app, reports_app. subst. auto.
Qed.

Lemma costs_try_ok {A} (m : M net A) (h : thrown -> M net A) (a : A)
  (cs : list api_call) (ws : list nat) (rs : list (Z * string * Z)) :
  costs m (Ok a) cs ws rs -> costs (try_catch m h) (Ok a) cs ws rs.
Proof.
  intros Hm st. destruct (Hm st) as (x1 & evs1 & E1 & C1).
  exists x1, evs1. split; [apply yields_try_ok; exact E1 | exact C1].
Qed.

Lemma costs_request (c : api_call) (v : json) :
  answers fetch c v -> costs (request W fetch c default_retries) (Ok v) [c] [] [].
Proof.
  intros H st. exists (snd (fetch c (world st))), [EFetch c].
  split; [apply request_answered; exact H | auto].
Qed.

(** A helper of the shape [try { response = await request; return f(response) }]. *)
Lemma costs_helper {A} (c : api_call) (v : json) (f : json -> A)
  (h : thrown -> M net A) :
  answers fetch c v ->
  costs (try_catch (response <- request W fetch c default_retries ;; ret (f response)) h)
    (Ok (f v)) [c] [] [].
Proof.
  intros H. apply costs_try_ok.
  apply (costs_bind _ _ v (Ok (f v)) [c] [] [] [] [] []);
    [apply costs_request; exact H | apply costs_ret].
Qed.

Lemma costs_detail (pwdId : string) (stoken : json) (params_stoken : string)
  (v : json) (entry : list (string * json)) (others : list json) :
  to_string stoken = Ok params_stoken ->
  answers fetch (CallDetail pwdId params_stoken) v ->
  get (get v "data") "list" = JArr (JObj entry :: others) ->
  costs (detail W fetch text_gt_zero pwdId stoken)
    (Ok (Some (mkDetail (assoc "file_name" entry) (assoc "file_type" entry)
                 (assoc "fid" entry) (assoc "pdir_fid" entry)
                 (assoc "share_fid_token" entry))))
    [CallDetail pwdId params_stoken] [] [].
Proof.
  intros T H L. unfold detail. apply costs_try_ok. rewrite T.
  apply (costs_bind _ _ params_stoken _ [] [CallDetail pwdId params_stoken] [] [] [] []);
    [apply costs_lift_res|].
  apply (costs_bind _ _ v _ [CallDetail pwdId params_stoken] [] [] [] [] []);
    [apply costs_request; exact H|].
  rewrite L. cbn -[Z.of_nat].
  replace (0 <? Z.of_nat (S (List.length others)))%Z with true
    by (symmetry; apply Z.ltb_lt; lia).
  apply (costs_bind _ _ true _ [] [] [] [] [] []); [apply costs_lift_res|].
  apply costs_ret.
Qed.

(** The polls of a job that resolves at the poll [i + k]. *)
Lemma costs_task_loop (taskId : json) (task_id : string) (v : json) :
  to_string taskId = Ok task_id ->
  forall k i left,
    k < left ->
    (forall j, i <= j < i + k ->
       exists vj, answers fetch (CallTask task_id j) vj /\
                  truthy (get (get vj "data") "status") = false) ->
    answers fetch (CallTask task_id (i + k)) v ->
    truthy (get (get v "data") "status") = true ->
    costs (task_loop W fetch taskId i left) (Ok (Some v))
      (map (CallTask task_id) (seq i (S k))) (repeat 1000 k) [].
Proof.
  intros T. induction k as [|k IH]; intros i left Hk Hpending Hv Hs;
    (destruct left as [|left]; [lia|]); cbn [task_loop]; rewrite T;
    (eapply (costs_bind _ _ task_id _ [] _ [] _ [] _); [apply costs_lift_res|]);
    cbn [app].
  - rewrite Nat.add_0_r in Hv.
    apply (costs_bind _ _ v _ [CallTask task_id i] [] [] [] [] []);
      [apply costs_request; exact Hv|].
    rewrite Hs. apply costs_ret.
  - destruct (Hpending i ltac:(lia)) as (vi & Hvi & Hsi).
    apply (costs_bind _ _ vi _ [CallTask task_id i] (map (CallTask task_id) (seq (S i) (S k)))
             [] (1000 :: repeat 1000 k) [] []);
      [apply costs_request; exact Hvi|].
    rewrite Hsi.
    apply (costs_bind _ _ tt _ [] (map (CallTask task_id) (seq (S i) (S k)))
             [1000] (repeat 1000 k) [] []); [apply costs_sleep|].
    apply IH.
    + lia.
    + intros j Hj. apply Hpending. lia.
    + replace (S i + k) with (i + S k) by lia. exact Hv.
    + exact Hs.
Qed.

Lemma costs_task (taskId : json) (task_id : string) (v : json) (k : nat) :
  to_string taskId = Ok task_id ->
  resolves_at fetch taskId default_maxTries k v ->
  costs (task W fetch taskId default_maxTries) (Ok (Some v))
    (map (CallTask task_id) (seq 0 (S k))) (repeat 1000 k) [].
Proof.
  intros T (task_id' & T' & Hk & Hpending & Hv & Hs).
  rewrite T in T'. injection T' as <-. unfold task. apply costs_try_ok.
  apply (costs_task_loop taskId task_id); auto. intros j Hj. apply Hpending. lia.
Qed.

Lemma or_else_truthy (a b : json) : truthy a = true -> or_else a b = a.
Proof. intros H. unfold or_else. rewrite H. reflexivity. Qed.

Lemma truthy_length (x : json) (more : list json) :
  truthy (get (JArr (x :: more)) "length") = true.
Proof.
  cbn -[Z.of_nat]. apply negb_true_iff. apply Z.eqb_neq. lia.
Qed.

(** The end of the [try] block of [store]: the name of the file as text,
    a log line, the result. *)
Lemma costs_finish {A} (v : json) (label : string) (k : string -> A) :
  costs (name <- lift_res (to_string v) ;; log W LInfo label ;;; ret (k name))
    (map_res k (to_string v)) [] [] [].
Proof.
  destruct (to_string v) as [name|e]; cbn [map_res].
  - apply (costs_bind _ _ name _ [] [] [] [] [] []); [apply costs_lift_res|].
    apply (costs_bind _ _ tt _ [] [] [] [] [] []); [apply costs_log | apply costs_ret].
  - apply costs_bind_throw. apply costs_lift_res.
Qed.

(** The [try] block of [store] against an upstream that serves the
    transfer: every request is made, and the block ends on the text of the
    name of the file. *)
Lemma costs_store_try (url pwdId : string) (cb : option callback) (stoken : json)
  (params_stoken : string) (entry : list (string * json)) (saveTask : json)
  (save_id : string) (k1 : nat) (fileId shareTask : json) (share_task_id : string)
  (k2 : nat) (shareId shareLink : json) :
  UrlUtils.getIdFromUrl url = pwdId -> pwdId <> "" -> returns cb ->
  serves_transfer fetch pwdId stoken entry saveTask k1 fileId shareTask k2 shareId
    shareLink ->
  to_string stoken = Ok params_stoken ->
  to_string saveTask = Ok save_id ->
  to_string shareTask = Ok share_task_id ->
  exists body cs ws rs,
    store W fetch text_gt_zero url cb
    = try_catch body
        (fun error =>
           msg <- lift_res (message_of error) ;;
           log W LError "转存失败:" ;;;
           progress W cb (-1) ("转存失败: " ++ msg) 0 ;;;
           ret (mkOutcome false ("转存失败: " ++ msg) None)) /\
    costs body
      (map_res (fun name =>
                  mkOutcome true ("文件转存成功: " ++ name)
                    (Some (mkData fileId (assoc "file_name" entry)
                             (assoc "file_type" entry) shareLink)))
         (to_string (assoc "file_name" entry)))
      cs ws rs /\
    cs = ([CallToken pwdId; CallDetail pwdId params_stoken;
           CallSave pwdId stoken (assoc "fid" entry) (assoc "share_fid_token" entry) "0"]
          ++ map (CallTask save_id) (seq 0 (S k1))
          ++ [CallShare fileId (assoc "file_name" entry)]
          ++ map (CallTask share_task_id) (seq 0 (S k2))
          ++ [CallSharePassword shareId])%list /\
    ws = repeat 1000 (k1 + k2) /\
    rs = match cb with Some _ => store_steps | None => [] end.
Proof.
  intros Hid Hne Hcb
    (tokenBody & listing & others & saveBody & saveResult & more & shareBody
     & shareResult & linkBody & Htoken & Hstoken & Tstoken
     & (params' & Tparams & Hlisting) & Hlist & Hsave
     & HsaveTask & TsaveTask & Rsave & Htop & Hshare & HshareTask & TshareTask
     & Rshare & HshareId & TshareId & Hlink & HshareLink & TshareLink)
    Wstoken Wsave Wshare.
  apply String.eqb_neq in Hne.
  eexists _, _, _, _. split; [reflexivity|]. split.
  - cbv zeta. eapply costs_bind; [apply costs_log | cbv beta].
    eapply costs_bind; [apply costs_progress; exact Hcb | cbv beta].
    rewrite Hid, Hne. cbn [negb require].
    eapply costs_bind; [apply costs_ret | cbv beta].
    eapply costs_bind; [apply costs_progress; exact Hcb | cbv beta].
    cbn [self this_getStoken this_detail this_saveTaskId this_task this_shareTaskId
           this_getShareLink].
    eapply costs_bind;
      [unfold getStoken; apply costs_helper; exact Htoken | cbv beta].
    rewrite Hstoken, (or_else_truthy _ _ Tstoken), Tstoken. cbn [require].
    eapply costs_bind; [apply costs_ret | cbv beta].
    eapply costs_bind; [apply costs_progress; exact Hcb | cbv beta].
    eapply costs_bind; [exact (costs_detail _ _ _ _ _ _ Tparams Hlisting Hlist) | cbv beta].
    cbn [title fid share_fid_token file_type].
    eapply costs_bind; [apply costs_progress; exact Hcb | cbv beta].
    eapply costs_bind;
      [unfold saveTaskId; apply costs_helper; exact Hsave | cbv beta].
    rewrite HsaveTask, (or_else_truthy _ _ TsaveTask), TsaveTask. cbn [require].
    eapply costs_bind; [apply costs_ret | cbv beta].
    eapply costs_bind; [exact (costs_task _ _ _ _ Wsave Rsave) | cbv beta].
    cbn [or_null]. rewrite Htop, truthy_length. cbn [require at_index nth].
    eapply costs_bind; [apply costs_ret | cbv beta].
    eapply costs_bind; [apply costs_progress; exact Hcb | cbv beta].
    eapply costs_bind;
      [unfold shareTaskId; apply costs_helper; exact Hshare | cbv beta].
    rewrite HshareTask, (or_else_truthy _ _ TshareTask), TshareTask. cbn [require].
    eapply costs_bind; [apply costs_ret | cbv beta].
    eapply costs_bind; [exact (costs_task _ _ _ _ Wshare Rshare) | cbv beta].
    cbn [or_null]. rewrite HshareId, TshareId. cbn [require].
    eapply costs_bind; [apply costs_ret | cbv beta].
    eapply costs_bind;
      [unfold getShareLink; apply costs_helper; exact Hlink | cbv beta].
    rewrite HshareLink, (or_else_truthy _ _ TshareLink), TshareLink. cbn [require].
    eapply costs_bind; [apply costs_ret | cbv beta].
    eapply costs_bind; [apply costs_progress; exact Hcb | cbv beta].
    refine (costs_finish _ _ (fun name => _)).
  - rewrite Wstoken in Tparams. injection Tparams as <-. split; [|split].
    + cbn [app]. rewrite ?app_nil_r. reflexivity.
    + cbn [app]. rewrite ?app_nil_r, repeat_app. reflexivity.
    + destruct cb; reflexivity.
Qed.

End Costs.

Section Metadata.

Variable W : Type.
Variable fetch : api_call -> W -> fetch_outcome * W.
Variable text_gt_zero : string -> bool.

Local Abbreviation net := (net W).

Lemma yields_pure {A} (m : M net A) (st : net) (x : res A) :
  m st = (x, st) -> yields m st x (world st) [].
Proof.
  intros E. unfold yields. rewrite E, app_nil_r. destruct st. reflexivity.
Qed.

(** A helper of the shape [try { response = await request; ... } catch
    { log; return fallback }], whose [try] block does nothing after the
    request but compute: it always returns, after one to three fetches. *)
Lemma helper_cost {A} (c : api_call) (body : json -> M net A) (label : string)
  (fallback : A) (st : net) :
  (forall v st0, exists x, body v st0 = (x, st0) /\ x <> Throw ThrownUndefined) ->
  exists r w' k evs,
    yields (try_catch (response <- request W fetch c default_retries ;; body response)
              (log_and_return W label fallback)) st (Ok r) w' evs /\
    k <= 3 /\ calls evs = repeat c k.
Proof.
  intros Hbody.
  destruct (request_cost W fetch c default_retries st)
    as (r0 & w' & k & evs & E & Hk & C & _ & _).
  unfold default_retries in Hk.
  assert (Caught : forall name msg evs0,
            calls evs0 = repeat c k ->
            yields (response <- request W fetch c default_retries ;; body response)
              st (Throw (ErrorObj name msg)) w' evs0 ->
            exists r w'' k' evs',
              yields (try_catch
                        (response <- request W fetch c default_retries ;; body response)
                        (log_and_return W label fallback)) st (Ok r) w'' evs' /\
              k' <= 3 /\ calls evs' = repeat c k').
  { intros name msg evs0 C0 E0.
    exists fallback, w', k, (evs0 ++ [ELog LError label])%list. split; [|split].
    - eapply yields_try_caught; [exact E0|].
      eapply yields_world; [apply yields_log_and_return | reflexivity].
    - exact Hk.
    - rewrite calls_app, C0. cbn. apply app_nil_r. }
  destruct r0 as [v|e].
  - destruct (Hbody v (mkNet w' (trace st ++ evs))) as (x & Ex & Hx).
    apply yields_pure in Ex. cbn [world] in Ex.
    destruct x as [a|e].
    + exists a, w', k, (evs ++ [])%list. split; [|split].
      * apply yields_try_ok. eapply yields_bind; [exact E | exact Ex].
      * exact Hk.
      * rewrite app_nil_r. exact C.
    + destruct e as [name msg|]; [|congruence].
      apply (Caught name msg (evs ++ [])%list).
      * rewrite app_nil_r. exact C.
      * eapply yields_bind; [exact E | exact Ex].
  - pose proof (throws_errors_request W fetch _ _ _ _ E) as Hne.
    destruct e as [name msg|]; [|congruence].
    apply (Caught name msg evs C). apply yields_bind_throw. exact E.
Qed.

Lemma getStoken_cost (pwdId : string) (st : net) :
  exists r w' k evs,
    yields (getStoken W fetch pwdId) st (Ok r) w' evs /\
    k <= 3 /\ calls evs = repeat (CallToken pwdId) k.
Proof.
  apply helper_cost. intros v st0. eexists. split; [reflexivity | discriminate].
Qed.

(** [detail] always returns: after one to three fetches of the listing for
    a token that converts to text, and without any for one that does not. *)
Lemma detail_cost (pwdId : string) (stoken : json) (st : net) :
  exists r w' k evs params_stoken,
    yields (detail W fetch text_gt_zero pwdId stoken) st (Ok r) w' evs /\
    k <= 3 /\ calls evs = repeat (CallDetail pwdId params_stoken) k.
Proof.
  destruct (to_string stoken) as [params_stoken|e] eqn:T.
  - destruct (helper_cost (CallDetail pwdId params_stoken)
                (fun response =>
                   positive <- lift_res
                                 (gt_zero text_gt_zero
                                    (get (get (get response "data") "list") "length")) ;;
                   if positive then
                     let idList := at_index (get (get response "data") "list") 0 in
                     file_name <- lift_res (member idList "file_name") ;;
                     file_type <- lift_res (member idList "file_type") ;;
                     fid <- lift_res (member idList "fid") ;;
                     pdir_fid <- lift_res (member idList "pdir_fid") ;;
                     share_fid_token <- lift_res (member idList "share_fid_token") ;;
                     ret (Some (mkDetail file_name file_type fid pdir_fid
                                  share_fid_token))
                   else ret None)
                "获取文件详情失败:" None st) as (r & w' & k & evs & E & Hk & C).
    { intros v st0.
      destruct (gt_zero text_gt_zero (get (get (get v "data") "list") "length"))
        as [[|]|e] eqn:G.
      - destruct (at_index (get (get v "data") "list") 0);
          eexists; (split; [reflexivity | discriminate]).
      - eexists. split; [reflexivity | discriminate].
      - pose proof (gt_zero_throws _ _ _ G) as ->.
        eexists. split; [reflexivity | discriminate]. }
    exists r, w', k, evs, params_stoken. split; [|auto].
    unfold detail. rewrite T. exact E.
  - pose proof (to_string_throws _ _ T) as ->.
    exists None, (world st), 0, [ELog LError "获取文件详情失败:"], "".
    split; [|auto]. unfold detail. rewrite T. reflexivity.
Qed.

(** The metadata lookup: a token, then a listing. *)
Lemma getFileInfo_cost (url : string) (st : net) :
  exists r w' evs k1 k2 stoken,
    yields (getFileInfo W fetch text_gt_zero url) st (Ok r) w' evs /\
    k1 <= 3 /\ k2 <= 3 /\
    calls evs = (repeat (CallToken (UrlUtils.getIdFromUrl url)) k1
                 ++ repeat (CallDetail (UrlUtils.getIdFromUrl url) stoken) k2)%list /\
    match r with
    | Some info => info_fileSize info = JNum 0
    | None => True
    end.
Proof.
  unfold getFileInfo.
  destruct (negb (UrlUtils.getIdFromUrl url =? "")) eqn:Hid; cbn [require].
  2:{ eexists None, (world st), _, 0, 0, "". split.
      - eapply yields_try_caught.
        + apply yields_bind_throw. apply yields_throw.
        + eapply yields_world; [apply yields_log_and_return | reflexivity].
      - repeat split; lia. }
  destruct (getStoken_cost (UrlUtils.getIdFromUrl url) (mkNet (world st) (trace st ++ [])))
    as (stoken & w1 & k1 & evs1 & E1 & Hk1 & C1).
  destruct (truthy stoken) eqn:Ts.
  2:{ eexists None, w1, _, k1, 0, "". split.
      - eapply yields_try_caught.
        + eapply yields_bind; [apply yields_ret|].
          eapply yields_bind; [exact E1|]. rewrite Ts. cbn [require].
          apply yields_bind_throw. apply yields_throw.
        + eapply yields_world; [apply yields_log_and_return | reflexivity].
      - repeat split; try lia.
        rewrite !calls_app, C1. cbn. rewrite !app_nil_r. reflexivity. }
  destruct (detail_cost (UrlUtils.getIdFromUrl url) stoken
              (mkNet w1 (((trace st ++ []) ++ evs1) ++ [])))
    as (d & w2 & k2 & evs2 & params_stoken & E2 & Hk2 & C2).
  assert (Body : forall r evs3,
            yields (match d with
                    | Some d0 =>
                        ret (Some (mkInfo (title d0) (file_type d0)
                                     (or_else JUndefined (JNum 0)) (fid d0)
                                     (share_fid_token d0)))
                    | None => throw (Error "获取文件详情失败")
                    end)
              (mkNet w2 ((((trace st ++ []) ++ evs1) ++ []) ++ evs2)) r w2 evs3 ->
            yields (require W true "无法从链接中提取文件ID" ;;;
                    stoken0 <- getStoken W fetch (UrlUtils.getIdFromUrl url) ;;
                    require W (truthy stoken0) "获取分享令牌失败" ;;;
                    detail_opt <- detail W fetch text_gt_zero
                                    (UrlUtils.getIdFromUrl url) stoken0 ;;
                    match detail_opt with
                    | Some d0 =>
                        ret (Some (mkInfo (title d0) (file_type d0)
                                     (or_else JUndefined (JNum 0)) (fid d0)
                                     (share_fid_token d0)))
                    | None => throw (Error "获取文件详情失败")
                    end) st r w2 ([] ++ evs1 ++ [] ++ evs2 ++ evs3)).
  { intros r evs3 E3.
    eapply yields_bind; [apply yields_ret|].
    eapply yields_bind; [exact E1|]. rewrite Ts. cbn [require].
    eapply yields_bind; [apply yields_ret|].
    eapply yields_bind; [cbn [world trace]; exact E2|]. exact E3. }
  destruct d as [d0|].
  - eexists (Some (mkInfo (title d0) (file_type d0) (or_else JUndefined (JNum 0)) (fid d0)
                    (share_fid_token d0))), w2, _, k1, k2, params_stoken.
    split.
    + apply yields_try_ok. apply Body. apply yields_ret_at. reflexivity.
    + repeat split; try lia.
      rewrite !calls_app, C1, C2. cbn. rewrite !app_nil_r. reflexivity.
  - eexists None, w2, _, k1, k2, params_stoken. split.
    + eapply yields_try_caught.
      * apply Body. eapply yields_world; [apply yields_throw | reflexivity].
      * eapply yields_world; [apply yields_log_and_return | reflexivity].
    + repeat split; try lia.
      rewrite !calls_app, C1, C2. cbn. rewrite !app_nil_r. reflexivity.
Qed.

End Metadata.

Section Failures.

Variable W : Type.
Variable fetch : api_call -> W -> fetch_outcome * W.
Variable text_gt_zero : string -> bool.

Local Abbreviation net := (net W).

Lemma raises_total {A} (msgs : list string) (m : M net A) : total m -> raises msgs m.
Proof.
  intros H st e st' E. destruct (H st) as (a & st1 & E1). congruence.
Qed.

Lemma raises_bind {A B} (msgs : list string) (m : M net A) (k : A -> M net B) :
  raises msgs m -> (forall a, raises msgs (k a)) -> raises msgs (bind m k).
Proof.
  intros Hm Hk st e st' E. apply bind_inv in E as [(a & st1 & _ & E) | (e0 & E0 & E)].
  - exact (Hk a _ _ _ E).
  - injection E as <-. exact (Hm _ _ _ E0).
Qed.

Lemma raises_throw {A} (msgs : list string) (msg : string) :
  In msg msgs -> raises msgs (@throw net A (Error msg)).
Proof. intros H st e st' E. injection E as <- _. eauto. Qed.

Lemma raises_to_string (msgs : list string) (v : json) :
  raises msgs (@lift_res net string (to_string v)).
Proof.
  intros st e st' E. injection E as E _. right. exact (to_string_throws _ _ E).
Qed.

Lemma raises_require (msgs : list string) (cond : bool) (msg : string) :
  In msg msgs -> raises msgs (require W cond msg).
Proof.
  intros H. destruct cond; [apply raises_total, total_ret | apply raises_throw, H].
Qed.

Ltac raising Hcb :=
  repeat first
    [ apply raises_require; simpl; tauto
    | apply raises_throw; simpl; tauto
    | apply raises_to_string
    | apply raises_total, total_emit
    | apply raises_total, total_ret
    | apply raises_total, total_progress; exact Hcb
    | apply raises_total, total_getStoken
    | apply raises_total, total_detail
    | apply raises_total, total_saveTaskId
    | apply raises_total, total_task
    | apply raises_total, total_shareTaskId
    | apply raises_total, total_getShareLink
    | match goal with
      | |- raises _ (bind _ _) => apply raises_bind; [|intros]
      | |- raises _ (match ?x with _ => _ end) => destruct x
      end ].

(** The [try] block of [store] throws only its own errors: what goes wrong
    inside a helper was caught there. *)
Lemma store_raises (url : string) (cb : option callback) :
  returns cb ->
  exists body,
    store W fetch text_gt_zero url cb
    = try_catch body
        (fun error =>
           msg <- lift_res (message_of error) ;;
           log W LError "转存失败:" ;;;
           progress W cb (-1) ("转存失败: " ++ msg) 0 ;;;
           ret (mkOutcome false ("转存失败: " ++ msg) None)) /\
    (UrlUtils.getIdFromUrl url = "" ->
     forall st e st', body st = (Throw e, st') -> e = Error "无法从链接中提取文件ID") /\
    (UrlUtils.getIdFromUrl url <> "" -> raises (tl store_failures) body) /\
    ensures body (fun o => success o = true).
Proof.
  intros Hcb. eexists. split; [reflexivity|]. split; [|split].
  - intros Hid st e st' E. rewrite Hid in E. cbn [String.eqb negb require] in E.
    unfold log in E.
    apply bind_inv in E as [(a & st1 & _ & E) | (e0 & E0 & E)].
    + apply bind_inv in E as [(a1 & st2 & _ & E) | (e0 & E0 & E)].
      * apply bind_inv in E as [(a2 & st3 & E & _) | (e0 & E0 & E)].
        -- discriminate.
        -- injection E0 as <- _. injection E as <-. reflexivity.
      * destruct (total_progress W cb 1 "解析链接" 10 Hcb st1) as (u & st2 & Ep).
        congruence.
    + discriminate.
  - intros Hid. apply String.eqb_neq in Hid.
    cbn [self this_getStoken this_detail this_saveTaskId this_task this_shareTaskId
           this_getShareLink store_failures hd tl].
    apply raises_bind; [apply raises_total, total_emit | intros _].
    apply raises_bind; [apply raises_total, total_progress; exact Hcb | intros _].
    rewrite Hid. cbn [negb require].
    unfold log. raising Hcb.
  - repeat first
      [ apply ensures_ret; reflexivity
      | apply ensures_throw
      | apply ensures_bind; intros
      | match goal with
        | |- ensures (match ?x with _ => _ end) _ => destruct x
        end ].
Qed.

End Failures.

(** The [catch] of [store]: a log line, the report of the failure, the
    result. *)
Lemma yields_store_catch (W : Type) (cb : option callback) (name msg : string)
  (st : net W) :
  returns cb ->
  yields (msg0 <- lift_res (message_of (ErrorObj name msg)) ;;
          log W LError "转存失败:" ;;;
          progress W cb (-1) ("转存失败: " ++ msg0) 0 ;;;
          ret (mkOutcome false ("转存失败: " ++ msg0) None)) st
    (Ok (mkOutcome false ("转存失败: " ++ msg) None)) (world st)
    ([ELog LError "转存失败:"] ++ reported cb (-1) ("转存失败: " ++ msg) 0).
Proof.
  intros Hcb. unfold yields. cbn [message_of].
  unfold bind at 1. unfold lift_res. unfold bind at 1. unfold log, emit.
  destruct cb as [f|]; cbn [progress reported returns] in *.
  - unfold bind, emit, ret. rewrite Hcb. cbn [world trace].
    rewrite <- app_assoc. reflexivity.
  - unfold bind, ret. reflexivity.
Qed.

(** X23: the requests of a transfer, in order. Against an upstream that
    serves every step, [store] fetches, once each, the token call, the
    listing, the save call, the polls 0 to [k1] of the save job, the share
    call, the polls 0 to [k2] of the share job and the link call; the token
    and the job identifiers travel as text. It waits one second after each
    poll without a status, [k1 + k2] seconds in all, and tells the progress
    callback the six steps. When the name of the file converts to text it
    resolves with the new file and its link; when it does not, it has made
    the same requests and resolves with a failure. *)
Theorem store_call_order :
  forall (W : Type) (fetch : api_call -> W -> fetch_outcome * W)
    (text_gt_zero : string -> bool) (url pwdId : string) (cb : option callback)
    (stoken : json) (params_stoken : string) (entry : list (string * json))
    (saveTask : json) (save_id : string) (k1 : nat) (fileId shareTask : json)
    (share_task_id : string) (k2 : nat) (shareId shareLink : json) (st : net W),
    UrlUtils.getIdFromUrl url = pwdId -> pwdId <> "" -> returns cb ->
    serves_transfer fetch pwdId stoken entry saveTask k1 fileId shareTask k2 shareId
      shareLink ->
    to_string stoken = Ok params_stoken ->
    to_string saveTask = Ok save_id ->
    to_string shareTask = Ok share_task_id ->
    exists w' evs,
      yields (store W fetch text_gt_zero url cb) st
        (match to_string (assoc "file_name" entry) with
         | Ok name =>
             Ok (mkOutcome true ("文件转存成功: " ++ name)
                   (Some (mkData fileId (assoc "file_name" entry)
                            (assoc "file_type" entry) shareLink)))
         | Throw _ => Ok (mkOutcome false unwritable_name None)
         end)
        w' evs /\
      calls evs
      = ([CallToken pwdId; CallDetail pwdId params_stoken;
          CallSave pwdId stoken (assoc "fid" entry) (assoc "share_fid_token" entry) "0"]
         ++ map (CallTask save_id) (seq 0 (S k1))
         ++ [CallShare fileId (assoc "file_name" entry)]
         ++ map (CallTask share_task_id) (seq 0 (S k2))
         ++ [CallSharePassword shareId])%list /\
      sleeps evs = repeat 1000 (k1 + k2) /\
      reports evs
      = match cb with
        | Some _ =>
            (store_steps
             ++ match to_string (assoc "file_name" entry) with
                | Ok _ => []
                | Throw _ => [((-1)%Z, unwritable_name, 0%Z)]
                end)%list
        | None => []
        end.
Proof.
  intros W fetch text_gt_zero url pwdId cb stoken params_stoken entry saveTask save_id
    k1 fileId shareTask share_task_id k2 shareId shareLink st Hid Hne Hcb Hserves
    Wstoken Wsave Wshare.
  destruct (costs_store_try W fetch text_gt_zero url pwdId cb stoken params_stoken
              entry saveTask save_id k1 fileId shareTask share_task_id k2 shareId
              shareLink Hid Hne Hcb Hserves Wstoken Wsave Wshare)
    as (body & cs & ws & rs & E & Hcosts & -> & -> & ->).
  destruct (Hcosts st) as (w1 & evs1 & E1 & C1 & S1 & R1).
  destruct (to_string (assoc "file_name" entry)) as [name|e] eqn:Tname;
    cbn [map_res] in E1.
  - exists w1, evs1. split; [|split; [exact C1 | split; [exact S1|]]].
    + unfold yields. rewrite E. apply yields_try_ok. exact E1.
    + rewrite R1. destruct cb; [rewrite app_nil_r|]; reflexivity.
  - pose proof (to_string_throws _ _ Tname) as ->.
    exists w1,
      (evs1 ++ [ELog LError "转存失败:"] ++ reported cb (-1) unwritable_name 0)%list.
    split; [|split; [|split]].
    + unfold yields. rewrite E. eapply yields_try_caught; [exact E1|].
      eapply yields_world;
        [exact (yields_store_catch W cb "TypeError"
                  "Cannot convert object to primitive value" _ Hcb)
        | reflexivity].
    + rewrite !calls_app, C1. destruct cb; cbn; rewrite !app_nil_r; reflexivity.
    + rewrite !sleeps_app, S1. destruct cb; cbn; rewrite !app_nil_r; reflexivity.
    + rewrite !reports_app, R1. destruct cb; reflexivity.
Qed.

Lemma mock_upstream_serves_transfer :
  serves_transfer Scenario.mock_upstream "abc123" (JStr "tok1")
    [("file_name", JStr "movie.mp4"); ("fid", JStr "f1"); ("share_fid_token", JStr "sft1")]
    (JStr "save-job") 0 (JStr "newid1") (JStr "share-job") 0 (JStr "sh1")
    (JStr "https://pan.quark.cn/s/newlink").
Proof.
  exists (Scenario.data_of [("stoken", JStr "tok1")]),
         (Scenario.data_of [("list", JArr [Scenario.movie])]), [],
         (Scenario.data_of [("task_id", JStr "save-job")]),
         (Scenario.data_of
            [("status", JNum 2);
             ("save_as", JObj [("save_as_top_fids", JArr [JStr "newid1"])])]), [],
         (Scenario.data_of [("task_id", JStr "share-job")]),
         (Scenario.data_of [("status", JNum 2); ("share_id", JStr "sh1")]),
         (Scenario.data_of [("share_url", JStr "https://pan.quark.cn/s/newlink")]).
  repeat match goal with
    | |- _ /\ _ => split
    | |- answers _ _ _ => intros w; eexists; repeat split
    | |- resolves_at _ _ _ _ _ =>
        eexists; split; [reflexivity|];
        split; [unfold default_maxTries; lia|];
        split; [intros i Hi; lia|]; split; [|reflexivity]
    | |- exists _ : string, _ => eexists
    | |- _ = _ => reflexivity
    end.
Qed.

Lemma store_call_order_witness :
  exists w' evs,
    yields (store unit Scenario.mock_upstream Scenario.no_text_gt_zero
              "https://pan.quark.cn/s/abc123" None) Scenario.start
      (Ok (mkOutcome true "文件转存成功: movie.mp4"
             (Some (mkData (JStr "newid1") (JStr "movie.mp4") JUndefined
                      (JStr "https://pan.quark.cn/s/newlink")))))
      w' evs /\
    calls evs
    = [CallToken "abc123"; CallDetail "abc123" "tok1";
       CallSave "abc123" (JStr "tok1") (JStr "f1") (JStr "sft1") "0";
       CallTask "save-job" 0; CallShare (JStr "newid1") (JStr "movie.mp4");
       CallTask "share-job" 0; CallSharePassword (JStr "sh1")] /\
    sleeps evs = [].
Proof.
  destruct (store_call_order unit Scenario.mock_upstream Scenario.no_text_gt_zero
              "https://pan.quark.cn/s/abc123" "abc123" None (JStr "tok1") "tok1"
              [("file_name", JStr "movie.mp4"); ("fid", JStr "f1");
               ("share_fid_token", JStr "sft1")]
              (JStr "save-job") "save-job" 0 (JStr "newid1") (JStr "share-job")
              "share-job" 0 (JStr "sh1")
              (JStr "https://pan.quark.cn/s/newlink") Scenario.start
              eq_refl ltac:(discriminate) I mock_upstream_serves_transfer
              eq_refl eq_refl eq_refl)
    as (w' & evs & E & C & Sl & _).
  exists w', evs. split; [exact E | split; [exact C | exact Sl]].
Defined.

(** X27: the metadata lookup [getFileInfo] always resolves, whatever the
    upstream does; it fetches nothing but the token call and then the
    listing, each at most three times; and the [fileSize] of the
    information it returns is always 0, since the listing entry that
    [detail] returns has no [size]. *)
Theorem getFileInfo_cost_and_size :
  forall (W : Type) (fetch : api_call -> W -> fetch_outcome * W)
    (text_gt_zero : string -> bool) (url : string) (st : net W),
    exists r w' evs k1 k2 stoken,
      yields (getFileInfo W fetch text_gt_zero url) st (Ok r) w' evs /\
      k1 <= 3 /\ k2 <= 3 /\
      calls evs = (repeat (CallToken (UrlUtils.getIdFromUrl url)) k1
                   ++ repeat (CallDetail (UrlUtils.getIdFromUrl url) stoken) k2)%list /\
      match r with
      | Some info => info_fileSize info = JNum 0
      | None => True
      end.
Proof. intros W fetch text_gt_zero url st. apply getFileInfo_cost. Qed.

(** X28: the failures of [store] come from a closed list. When the progress
    callback returns, [store] resolves, and a result without success has
    no [data] and the message [转存失败: ] followed by the message of the
    step that failed, one of the eight in [store_failures], or by the
    message of the [TypeError] of a file name that does not convert to
    text; what a request threw inside a helper (an HTTP status, a network
    error) never shows in it. The first of them, for a link without an
    identifier, is the message exactly when [getIdFromUrl] finds none. *)
Theorem store_failure_messages :
  forall (W : Type) (fetch : api_call -> W -> fetch_outcome * W)
    (text_gt_zero : string -> bool) (url : string) (cb : option callback)
    (st : net W),
    returns cb ->
    exists o st',
      store W fetch text_gt_zero url cb st = (Ok o, st') /\
      (success o = false ->
       exists msg,
         (In msg store_failures \/ msg = "Cannot convert object to primitive value") /\
         message o = "转存失败: " ++ msg /\
         data o = None /\
         (msg = "无法从链接中提取文件ID" <-> UrlUtils.getIdFromUrl url = "")).
Proof.
  intros W fetch text_gt_zero url cb st Hcb.
  destruct (store_raises W fetch text_gt_zero url cb Hcb)
    as (body & E & Hnone & Hsome & He).
  rewrite E. unfold try_catch. destruct (body st) as [[o|e] st1] eqn:Eb.
  - exists o, st1. split; [reflexivity|]. intros Hs.
    rewrite (He _ _ _ Eb) in Hs. discriminate.
  - assert (Hmsg : exists msg,
               e = ErrorObj (match e with ErrorObj n _ => n | _ => "" end) msg /\
               (In msg store_failures \/
                msg = "Cannot convert object to primitive value") /\
               (msg = "无法从链接中提取文件ID" <-> UrlUtils.getIdFromUrl url = "")).
    { destruct (String.eqb_spec (UrlUtils.getIdFromUrl url) "") as [Hid|Hid].
      - rewrite (Hnone Hid _ _ _ Eb). exists "无法从链接中提取文件ID".
        split; [reflexivity|]. split; [left; left; reflexivity | tauto].
      - destruct (Hsome Hid _ _ _ Eb) as [(msg & -> & Hin) | ->].
        + exists msg. split; [reflexivity|]. split; [left; right; exact Hin|].
          split; [|tauto]. intros ->.
          cbn in Hin. repeat (destruct Hin as [Hin | Hin]; [discriminate|]).
          contradiction.
        + exists "Cannot convert object to primitive value".
          split; [reflexivity|]. split; [right; reflexivity|].
          split; [discriminate | tauto]. }
    destruct Hmsg as (msg & He' & Hin & Hiff). rewrite He'. cbn [message_of].
    destruct (progress_run W cb (-1) ("转存失败: " ++ msg) 0
                (mkNet (world st1) (trace st1 ++ [ELog LError "转存失败:"])) Hcb)
      as (evs & Ep).
    unfold bind at 1. unfold lift_res. unfold bind at 1. unfold log, emit.
    rewrite (bind_ok _ _ _ _ _ Ep). unfold ret.
    eexists _, _. split; [reflexivity|]. intros _. exists msg.
    cbn [message data]. auto.
Qed.

(** A listing whose file name does not convert to text: all six steps are
    reported, all seven calls are made, and the transfer fails. *)
Example store_unwritable_name :
  let run := store unit Fixtures.unwritable_upstream Scenario.no_text_gt_zero
               "https://pan.quark.cn/s/abc123" (Some Scenario.quiet_callback)
               Scenario.start in
  fst run = Ok (mkOutcome false unwritable_name None) /\
  reports (trace (snd run)) = (store_steps ++ [((-1)%Z, unwritable_name, 0%Z)])%list /\
  List.length (calls (trace (snd run))) = 7.
Proof. vm_compute. repeat split; reflexivity. Qed.

Lemma store_failure_messages_witness :
  exists o st',
    store unit Scenario.always_500 Scenario.no_text_gt_zero
      "https://pan.quark.cn/s/abc123" (Some Scenario.quiet_callback) Scenario.start
    = (Ok o, st').
Proof.
  destruct (store_failure_messages unit Scenario.always_500 Scenario.no_text_gt_zero
              "https://pan.quark.cn/s/abc123" (Some Scenario.quiet_callback)
              Scenario.start (fun _ _ _ => eq_refl)) as (o & st' & E & _).
  exists o, st'. exact E.
Defined.

End OrderFacts.
